(** * VideoSizeClipper: the size-targeted transcode planner of [app.py]

    A shallow embedding of the planner functions of [src/app.py]
    ([parse_time_to_seconds], [format_seconds_to_time],
    [compute_target_bitrates], [choose_scaling_for_bitrate],
    [build_two_pass_commands], [human_readable_size] and the export
    handler [VideoClipperApp.on_export]) together with the properties
    the specification states about them.

    Numbers.  Python [int] is [Z].  Python [float] is read at two
    levels.  Most of the development takes it as the rationals [Q]
    with exact arithmetic: every float operation of the source is read
    as the exact operation it approximates, so the rounding error of
    IEEE doubles, infinities and NaN are outside that reading; it
    serves the properties that rounding cannot disturb (bounds, order,
    layout of texts, the sequence of events).  Where a statement
    depends on how each step rounds, the allocator and the advisor are
    read over IEEE 754 doubles (module [Double]), with infinities, NaN
    and the exceptions of [int] and [math.sqrt].  Operations that raise
    in Python (division by zero, [math.sqrt] of a negative number,
    [float] of a malformed literal) raise in the model.

    Strings.  A [str] is a [string] of characters with code points below
    256; [float(text)] covers decimal literals.

    Effects.  The export handler is a function from the answers of its
    surroundings (entry fields, probes, transcoder runs, file system) to
    the sequence of events it causes, in order. *)

From Stdlib Require Import ZArith QArith Qround Qabs Qminmax Qpower Lia Lqa.
From Stdlib Require Import Bool List Ascii String.
Import ListNotations.

Local Open Scope string_scope.
Local Open Scope list_scope.
Local Open Scope Z_scope.

(** ** Exceptions and results *)

Inductive exn : Type :=
| ZeroDivisionError
| ValueError
| OverflowError.

Inductive result (A : Type) : Type :=
| Ok (a : A)
| Raise (e : exn).

Arguments Ok {A} a.
Arguments Raise {A} e.

Definition bind {A B : Type} (r : result A) (k : A -> result B) : result B :=
  match r with
  | Ok a => k a
  | Raise e => Raise e
  end.

Notation "'do' x <- r ; k" := (bind r (fun x => k))
  (at level 10, x pattern, r at level 100, k at level 200).

(** ** Float primitives on [Q] *)

Module Float.

(** [a / b] on floats: raises [ZeroDivisionError] when [b] is zero. *)
Definition div (a b : Q) : result Q :=
  if Qeq_bool b 0 then Raise ZeroDivisionError else Ok (a / b)%Q.

(** [int(x)]: truncation toward zero. *)
Definition to_int (x : Q) : Z :=
  if Qle_bool 0 x then Qfloor x else Qceiling x.

(** [x // m] and [x % m] for a float [x] and a positive integer constant
    [m]: floor division and the remainder with the sign of [m]. *)
Definition floordiv (x : Q) (m : Z) : Q := inject_Z (Qfloor (x / inject_Z m)).

Definition modulo (x : Q) (m : Z) : Q :=
  (x - inject_Z m * inject_Z (Qfloor (x / inject_Z m)))%Q.

(** Rounding to the nearest integer, ties to the even neighbour: the
    rounding of the [f] format specifier on the exact value. *)
Definition round_half_even (x : Q) : Z :=
  let f := Qfloor x in
  let r := (x - inject_Z f)%Q in
  match Qcompare r (1 # 2) with
  | Lt => f
  | Gt => f + 1
  | Eq => if Z.even f then f else f + 1
  end.

(** Rounding to the nearest integer, ties upward: the "arithmetic
    rounding" of the specification's [round]. *)
Definition round_half_up (x : Q) : Z := Qfloor (x + (1 # 2)).

End Float.

(** ** Bitrate allocator: [compute_target_bitrates] *)

Definition default_min_audio_kbps : Z := 48.
Definition default_max_audio_kbps : Z := 160.
Definition default_container_overhead_ratio : Q := 98 # 100.

(** Returns [(video_kbps, audio_kbps)], in the order of the source. *)
Definition compute_target_bitrates
    (clip_seconds target_size_mb : Q)
    (min_audio_kbps max_audio_kbps : Z)
    (container_overhead_ratio : Q) : result (Z * Z) :=
  let target_bits :=
    (target_size_mb * 1024 * 1024 * 8 * container_overhead_ratio)%Q in
  let audio_bits_guess :=
    Qmax (Qmin (target_bits * (1 # 10))
               (inject_Z (max_audio_kbps * 1000) * clip_seconds))
         (inject_Z (min_audio_kbps * 1000) * clip_seconds) in
  do a <- Float.div (audio_bits_guess / 1000)%Q clip_seconds;
  let audio_kbps :=
    Z.max (Z.min (Float.to_int a) max_audio_kbps) min_audio_kbps in
  let video_bits_available :=
    Qmax (target_bits - inject_Z (audio_kbps * 1000) * clip_seconds)
         (inject_Z (1000 * 1000)) in
  do v <- Float.div (video_bits_available / 1000)%Q clip_seconds;
  let video_kbps := Z.max (Float.to_int v) 100 in
  Ok (video_kbps, audio_kbps).

(** [clamp] on integers, as a three-way case split. *)
Definition clampZ (x lo hi : Z) : Z :=
  if x <? lo then lo else if hi <? x then hi else x.

(** ** Python strings

    A [str] is a [string] whose characters are code points below 256. *)

Module Str.

(** [c.isspace()] below code point 256: tab to carriage return, the
    separators 28 to 31, space, next-line and no-break space. *)
Definition is_space (c : ascii) : bool :=
  let n := nat_of_ascii c in
  ((9 <=? n) && (n <=? 13) || (28 <=? n) && (n <=? 32)
   || (n =? 133) || (n =? 160))%nat.

Definition is_digit (c : ascii) : bool :=
  let n := nat_of_ascii c in ((48 <=? n) && (n <=? 57))%nat.

Definition digit_value (c : ascii) : Z := Z.of_nat (nat_of_ascii c - 48).

Definition digit_char (d : Z) : ascii := ascii_of_nat (48 + Z.to_nat d).

(** [s.lstrip()] and [s.rstrip()] *)
Fixpoint lstrip (s : string) : string :=
  match s with
  | String c r => if is_space c then lstrip r else s
  | EmptyString => EmptyString
  end.

Fixpoint rstrip (s : string) : string :=
  match s with
  | String c r =>
      match rstrip r with
      | EmptyString => if is_space c then EmptyString else String c EmptyString
      | r' => String c r'
      end
  | EmptyString => EmptyString
  end.

(** [s.strip()] *)
Definition strip (s : string) : string := rstrip (lstrip s).

(** The white space that [float(s)] and [int(s)] drop around a number:
    that of [isspace] without the separators 28 to 31, which these
    conversions leave in place and then refuse. *)
Definition is_number_space (c : ascii) : bool :=
  let n := nat_of_ascii c in
  ((9 <=? n) && (n <=? 13) || (n =? 32) || (n =? 133) || (n =? 160))%nat.

Fixpoint lstrip_number (s : string) : string :=
  match s with
  | String c r => if is_number_space c then lstrip_number r else s
  | EmptyString => EmptyString
  end.

Fixpoint rstrip_number (s : string) : string :=
  match s with
  | String c r =>
      match rstrip_number r with
      | EmptyString => if is_number_space c then EmptyString else String c EmptyString
      | r' => String c r'
      end
  | EmptyString => EmptyString
  end.

Definition strip_number (s : string) : string := rstrip_number (lstrip_number s).

(** [c in s] for a one-character needle. *)
Fixpoint contains (c : ascii) (s : string) : bool :=
  match s with
  | String d r => Ascii.eqb d c || contains c r
  | EmptyString => false
  end.

(** [s.split(sep)] for a one-character separator. *)
Fixpoint split (sep : ascii) (s : string) : list string :=
  match s with
  | String c r =>
      if Ascii.eqb c sep then EmptyString :: split sep r
      else match split sep r with
           | h :: t => String c h :: t
           | [] => [String c EmptyString]
           end
  | EmptyString => [EmptyString]
  end.

(** The text before the first character satisfying [p], and the text
    after it when there is one. *)
Fixpoint break_at (p : ascii -> bool) (s : string) : string * option string :=
  match s with
  | String c r =>
      if p c then (EmptyString, Some r)
      else let '(h, t) := break_at p r in (String c h, t)
  | EmptyString => (EmptyString, None)
  end.

Fixpoint repeat (c : ascii) (n : nat) : string :=
  match n with
  | O => EmptyString
  | S k => String c (repeat c k)
  end.

(** [str(n)] for a non-negative integer, most significant digit first:
    [fuel] bounds the number of digits. *)
Fixpoint digits_fuel (fuel : nat) (n : Z) (acc : string) : string :=
  match fuel with
  | O => acc
  | S k =>
      let acc' := String (digit_char (n mod 10)) acc in
      if n <? 10 then acc' else digits_fuel k (n / 10) acc'
  end.

Definition of_nonneg (n : Z) : string :=
  digits_fuel (S (Z.to_nat (Z.log2 n))) n EmptyString.

(** [str(z)] *)
Definition of_int (z : Z) : string :=
  if z <? 0 then String "-" (of_nonneg (- z)) else of_nonneg z.

(** [n] rendered with at least [width] digits, zero-filled on the left. *)
Definition zero_fill (width : nat) (s : string) : string :=
  (repeat "0" (width - String.length s) ++ s)%string.

(** [f"{z:0Wd}"]: sign first, then zeros up to a total width of [width]. *)
Definition format_d (width : nat) (z : Z) : string :=
  if z <? 0 then String "-" (zero_fill (width - 1) (of_nonneg (- z)))
  else zero_fill width (of_nonneg z).

(** [f"{x:0W.Df}"]: [decimals] digits after the point, the value
    rounded half-to-even, the sign of [x] kept, zero-filled to [width]
    ([width = 0] for [f"{x:.Df}"]). *)
Definition format_f (width decimals : nat) (x : Q) : string :=
  let scale := 10 ^ Z.of_nat decimals in
  let m := Float.round_half_even (Qabs x * inject_Z scale) in
  let body :=
    (of_nonneg (m / scale) ++ "."
       ++ zero_fill decimals (of_nonneg (m mod scale)))%string in
  if Qlt_le_dec x 0 then String "-" (zero_fill (width - 1) body)
  else zero_fill width body.

(** A run of decimal digits in which single underscores may separate
    digits: its value and its number of digits. *)
Fixpoint scan_digits (after_digit : bool) (acc : Z) (count : nat) (s : string)
    : option (Z * nat) :=
  match s with
  | String c r =>
      if is_digit c then scan_digits true (10 * acc + digit_value c) (S count) r
      else if Ascii.eqb c "_" then
        if after_digit then scan_digits false acc count r else None
      else None
  | EmptyString =>
      if after_digit || (count =? 0)%nat then Some (acc, count) else None
  end.

Definition digit_run (s : string) : option (Z * nat) := scan_digits false 0 0%nat s.

Definition split_sign (s : string) : bool * string :=
  match s with
  | String "-" r => (true, r)
  | String "+" r => (false, r)
  | _ => (false, s)
  end.

Definition is_exponent_mark (c : ascii) : bool := Ascii.eqb c "e" || Ascii.eqb c "E".

Definition is_point (c : ascii) : bool := Ascii.eqb c ".".

(** [float(s)] on decimal literals: surrounding whitespace, an optional
    sign, digits with an optional fraction, an optional exponent.  Any
    other text raises [ValueError]; the spellings of infinity and NaN,
    which have no rational value, are not literals of the model. *)
Definition to_float (s : string) : result Q :=
  let '(negative, body) := split_sign (strip_number s) in
  let '(mantissa, exponent) := break_at is_exponent_mark body in
  let '(int_part, frac_part) := break_at is_point mantissa in
  match digit_run int_part,
        digit_run (match frac_part with Some f => f | None => EmptyString end) with
  | Some (iv, ic), Some (fv, fc) =>
      if ((ic + fc) =? 0)%nat then Raise ValueError
      else
        let m := (inject_Z iv + inject_Z fv / inject_Z (10 ^ Z.of_nat fc))%Q in
        let signed := if negative then (- m)%Q else m in
        match exponent with
        | None => Ok signed
        | Some e =>
            let '(eneg, edigits) := split_sign e in
            match digit_run edigits with
            | Some (ev, S _) =>
                Ok (signed * Qpower 10 (if eneg then - ev else ev))%Q
            | _ => Raise ValueError
            end
        end
  | _, _ => Raise ValueError
  end.

End Str.

(** ** Time parser and formatter *)

Definition parse_time_to_seconds (value : string) : result Q :=
  let value := Str.strip value in
  if (String.length value =? 0)%nat then Ok 0%Q
  else if Str.contains ":" value then
    match map Str.strip (Str.split ":" value) with
    | [h; m; s] =>
        do h' <- Str.to_float h;
        do m' <- Str.to_float m;
        do s' <- Str.to_float s;
        Ok (h' * 3600 + m' * 60 + s')%Q
    | [m; s] =>
        do m' <- Str.to_float m;
        do s' <- Str.to_float s;
        Ok (m' * 60 + s')%Q
    | _ => Raise ValueError
    end
  else Str.to_float value.

Definition format_seconds_to_time (value : Q) : string :=
  let value := if Qlt_le_dec value 0 then 0%Q else value in
  let hours := Float.to_int (Float.floordiv value 3600) in
  let minutes := Float.to_int (Float.floordiv (Float.modulo value 3600) 60) in
  let seconds := Float.modulo value 60 in
  if 0 <? hours then
    (Str.format_d 2 hours ++ ":" ++ Str.format_d 2 minutes ++ ":"
       ++ Str.format_f 6 3 seconds)%string
  else (Str.format_d 2 minutes ++ ":" ++ Str.format_f 6 3 seconds)%string.

(** ** Downscale advisor: [choose_scaling_for_bitrate]

    [math.sqrt] has irrational values, so the root is never formed: the
    model keeps the radicand [r] and evaluates the one expression the
    source builds from the root, [(width * sqrt(r)) // 2], exactly, by an
    integer square root.  For [w >= 0] it is the largest [k] with
    [(2k)^2 <= w^2 * r]; for [w < 0] it is minus the least [k] with
    [w^2 * r <= (2k)^2] (lemma [floor_half_mul_sqrt_spec]). *)

Definition min_bpp : Q := 6 # 100.

Definition ceil_sqrt (x : Q) : Z :=
  let c := Qceiling x in
  let s := Z.sqrt c in
  if s * s <? c then s + 1 else s.

Definition floor_half_mul_sqrt (w : Z) (r : Q) : Z :=
  let x := (inject_Z (w * w) * r / 4)%Q in
  if 0 <=? w then Z.sqrt (Qfloor x) else - ceil_sqrt x.

(** The body of [choose_scaling_for_bitrate] up to its return value: the
    new dimensions, or [None] where the source returns [None]. *)
Definition scale_plan (width height : option Z) (fps : option Q) (video_kbps : Z)
    : result (option (Z * Z)) :=
  match width, height, fps with
  | Some w, Some h, Some f =>
      if (w =? 0) || (h =? 0) || Qeq_bool f 0 || Qle_bool f 0 then Ok None
      else
        do bits_per_pixel <-
          Float.div (inject_Z (video_kbps * 1000)) (inject_Z (w * h) * f)%Q;
        if Qle_bool min_bpp bits_per_pixel then Ok None
        else
          do radicand <- Float.div bits_per_pixel min_bpp;
          if Qlt_le_dec radicand 0 then Raise ValueError
          else
            let new_w := Z.max 160 (floor_half_mul_sqrt w radicand * 2) in
            let new_h := Z.max 160 (floor_half_mul_sqrt h radicand * 2) in
            if (new_w <? w) && (new_h <? h) then Ok (Some (new_w, new_h))
            else Ok None
  | _, _, _ => Ok None
  end.

Definition scale_filter_text (d : Z * Z) : string :=
  ("scale=" ++ Str.of_int (fst d) ++ ":" ++ Str.of_int (snd d) ++ ":flags=lanczos")%string.

Definition choose_scaling_for_bitrate
    (width height : option Z) (fps : option Q) (video_kbps : Z)
    : result (option string) :=
  do plan <- scale_plan width height fps video_kbps;
  Ok (option_map scale_filter_text plan).


(** ** Paths

    A [pathlib.Path] in parsed form: the rendered directory prefix
    (separator included, empty when there is none) and the final
    component. *)

Record Path : Type := mkPath { parent : string; name : string }.

Module PathOps.

(** [str(p)] *)
Definition str (p : Path) : string := (parent p ++ name p)%string.

(** [s.rfind(c)] *)
Fixpoint rfind (c : ascii) (s : string) : option nat :=
  match s with
  | String d r =>
      match rfind c r with
      | Some i => Some (S i)
      | None => if Ascii.eqb d c then Some O else None
      end
  | EmptyString => None
  end.

(** Where the suffix of a final component starts: the last dot, when it
    is neither the first nor the last character. *)
Definition suffix_start (nm : string) : option nat :=
  match rfind "." nm with
  | Some i => if ((0 <? i) && (i <? String.length nm - 1))%nat then Some i else None
  | None => None
  end.

(** [p.stem] *)
Definition stem (p : Path) : string :=
  match suffix_start (name p) with
  | Some i => String.substring 0 i (name p)
  | None => name p
  end.

(** [p.with_suffix(suffix)] for a well-formed [suffix] (a dot followed by
    text without separators); raises [ValueError] on an empty name. *)
Definition with_suffix (p : Path) (suffix : string) : result Path :=
  if (String.length (name p) =? 0)%nat then Raise ValueError
  else Ok (mkPath (parent p) (stem p ++ suffix)).

(** [dir / nm] for a directory given by its rendered prefix. *)
Definition child (dir_prefix nm : string) : Path := mkPath dir_prefix nm.

End PathOps.

(** ** Encode plan builder: [build_two_pass_commands] *)

Definition null_sink (os_name : string) : string :=
  if String.eqb os_name "nt" then "NUL" else "/dev/null".

Definition build_two_pass_commands (os_name : string)
    (src dst : Path) (ss duration : option Q)
    (video_kbps audio_kbps : Z) (scale_filter : option string)
    : result (list string * list string) :=
  let vf :=
    match scale_filter with
    | Some f => if (String.length f =? 0)%nat then [] else ["-vf"; f]
    | None => []
    end in
  let range_args := [] in
  let range_args :=
    match ss with
    | Some s => range_args ++ ["-ss"; Str.format_f 0 3 s]
    | None => range_args
    end in
  let range_args :=
    match duration with
    | Some d => range_args ++ ["-t"; Str.format_f 0 3 d]
    | None => range_args
    end in
  do log <- PathOps.with_suffix dst ".log";
  let logfile := PathOps.str log in
  let pass1 :=
    ["ffmpeg"; "-y"] ++ range_args ++ ["-i"; PathOps.str src] ++ vf
      ++ ["-c:v"; "libx264"; "-b:v"; (Str.of_int video_kbps ++ "k")%string;
          "-pass"; "1"; "-preset"; "medium"; "-pix_fmt"; "yuv420p"; "-an";
          "-f"; "mp4"; "-passlogfile"; logfile; null_sink os_name] in
  let pass2 :=
    ["ffmpeg"; "-y"] ++ range_args ++ ["-i"; PathOps.str src] ++ vf
      ++ ["-c:v"; "libx264"; "-b:v"; (Str.of_int video_kbps ++ "k")%string;
          "-pass"; "2"; "-preset"; "medium"; "-pix_fmt"; "yuv420p";
          "-c:a"; "aac"; "-b:a"; (Str.of_int audio_kbps ++ "k")%string;
          "-movflags"; "+faststart"; "-passlogfile"; logfile; PathOps.str dst] in
  Ok (pass1, pass2).

(** ** [human_readable_size] *)

Fixpoint size_in_units (size : Q) (unit : string) (larger : list string)
    : Q * string :=
  match larger with
  | next :: rest =>
      if Qle_bool 1024 size then size_in_units (size / 1024) next rest
      else (size, unit)
  | [] => (size, unit)
  end.

Definition human_readable_size (bytes_size : Z) : string :=
  let '(size, unit) := size_in_units (inject_Z bytes_size) "B" ["KB"; "MB"; "GB"] in
  (Str.format_f 0 2 size ++ " " ++ unit)%string.

(** ** Export handler: [VideoClipperApp.on_export]

    The handler talks to the window, the file system and two external
    programs.  Its observable behaviour is the sequence of [event]s it
    causes; what the outside world answers is read from an [Env].  The
    calls that only refresh the window ([update_idletasks]) leave no
    event, and creating the download directory and removing a file are
    taken to succeed. *)

Inductive event : Type :=
| ShowError (title message : string)
| ShowInfo (title message : string)
| SetStatus (text : string)
| Mkdir (path : string)
| RunCommand (cmd : list string)
| Unlink (path : string).

Record Env : Type := mkEnv {
  (** the three entry fields and the source path, already expanded *)
  src_path : Path;
  start_var : string;
  end_var : string;
  size_mb_var : string;
  (** [src.exists()] *)
  src_exists : bool;
  (** both tools found on the path once [ensure_ff_tools_on_path] has run *)
  tools_on_path : bool;
  (** the answer of the n-th call of [ffprobe_duration_seconds(src)] *)
  probe_duration : nat -> option Q;
  (** the answer of [ffprobe_resolution_fps(src)] *)
  probe_stream : option Z * option Z * option Q;
  (** the rendered prefix of [Path.home() / "Downloads"], separator included *)
  downloads : string;
  (** [os.name] *)
  os_name : string;
  (** [run_command]: exit code, standard output, standard error *)
  run_command : list string -> Z * string * string;
  (** [p.exists()] for the statistics files *)
  file_exists : string -> bool;
  (** [dst.stat().st_size], [None] when [stat] raises *)
  stat_size : option Z
}.

(** Events so far, then a value or the exception that ended the call. *)
Definition M (A : Type) : Type := list event * result A.

Definition ret {A : Type} (a : A) : M A := ([], Ok a).

Definition emit (e : event) : M unit := ([e], Ok tt).

Definition lift {A : Type} (r : result A) : M A := ([], r).

Definition bindM {A B : Type} (m : M A) (k : A -> M B) : M B :=
  match m with
  | (evs, Ok a) => let '(evs', r) := k a in (evs ++ evs', r)
  | (evs, Raise e) => (evs, Raise e)
  end.

Notation "'run' x <- m ; k" := (bindM m (fun x => k))
  (at level 10, x pattern, m at level 100, k at level 200).
Notation "m ';;' k" := (bindM m (fun _ => k))
  (at level 61, right associativity).

(** [a or b] on strings. *)
Definition str_or (a b : string) : string :=
  if (String.length a =? 0)%nat then b else a.

(** What the handler has settled when it starts the transcoder. *)
Record ExportPlan : Type := mkPlan {
  pass1 : list string;
  pass2 : list string;
  plan_dst : Path;
  plan_target_mb : Q;
  plan_video_kbps : Z;
  plan_audio_kbps : Z
}.

(** [lst[i:i] = items] with [i = len(lst) - 1]. *)
Definition insert_before_last (items lst : list string) : list string :=
  let insert_idx := (List.length lst - 1)%nat in
  firstn insert_idx lst ++ items ++ skipn insert_idx lst.

(** Lines 515 to 519: the two argument lists as the handler runs them. *)
Definition export_commands (os : string) (src dst : Path)
    (start_s clip_seconds : Q) (video_kbps audio_kbps : Z)
    (scale_filter : option string) : result (list string * list string) :=
  do (p1, p2) <- build_two_pass_commands os src dst (Some start_s)
                    (Some clip_seconds) video_kbps audio_kbps scale_filter;
  let p2 := if audio_kbps <=? 64 then insert_before_last ["-ac"; "1"] p2 else p2 in
  Ok (p1, p2).

(** The status text while encoding; the two ellipsis characters of the
    source are written as three dots each. *)
Definition encoding_status : string :=
  "Encoding (two-pass)... this may take a moment...".

Definition size_note : string :=
  "Size differs from target by more than ~8%. This can happen for very short clips or complex content.".

(** The handler up to the first transcoder run: input checks, probing,
    allocation, scaling advice and the argument lists.  A branch that ends
    in [return] yields [None]. *)
Definition plan_export (env : Env) : M (option ExportPlan) :=
  let src := src_path env in
  if negb (src_exists env) then
    emit (ShowError "Error" "Please select a valid source MP4 file.");; ret None
  else if negb (tools_on_path env) then
    emit (ShowError "Error" "ffmpeg/ffprobe not found on PATH. Install ffmpeg and try again.");;
    ret None
  else
  match (if (String.length (Str.strip (start_var env)) =? 0)%nat then Ok 0%Q
         else parse_time_to_seconds (start_var env)) with
  | Raise _ => emit (ShowError "Error" "Invalid Start time format.");; ret None
  | Ok start_s =>
  let end_raw := Str.strip (end_var env) in
  match (if (String.length end_raw =? 0)%nat then
           Ok (match probe_duration env 0 with
               | Some d => if Qeq_bool d 0 then None else Some d
               | None => None
               end)
         else do e <- parse_time_to_seconds end_raw; Ok (Some e)) with
  | Raise _ => emit (ShowError "Error" "Invalid End time format.");; ret None
  | Ok end_s =>
  if (match end_s with Some e => if Qlt_le_dec e start_s then true else false
      | None => false end) then
    emit (ShowError "Error" "End must be after Start.");; ret None
  else
  match (do t <- Str.to_float (size_mb_var env);
         if Qle_bool t 0 then Raise ValueError else Ok t) with
  | Raise _ => emit (ShowError "Error" "Target size must be a positive number.");; ret None
  | Ok target_mb =>
  match (match end_s with
         | Some e => Some (Qmax (1 # 10) (e - start_s))
         | None =>
             match probe_duration env 1 with
             | Some video_dur => Some (Qmax (1 # 10) (video_dur - start_s))
             | None => None
             end
         end) with
  | None => emit (ShowError "Error" "Could not determine video duration.");; ret None
  | Some clip_seconds =>
  let '(video_w, video_h, fps) := probe_stream env in
  run (video_kbps, audio_kbps) <-
    lift (compute_target_bitrates clip_seconds target_mb default_min_audio_kbps
            default_max_audio_kbps default_container_overhead_ratio);
  run scale_filter <- lift (choose_scaling_for_bitrate video_w video_h fps video_kbps);
  emit (Mkdir (downloads env));;
  let base_name :=
    (PathOps.stem src ++ "_trim_" ++ Str.of_int (Float.to_int start_s) ++ "-"
       ++ match end_s with
          | Some e => Str.of_int (Float.to_int e)
          | None => "end"
          end
       ++ "_" ++ Str.of_int (Float.to_int target_mb) ++ "MB.mp4")%string in
  let dst := PathOps.child (downloads env) base_name in
  emit (SetStatus encoding_status);;
  run (p1, p2) <-
    lift (export_commands (os_name env) src dst start_s clip_seconds
            video_kbps audio_kbps scale_filter);
  ret (Some (mkPlan p1 p2 dst target_mb video_kbps audio_kbps))
  end end end end.

(** Lines 526 to 532: removal of the statistics files; an exception ends
    the loop and is swallowed. *)
Fixpoint clean_pass_logs (env : Env) (dst : Path) (exts : list string) : list event :=
  match exts with
  | ext :: rest =>
      match PathOps.with_suffix dst ext with
      | Ok p =>
          (if file_exists env (PathOps.str p) then [Unlink (PathOps.str p)] else [])
            ++ clean_pass_logs env dst rest
      | Raise _ => []
      end
  | [] => []
  end.

(** [abs(final_size - target_bytes) / max(target_bytes, 1)] *)
Definition size_deviation (final_size target_bytes : Z) : result Q :=
  Float.div (inject_Z (Z.abs (final_size - target_bytes)))
            (inject_Z (Z.max target_bytes 1)).

(** Lines 537 to 545: the size check; every exception leads to the plain
    status text. *)
Definition validate_size (env : Env) (plan : ExportPlan) : list event :=
  match stat_size env with
  | Some final_size =>
      let target_bytes := Float.to_int (plan_target_mb plan * 1024 * 1024)%Q in
      let done :=
        SetStatus ("Done: " ++ name (plan_dst plan) ++ " ("
                     ++ human_readable_size final_size ++ ")")%string in
      match size_deviation final_size target_bytes with
      | Ok ratio =>
          if Qlt_le_dec (8 # 100) ratio then [done; ShowInfo "Note" size_note]
          else [done]
      | Raise _ => [done; SetStatus "Done"]
      end
  | None => [SetStatus "Done"]
  end.

(** The handler from the first transcoder run on. *)
Definition run_export (env : Env) (plan : ExportPlan) : M unit :=
  emit (RunCommand (pass1 plan));;
  let '(code1, out1, err1) := run_command env (pass1 plan) in
  if negb (code1 =? 0) then
    emit (ShowError "ffmpeg error (pass 1)" (str_or err1 out1))
  else
    emit (RunCommand (pass2 plan));;
    let '(code2, out2, err2) := run_command env (pass2 plan) in
    (clean_pass_logs env (plan_dst plan) [".log"; ".log.mbtree"], Ok tt);;
    if negb (code2 =? 0) then
      emit (ShowError "ffmpeg error (pass 2)" (str_or err2 out2))
    else (validate_size env plan, Ok tt).

Definition on_export (env : Env) : M unit :=
  run plan <- plan_export env;
  match plan with
  | Some p => run_export env p
  | None => ret tt
  end.

(** Observations on a run. *)
Definition commands_run (evs : list event) : list (list string) :=
  flat_map (fun e => match e with RunCommand c => [c] | _ => [] end) evs.

Definition errors_shown (evs : list event) : list (string * string) :=
  flat_map (fun e => match e with ShowError t m => [(t, m)] | _ => [] end) evs.

Definition notes_shown (evs : list event) : list (string * string) :=
  flat_map (fun e => match e with ShowInfo t m => [(t, m)] | _ => [] end) evs.

Definition statuses (evs : list event) : list string :=
  flat_map (fun e => match e with SetStatus t => [t] | _ => [] end) evs.

(** Whether the adjacent pair [opt value] occurs in an argument list. *)
Fixpoint has_option (opt value : string) (args : list string) : bool :=
  match args with
  | a :: (b :: _) as rest =>
      (String.eqb a opt && String.eqb b value) || has_option opt value rest
  | _ => false
  end.

(** ** Auxiliary definitions for the proofs *)

(** A check over the integers [from .. from + n - 1]. *)
Fixpoint range_from (n : nat) (from : Z) (f : Z -> bool) : bool :=
  match n with
  | O => true
  | S k => f from && range_from k (from + 1) f
  end.

Definition range_all (n : nat) (f : Z -> bool) : bool := range_from n 0 f.

Fixpoint all_chars (p : ascii -> bool) (s : string) : bool :=
  match s with
  | String c r => p c && all_chars p r
  | EmptyString => true
  end.

Definition blank_free (c : ascii) : bool := negb (Str.is_space c).

Definition colon_free (c : ascii) : bool := negb (Ascii.eqb c ":").

(** [t] is a field of a formatted time that [float] reads as [q]. *)
Definition time_field (t : string) (q : Q) : Prop :=
  all_chars blank_free t = true /\ all_chars colon_free t = true
  /\ String.length t <> 0%nat /\ Str.to_float t = Ok q.

(** [t] consists of exactly [n] decimal digits and reads as [v]. *)
Definition good_digits (n : nat) (v : Z) (t : string) : bool :=
  all_chars Str.is_digit t && (String.length t =? n)%nat
  && match Str.digit_run t with
     | Some (v', c) => (v' =? v) && (c =? n)%nat
     | None => false
     end.


(** The pixel density of the specification. *)
Definition bits_per_pixel (w h : Z) (f : Q) (video_kbps : Z) : Q :=
  (inject_Z (video_kbps * 1000) / (inject_Z (w * h) * f))%Q.

(** The arguments of a transcoder call between [ffmpeg -y] and the
    input marker [-i]: the options that apply to the input. *)
Fixpoint take_until (stop : string) (args : list string) : list string :=
  match args with
  | a :: rest => if String.eqb a stop then [] else a :: take_until stop rest
  | [] => []
  end.

Definition input_options (cmd : list string) : list string :=
  take_until "-i" (skipn 2 cmd).

(** The range arguments for a start and a duration. *)
Definition range_arguments (ss duration : option Q) : list string :=
  match ss with Some s => ["-ss"; Str.format_f 0 3 s] | None => [] end
  ++ match duration with Some d => ["-t"; Str.format_f 0 3 d] | None => [] end.

(** A run to evaluate: a ten-second clip from the start of a
    1920x1080 source at 30 frames per second, one megabyte requested;
    the first transcoder pass exits with [code1] and writes [out1] and
    [err1], the second with [code2]; [size] is the size of the result. *)
Definition sample_env (code1 code2 : Z) (out1 err1 : string) (size : option Z) : Env :=
  mkEnv (mkPath "/videos/" "holiday.mp4") "0" "00:10" "1" true true
        (fun _ => None) (Some 1920, Some 1080, Some 30%Q) "/home/u/Downloads/" "posix"
        (fun cmd => if has_option "-pass" "1" cmd then (code1, out1, err1)
                    else (code2, "", "frame= 300"))
        (fun _ => true) size.

(** What holds of the handler before the first transcoder run: nothing
    has been run, no note shown, and no error shown if a plan comes out. *)
Definition planning_trace (m : M (option ExportPlan)) : Prop :=
  commands_run (fst m) = [] /\ notes_shown (fst m) = []
  /\ (forall plan, snd m = Ok (Some plan) -> errors_shown (fst m) = []).

(** The size deviation of the specification:
    [|actual - target_bytes| / max(target_bytes, 1)]. *)
Definition deviation_ratio (actual target_bytes : Z) : Q :=
  (Qabs (inject_Z actual - inject_Z target_bytes) / Qmax (inject_Z target_bytes) 1)%Q.

(** ** Further auxiliary definitions *)

(** [s.count(c)] for a one-character needle. *)
Fixpoint count_char (c : ascii) (s : string) : nat :=
  match s with
  | String d r => ((if Ascii.eqb d c then 1 else 0) + count_char c r)%nat
  | EmptyString => O
  end.

(** [text] has the layout of [pattern]: a decimal digit wherever the
    pattern has the letter d, the pattern's own character elsewhere. *)
Fixpoint matches_shape (pattern text : string) : bool :=
  match pattern, text with
  | String p ps, String t ts =>
      (if Ascii.eqb p "d" then Str.is_digit t else Ascii.eqb p t)
      && matches_shape ps ts
  | EmptyString, EmptyString => true
  | _, _ => false
  end.

(** The files a run removes, in order. *)
Definition unlinked (evs : list event) : list string :=
  flat_map (fun e => match e with Unlink p => [p] | _ => [] end) evs.

(** [phi] holds of every plan the planning phase hands to the
    transcoder runs. *)
Definition yields (phi : ExportPlan -> Prop) (m : M (option ExportPlan)) : Prop :=
  forall evs plan, m = (evs, Ok (Some plan)) -> phi plan.

(** The planning phase never ends quietly without a plan. *)
Definition productive (m : M (option ExportPlan)) : Prop :=
  forall evs, m <> (evs, Ok None).

(** When the planning phase ends without a plan and without an
    exception, one error dialog is all that happened. *)
Definition refusal (m : M (option ExportPlan)) : Prop :=
  forall evs, m = (evs, Ok None) -> exists msg, evs = [ShowError "Error" msg].

(** How a plan of the export handler hangs together. *)
Definition plan_sound (env : Env) (plan : ExportPlan) : Prop :=
  exists (start_s clip_seconds : Q) (filter : option string) (base : string),
    (1 # 10 <= clip_seconds)%Q
    /\ (0 < plan_target_mb plan)%Q
    /\ compute_target_bitrates clip_seconds (plan_target_mb plan)
         default_min_audio_kbps default_max_audio_kbps
         default_container_overhead_ratio
       = Ok (plan_video_kbps plan, plan_audio_kbps plan)
    /\ (let '(w, h, f) := probe_stream env in
        choose_scaling_for_bitrate w h f (plan_video_kbps plan)) = Ok filter
    /\ export_commands (os_name env) (src_path env) (plan_dst plan)
         start_s clip_seconds (plan_video_kbps plan) (plan_audio_kbps plan) filter
       = Ok (pass1 plan, pass2 plan)
    /\ plan_dst plan = mkPath (downloads env) (base ++ "MB.mp4").

(** Whenever the planning phase hands over a plan, the events before
    that are exactly [pre]. *)
Definition expects (pre : list event) (m : M (option ExportPlan)) : Prop :=
  forall evs plan, m = (evs, Ok (Some plan)) -> evs = pre.

(** The exit code of a transcoder run. *)
Definition exit_code (answer : Z * string * string) : Z := fst (fst answer).

(** ** Media prober: [ffprobe_duration_seconds], [ffprobe_resolution_fps]

    The probes run an external program and decode its output with
    [json.loads].  The decoded document is a [json] value; the decoder
    itself is a parameter ([json_loads], [None] where it raises), and so
    is the process runner.  Every exception inside the probes is caught
    by their [except Exception], so a raising operation is an [option]
    here. *)

#[warnings="-register-all"]
Inductive json : Type :=
| JNull
| JBool (b : bool)
| JInt (z : Z)
| JFloat (q : Q)
| JStr (s : string)
| JList (items : list json)
| JDict (fields : list (string * json)).

Module Py.

(** The truth value of a decoded value. *)
Definition truthy (v : json) : bool :=
  match v with
  | JNull => false
  | JBool b => b
  | JInt z => negb (z =? 0)
  | JFloat q => negb (Qeq_bool q 0)
  | JStr s => negb (String.length s =? 0)%nat
  | JList items => match items with [] => false | _ :: _ => true end
  | JDict fields => match fields with [] => false | _ :: _ => true end
  end.

(** The value bound to [key] in the fields of an object; a decoded
    object holds each key once. *)
Fixpoint lookup (key : string) (fields : list (string * json)) : option json :=
  match fields with
  | (k, v) :: rest => if String.eqb k key then Some v else lookup key rest
  | [] => None
  end.

(** [v.get(key, default)]: only an object has [get]. *)
Definition get (v : json) (key : string) (default : json) : option json :=
  match v with
  | JDict fields =>
      Some (match lookup key fields with Some x => x | None => default end)
  | _ => None
  end.

(** [float(v)] *)
Definition to_float (v : json) : option Q :=
  match v with
  | JInt z => Some (inject_Z z)
  | JFloat q => Some q
  | JBool b => Some (if b then 1%Q else 0%Q)
  | JStr s => match Str.to_float s with Ok q => Some q | Raise _ => None end
  | _ => None
  end.

(** [int(text)] in base ten: white space around, an optional sign, digits
    with single underscores between them. *)
Definition int_of_text (text : string) : option Z :=
  let '(negative, body) := Str.split_sign (Str.strip_number text) in
  match Str.digit_run body with
  | Some (v, S _) => Some (if negative then - v else v)
  | _ => None
  end.

(** [int(v)] *)
Definition to_int (v : json) : option Z :=
  match v with
  | JInt z => Some z
  | JFloat q => Some (Float.to_int q)
  | JBool b => Some (if b then 1 else 0)
  | JStr s => int_of_text s
  | _ => None
  end.

(** [v[0]] for a value that is not empty. *)
Definition first_item (v : json) : option json :=
  match v with
  | JList (x :: _) => Some x
  | JStr (String c _) => Some (JStr (String c EmptyString))
  | _ => None
  end.

Definition is_slash (v : json) : bool :=
  match v with
  | JStr s => String.eqb s "/"
  | _ => false
  end.

(** ["/" in v]: a substring test on text, membership in a list, a key
    test on an object; other values are not iterable. *)
Definition has_slash (v : json) : option bool :=
  match v with
  | JStr s => Some (Str.contains "/" s)
  | JList items => Some (existsb is_slash items)
  | JDict fields => Some (match lookup "/" fields with Some _ => true | None => false end)
  | _ => None
  end.

End Py.

Definition duration_command (video_path : Path) : list string :=
  ["ffprobe"; "-v"; "error"; "-select_streams"; "v:0"; "-show_entries";
   "format=duration"; "-of"; "json"; PathOps.str video_path].

Definition stream_command (video_path : Path) : list string :=
  ["ffprobe"; "-v"; "error"; "-select_streams"; "v:0"; "-show_entries";
   "stream=width,height,avg_frame_rate"; "-of"; "json"; PathOps.str video_path].

Definition ffprobe_duration_seconds
    (json_loads : string -> option json)
    (runner : list string -> Z * string * string) (video_path : Path) : option Q :=
  let '(code, out, err) := runner (duration_command video_path) in
  if negb (code =? 0) then None
  else
    match json_loads out with
    | Some data =>
        match Py.get data "format" (JDict []) with
        | Some format =>
            match Py.get format "duration" (JFloat 0) with
            | Some value =>
                match Py.to_float value with
                | Some dur => if Qlt_le_dec 0 dur then Some dur else None
                | None => None
                end
            | None => None
            end
        | None => None
        end
    | None => None
    end.

(** The frame rate of the inner [try]:
    [float(num) / float(den) if float(den) != 0 else None], and [None]
    as well where a conversion raises.  The divisor is converted first,
    the dividend only when the divisor is not zero. *)
Definition frame_rate_of (num den : string) : option Q :=
  match Str.to_float den with
  | Ok d =>
      if Qeq_bool d 0 then None
      else match Str.to_float num with
           | Ok n => Some (n / d)%Q
           | Raise _ => None
           end
  | Raise _ => None
  end.

(** [int(x) or None] *)
Definition nonzero (z : Z) : option Z := if z =? 0 then None else Some z.

Definition ffprobe_resolution_fps
    (json_loads : string -> option json)
    (runner : list string -> Z * string * string) (video_path : Path)
    : option Z * option Z * option Q :=
  let absent := (None, None, None) in
  let '(code, out, err) := runner (stream_command video_path) in
  if negb (code =? 0) then absent
  else
    match json_loads out with
    | Some data =>
        match Py.get data "streams" JNull with
        | Some streams =>
            match (if Py.truthy streams then Py.first_item streams
                   else Some (JDict [])) with
            | Some stream =>
                match Py.get stream "width" (JInt 0),
                      Py.get stream "height" (JInt 0),
                      Py.get stream "avg_frame_rate" (JStr "0/0") with
                | Some wv, Some hv, Some fr =>
                    match Py.to_int wv, Py.to_int hv with
                    | Some w, Some h =>
                        let width := nonzero w in
                        let height := nonzero h in
                        if Py.truthy fr then
                          match Py.has_slash fr with
                          | Some true =>
                              match fr with
                              | JStr text =>
                                  match Str.split "/" text with
                                  | [num; den] =>
                                      (width, height, frame_rate_of num den)
                                  | _ => absent
                                  end
                              | _ => absent
                              end
                          | Some false => (width, height, None)
                          | None => absent
                          end
                        else (width, height, None)
                    | _, _ => absent
                    end
                | _, _, _ => absent
                end
            | None => absent
            end
        | None => absent
        end
    | None => absent
    end.

(** ** The allocator and the advisor in double precision

    Where a claim depends on how each arithmetic step rounds, the two
    numeric functions are read over IEEE 754 binary64, the [float] of
    Python.  A finite double is given by its value, a rational of the
    form [m * 2^e]; the two zeros are one value, their sign is not
    observable through the integers and texts these functions return.
    Every operation is the exact operation followed by [round], the
    rounding to the nearest double with ties to the even significand;
    infinities and NaN follow IEEE 754, and the operations that raise
    in Python raise here. *)

Module Double.

Inductive float : Type :=
| Finite (v : Q)
| Inf (negative : bool)
| NaN.

(** [2^e] for an exponent of either sign. *)
Definition pow2 (e : Z) : Q := (2 ^ e)%Q.

(** The [k] with [2^k <= q < 2^(k+1)], for [q > 0]. *)
Definition floor_log2 (q : Q) : Z :=
  let k := Z.log2 (Qnum q) - Z.log2 (Zpos (Qden q)) in
  if Qle_bool (pow2 k) q then k else k - 1.

(** The exponent of the least positive double, and the bound of the
    finite ones. *)
Definition emin : Z := -1074.
Definition emax : Z := 1024.

(** The exponent of the unit in the last place of the doubles around
    [a > 0]: 53 significant bits, and no spacing finer than [2^emin]. *)
Definition ulp_exponent (a : Q) : Z := Z.max (floor_log2 a - 52) emin.

(** The multiple of the unit nearest to [a > 0], ties to the even
    multiple. *)
Definition nearest (a : Q) : Q :=
  let e := ulp_exponent a in
  (inject_Z (Float.round_half_even (a / pow2 e)) * pow2 e)%Q.

Definition is_negative (v : Q) : bool := negb (Qle_bool 0 v).

Definition signed (negative : bool) (a : Q) : Q := if negative then (- a)%Q else a.

(** Rounding to the nearest double, ties to the even significand;
    beyond the range the result is an infinity. *)
Definition round (q : Q) : float :=
  if Qeq_bool q 0 then Finite 0
  else
    let a := nearest (Qabs q) in
    if Qle_bool (pow2 emax) a then Inf (is_negative q)
    else Finite (Qred (signed (is_negative q) a)).

(** The finite doubles are the values [m * 2^e] with [|m| < 2^53] and
    [e >= emin] that stay below [2^emax]; [dyadic] is the first half. *)
Definition dyadic (v : Q) : Prop :=
  exists mant ex : Z,
    v == inject_Z mant * pow2 ex /\ Z.abs mant < 2 ^ 53 /\ emin <= ex.

(** [v] is the value of a double: rounding leaves it alone. *)
Definition representable (v : Q) : bool :=
  match round v with
  | Finite u => Qeq_bool u v
  | _ => false
  end.

(** A float that is a whole number, if it is finite at all. *)
Definition integral (x : float) : Prop :=
  match x with
  | Finite v => exists n, v == inject_Z n
  | _ => True
  end.

Definition zero : float := Finite 0.
Definition one : float := Finite 1.
Definition two : float := Finite 2.

Definition is_zero (x : float) : bool :=
  match x with
  | Finite v => Qeq_bool v 0
  | _ => false
  end.

(** [bool(x)]: every float but zero is true, NaN included. *)
Definition truthy (x : float) : bool := negb (is_zero x).

Definition mul (x y : float) : float :=
  match x, y with
  | NaN, _ | _, NaN => NaN
  | Finite a, Finite b => round (a * b)
  | Inf s, Finite b | Finite b, Inf s =>
      if Qeq_bool b 0 then NaN else Inf (xorb s (is_negative b))
  | Inf s, Inf t => Inf (xorb s t)
  end.

Definition add (x y : float) : float :=
  match x, y with
  | NaN, _ | _, NaN => NaN
  | Finite a, Finite b => round (a + b)
  | Inf s, Finite _ | Finite _, Inf s => Inf s
  | Inf s, Inf t => if Bool.eqb s t then Inf s else NaN
  end.

Definition opp (x : float) : float :=
  match x with
  | Finite v => Finite (- v)
  | Inf s => Inf (negb s)
  | NaN => NaN
  end.

Definition sub (x y : float) : float := add x (opp y).

(** [x / y]: Python raises on a zero divisor, where IEEE 754 gives an
    infinity or NaN. *)
Definition div (x y : float) : result float :=
  if is_zero y then Raise ZeroDivisionError
  else
    Ok match x, y with
       | NaN, _ | _, NaN => NaN
       | Finite a, Finite b => round (a / b)
       | Finite _, Inf _ => Finite 0
       | Inf s, Finite b => Inf (xorb s (is_negative b))
       | Inf _, Inf _ => NaN
       end.

(** [x < y] and [x <= y]; every comparison with NaN is false. *)
Definition lt (x y : float) : bool :=
  match x, y with
  | NaN, _ | _, NaN => false
  | Finite a, Finite b => negb (Qle_bool b a)
  | Finite _, Inf t => negb t
  | Inf s, Finite _ => s
  | Inf s, Inf t => s && negb t
  end.

Definition le (x y : float) : bool :=
  match x, y with
  | NaN, _ | _, NaN => false
  | Finite a, Finite b => Qle_bool a b
  | Finite _, Inf t => negb t
  | Inf s, Finite _ => s
  | Inf s, Inf t => s || negb t
  end.

(** [max(a, b)] and [min(a, b)] of Python: the first argument unless
    the second is strictly beyond it. *)
Definition max (a b : float) : float := if lt a b then b else a.
Definition min (a b : float) : float := if lt b a then b else a.

(** [int(x)]: truncation toward zero; an infinity raises
    [OverflowError], NaN raises [ValueError]. *)
Definition to_int (x : float) : result Z :=
  match x with
  | Finite v => Ok (Float.to_int v)
  | Inf _ => Raise OverflowError
  | NaN => Raise ValueError
  end.

(** The conversion of the [int] operand of a float operation: the
    nearest double, [OverflowError] when that is out of range. *)
Definition of_int (z : Z) : result float :=
  match round (inject_Z z) with
  | Inf _ => Raise OverflowError
  | x => Ok x
  end.

(** A decimal literal of the source: the nearest double. *)
Definition literal (q : Q) : float := round q.

(** The nearest double to the square root of [v > 0]: with [e] the unit
    exponent of the root and [y = v / 4^e], the root of [y] lies between
    the integers [s] and [s + 1] and is compared with [s + 1/2] through
    the squares. *)
Definition round_sqrt (v : Q) : float :=
  if Qeq_bool v 0 then Finite 0
  else
    let e := Z.max (floor_log2 v / 2 - 52) emin in
    let y := (v / pow2 (2 * e))%Q in
    let s := Z.sqrt (Qfloor y) in
    let half := (inject_Z s + (1 # 2))%Q in
    let m :=
      match Qcompare y (half * half) with
      | Lt => s
      | Gt => s + 1
      | Eq => if Z.even s then s else s + 1
      end in
    let r := (inject_Z m * pow2 e)%Q in
    if Qle_bool (pow2 emax) r then Inf false else Finite (Qred r).

(** [math.sqrt(x)]: the correctly rounded root, [ValueError] below
    zero. *)
Definition sqrt (x : float) : result float :=
  match x with
  | NaN => Ok NaN
  | Inf false => Ok (Inf false)
  | Inf true => Raise ValueError
  | Finite v => if is_negative v then Raise ValueError else Ok (round_sqrt v)
  end.

(** C's [fmod] for a divisor that is not zero: the remainder of the
    truncated quotient, which is always a double. *)
Definition fmod (x y : float) : float :=
  match x, y with
  | NaN, _ | _, NaN => NaN
  | Inf _, _ => NaN
  | Finite a, Inf _ => Finite a
  | Finite a, Finite b => round (a - b * inject_Z (Float.to_int (a / b)))
  end.

(** C's [floor]. *)
Definition floor (x : float) : float :=
  match x with
  | Finite v => round (inject_Z (Qfloor v))
  | _ => x
  end.

(** [vx // wx] as the interpreter computes it: from the remainder of
    [fmod], the quotient of [vx - rem] by [wx], lowered by one when the
    remainder and the divisor differ in sign, then snapped to a whole
    number. *)
Definition floordiv (vx wx : float) : result float :=
  if is_zero wx then Raise ZeroDivisionError
  else
    let rem := fmod vx wx in
    do quot <- div (sub vx rem) wx;
    let quot :=
      if truthy rem && negb (Bool.eqb (lt wx zero) (lt rem zero))
      then sub quot one else quot in
    if truthy quot then
      let whole := floor quot in
      Ok (if lt (literal (1 # 2)) (sub quot whole) then add whole one
          else whole)
    else Ok zero.

(** *** [compute_target_bitrates]

    An [int] operand of a float operation is converted first
    ([of_int]); the two [int] products are exact.  Returns
    [(video_kbps, audio_kbps)], in the order of the source. *)
Definition compute_target_bitrates
    (clip_seconds target_size_mb : float)
    (min_audio_kbps max_audio_kbps : Z)
    (container_overhead_ratio : float) : result (Z * Z) :=
  let target_bits :=
    mul (mul (mul (mul target_size_mb (Finite 1024)) (Finite 1024)) (Finite 8))
        container_overhead_ratio in
  do ceiling_rate <- of_int (max_audio_kbps * 1000);
  do floor_rate <- of_int (min_audio_kbps * 1000);
  let audio_bits_guess :=
    max (min (mul target_bits (literal (1 # 10))) (mul ceiling_rate clip_seconds))
        (mul floor_rate clip_seconds) in
  do a <- div audio_bits_guess (Finite 1000);
  do a <- div a clip_seconds;
  do a <- to_int a;
  let audio_kbps := Z.max (Z.min a max_audio_kbps) min_audio_kbps in
  do spent <- of_int (audio_kbps * 1000);
  let video_bits_available :=
    max (sub target_bits (mul spent clip_seconds)) (Finite 1000000) in
  do v <- div video_bits_available (Finite 1000);
  do v <- div v clip_seconds;
  do v <- to_int v;
  let video_kbps := Z.max v 100 in
  Ok (video_kbps, audio_kbps).

(** The allocation as the specification words it, in the same
    arithmetic, over a conversion [rnd] for its [round]; [clamp] is the
    three-way case split. *)
Definition clamp (x lower upper : float) : float :=
  if lt x lower then lower else if lt upper x then upper else x.

(** [round(x)] as the specification reads it: the nearest integer. *)
Definition nearest_int (x : float) : result Z :=
  match x with
  | Finite v => Ok (Float.round_half_up v)
  | Inf _ => Raise OverflowError
  | NaN => Raise ValueError
  end.

Definition allocate_spec (rnd : float -> result Z)
    (clip_seconds target_size_mb : float)
    (min_audio_kbps max_audio_kbps : Z) (overhead_ratio : float)
    : result (Z * Z) :=
  let target_bits := mul (mul target_size_mb (Finite 8388608)) overhead_ratio in
  do lower <- of_int (min_audio_kbps * 1000);
  do upper <- of_int (max_audio_kbps * 1000);
  let audio_bits_guess :=
    clamp (mul target_bits (literal (10 # 100)))
          (mul lower clip_seconds) (mul upper clip_seconds) in
  do per_second <- div audio_bits_guess (Finite 1000);
  do per_second <- div per_second clip_seconds;
  do rounded <- rnd per_second;
  let audio_kbps := clampZ rounded min_audio_kbps max_audio_kbps in
  do spent <- of_int (audio_kbps * 1000);
  let video_bits_available :=
    max (sub target_bits (mul spent clip_seconds)) (Finite 1000000) in
  do per_second <- div video_bits_available (Finite 1000);
  do per_second <- div per_second clip_seconds;
  do rounded <- rnd per_second;
  Ok (Z.max rounded 100, audio_kbps).

(** *** [choose_scaling_for_bitrate] *)

Definition min_bpp : float := literal (6 # 100).

(** [max(160, int((n * scale_factor) // 2 * 2))], the expression of
    the source for either dimension. *)
Definition scaled_dimension (n : Z) (scale_factor : float) : result Z :=
  do fn <- of_int n;
  do q <- floordiv (mul fn scale_factor) two;
  do i <- to_int (mul q two);
  Ok (Z.max 160 i).

(** The body of [choose_scaling_for_bitrate] up to its return value: the
    new dimensions, or [None] where the source returns [None]. *)
Definition scale_plan (width height : option Z) (fps : option float) (video_kbps : Z)
    : result (option (Z * Z)) :=
  match width, height, fps with
  | Some w, Some h, Some f =>
      if (w =? 0) || (h =? 0) || is_zero f || le f zero then Ok None
      else
        do bits <- of_int (video_kbps * 1000);
        do pixels <- of_int (w * h);
        do bits_per_pixel <- div bits (mul pixels f);
        if le min_bpp bits_per_pixel then Ok None
        else
          do ratio <- div bits_per_pixel min_bpp;
          do scale_factor <- sqrt ratio;
          do new_w <- scaled_dimension w scale_factor;
          do new_h <- scaled_dimension h scale_factor;
          if (new_w <? w) && (new_h <? h) then Ok (Some (new_w, new_h))
          else Ok None
  | _, _, _ => Ok None
  end.

(** The steps of the advisor as the specification words them:
    [bits_per_pixel = video_kbps*1000 / (width*height*frame_rate)],
    [scale_factor = sqrt(bits_per_pixel / 0.06)], the product
    [width * scale_factor], and
    [max(160, floor(x / 2) * 2)] of such a product. *)
Definition bits_per_pixel (w h : Z) (f : float) (k : Z) : result float :=
  do bits <- of_int (k * 1000);
  do pixels <- of_int (w * h);
  div bits (mul pixels f).

Definition scale_factor (bpp : float) : result float :=
  do ratio <- div bpp min_bpp;
  sqrt ratio.

Definition scaled (n : Z) (factor : float) : result float :=
  do x <- of_int n;
  Ok (mul x factor).

Definition new_dimension (x : Q) : Z := Z.max 160 (Qfloor (x / 2) * 2).

(** A finite float of magnitude at most [2^n]. *)
Definition within (n : Z) (x : float) : Prop :=
  exists v, x = Finite v /\ (Qabs v <= pow2 n)%Q.

End Double.

(** * Properties *)

(** ** Float primitives *)

Section FloatFacts.

Local Open Scope Q_scope.

Lemma div_ok (a b : Q) : ~ b == 0 -> Float.div a b = Ok (a / b).
Proof.
  intro Hb. unfold Float.div.
  destruct (Qeq_bool b 0) eqn:E; [|reflexivity].
  apply Qeq_bool_iff in E. contradiction.
Qed.

Lemma to_int_comp (x y : Q) : x == y -> Float.to_int x = Float.to_int y.
Proof.
  intro H. unfold Float.to_int. rewrite (Qleb_comp 0 0 (Qeq_refl 0) x y H).
  destruct (Qle_bool 0 y); [apply Qfloor_comp | apply Qceiling_comp]; exact H.
Qed.

Lemma floor_bounds (x : Q) (k : Z) :
  inject_Z k <= x -> x < inject_Z (k + 1) -> Qfloor x = k.
Proof.
  intros Hl Hu.
  pose proof (Qfloor_le x) as H1. pose proof (Qlt_floor x) as H2.
  assert (Ha : inject_Z k < inject_Z (Qfloor x + 1)) by (eapply Qle_lt_trans; eassumption).
  assert (Hb : inject_Z (Qfloor x) < inject_Z (k + 1)) by (eapply Qle_lt_trans; eassumption).
  rewrite <- Zlt_Qlt in Ha, Hb. lia.
Qed.


End FloatFacts.

(** ** Bitrate allocator *)

Section Allocator.

Local Open Scope Q_scope.

Lemma clampZ_max_min (x lo hi : Z) :
  (lo <= hi)%Z -> clampZ x lo hi = Z.max (Z.min x hi) lo.
Proof.
  intro H. unfold clampZ.
  destruct (Z.ltb_spec x lo); [lia|].
  destruct (Z.ltb_spec hi x); lia.
Qed.




End Allocator.

(** ** Time parser and formatter *)

Section StringFacts.

Lemma range_from_spec (n : nat) (from : Z) (f : Z -> bool) :
  range_from n from f = true ->
  forall z : Z, from <= z < from + Z.of_nat n -> f z = true.
Proof.
  revert from. induction n as [|k IH]; intros from H z Hz; [lia|].
  simpl in H. apply andb_true_iff in H. destruct H as [H0 Hk].
  destruct (Z.eq_dec z from) as [->|Hne]; [exact H0|].
  apply (IH (from + 1) Hk). lia.
Qed.

Lemma range_all_spec (n : nat) (f : Z -> bool) :
  range_all n f = true ->
  forall z : Z, 0 <= z < Z.of_nat n -> f z = true.
Proof. intros H z Hz. apply (range_from_spec n 0 f H). lia. Qed.

Lemma two_digits_good :
  range_all 100 (fun n => good_digits 2 n (Str.format_d 2 n)) = true.
Proof. vm_compute. reflexivity. Qed.

Lemma three_digits_good :
  range_all 1000
    (fun n => good_digits 3 n (Str.zero_fill 3 (Str.of_nonneg n))) = true.
Proof. vm_compute. reflexivity. Qed.

Lemma good_digits_inv (n : nat) (v : Z) (t : string) :
  good_digits n v t = true ->
  all_chars Str.is_digit t = true /\ String.length t = n
  /\ Str.digit_run t = Some (v, n).
Proof.
  unfold good_digits. rewrite !andb_true_iff.
  intros [[H1 H2] H3]. apply Nat.eqb_eq in H2.
  repeat split; try assumption.
  destruct (Str.digit_run t) as [[v' c]|]; [|discriminate].
  apply andb_true_iff in H3. destruct H3 as [Hv Hc].
  apply Z.eqb_eq in Hv. apply Nat.eqb_eq in Hc. now subst.
Qed.

(** A decimal digit is none of the characters the parsers look for. *)
Lemma digit_is_plain (c : ascii) :
  Str.is_digit c = true ->
  Str.is_space c = false /\ Ascii.eqb c ":" = false
  /\ Str.is_exponent_mark c = false /\ Str.is_point c = false
  /\ Str.split_sign (String c EmptyString) = (false, String c EmptyString).
Proof.
  destruct c as [[] [] [] [] [] [] [] []]; cbv; intro H;
    first [discriminate H | repeat split].
Qed.

Lemma all_chars_app (p : ascii -> bool) (a b : string) :
  all_chars p (a ++ b) = all_chars p a && all_chars p b.
Proof.
  induction a as [|c a IH]; simpl; [reflexivity|].
  rewrite IH. now rewrite andb_assoc.
Qed.

Lemma all_chars_impl (p q : ascii -> bool) (s : string) :
  (forall c, p c = true -> q c = true) ->
  all_chars p s = true -> all_chars q s = true.
Proof.
  intro Hpq. induction s as [|c r IH]; simpl; [reflexivity|].
  rewrite !andb_true_iff. intros [Hc Hr]. split; [now apply Hpq | now apply IH].
Qed.

Lemma strip_blank_free (s : string) :
  all_chars blank_free s = true -> Str.strip s = s.
Proof.
  intro H. unfold Str.strip.
  assert (Hl : Str.lstrip s = s).
  { destruct s as [|c r]; simpl in *; [reflexivity|].
    apply andb_true_iff in H. destruct H as [H _].
    unfold blank_free in H. apply negb_true_iff in H. now rewrite H. }
  rewrite Hl. clear Hl.
  induction s as [|c r IH]; simpl in *; [reflexivity|].
  apply andb_true_iff in H. destruct H as [Hc Hr].
  unfold blank_free in Hc. apply negb_true_iff in Hc.
  rewrite (IH Hr), Hc. now destruct r.
Qed.

Lemma number_space_is_space (c : ascii) :
  Str.is_number_space c = true -> Str.is_space c = true.
Proof.
  destruct c as [[] [] [] [] [] [] [] []]; vm_compute; intro H;
    (reflexivity || discriminate H).
Qed.

Lemma strip_number_blank_free (s : string) :
  all_chars blank_free s = true -> Str.strip_number s = s.
Proof.
  intro H. unfold Str.strip_number.
  assert (N : forall c, blank_free c = true -> Str.is_number_space c = false).
  { intros c Hc. unfold blank_free in Hc. apply negb_true_iff in Hc.
    destruct (Str.is_number_space c) eqn:E; [|reflexivity].
    apply number_space_is_space in E. congruence. }
  assert (Hl : Str.lstrip_number s = s).
  { destruct s as [|c r]; simpl in *; [reflexivity|].
    apply andb_true_iff in H. destruct H as [H _]. now rewrite (N c H). }
  rewrite Hl. clear Hl.
  induction s as [|c r IH]; simpl in *; [reflexivity|].
  apply andb_true_iff in H. destruct H as [Hc Hr].
  rewrite (IH Hr), (N c Hc). now destruct r.
Qed.

Lemma contains_colon_free (s : string) :
  all_chars colon_free s = true -> Str.contains ":" s = false.
Proof.
  induction s as [|c r IH]; simpl; [reflexivity|].
  rewrite andb_true_iff. intros [Hc Hr].
  unfold colon_free in Hc. apply negb_true_iff in Hc.
  now rewrite Hc, (IH Hr).
Qed.

Lemma contains_app (c : ascii) (a b : string) :
  Str.contains c (a ++ b) = Str.contains c a || Str.contains c b.
Proof.
  induction a as [|d a IH]; simpl; [reflexivity|].
  rewrite IH. now rewrite orb_assoc.
Qed.

Lemma split_absent (c : ascii) (a : string) :
  Str.contains c a = false -> Str.split c a = [a].
Proof.
  induction a as [|d a IH]; simpl; [reflexivity|].
  rewrite orb_false_iff. intros [Hd Ha].
  rewrite Hd, (IH Ha). reflexivity.
Qed.

Lemma split_first (c : ascii) (a b : string) :
  Str.contains c a = false ->
  Str.split c (a ++ String c b) = a :: Str.split c b.
Proof.
  induction a as [|d a IH]; simpl.
  - intros _. now rewrite Ascii.eqb_refl.
  - rewrite orb_false_iff. intros [Hd Ha].
    rewrite Hd, (IH Ha). reflexivity.
Qed.

Lemma break_at_absent (p : ascii -> bool) (s : string) :
  all_chars (fun c => negb (p c)) s = true -> Str.break_at p s = (s, None).
Proof.
  induction s as [|c r IH]; simpl; [reflexivity|].
  rewrite andb_true_iff, negb_true_iff. intros [Hc Hr].
  now rewrite Hc, (IH Hr).
Qed.

Lemma break_at_first (p : ascii -> bool) (a b : string) (c : ascii) :
  all_chars (fun c => negb (p c)) a = true -> p c = true ->
  Str.break_at p (a ++ String c b) = (a, Some b).
Proof.
  intros Ha Hc. induction a as [|d a IH]; simpl in *.
  - now rewrite Hc.
  - apply andb_true_iff in Ha. destruct Ha as [Hd Ha].
    apply negb_true_iff in Hd. now rewrite Hd, (IH Ha).
Qed.

End StringFacts.

Section TimeNumbers.

Local Open Scope Q_scope.

Lemma to_int_inject (k : Z) : Float.to_int (inject_Z k) = k.
Proof.
  unfold Float.to_int.
  destruct (Qle_bool 0 (inject_Z k)); [apply Qfloor_Z | apply Qceiling_Z].
Qed.

Lemma inject_Z_pos (m : Z) : (0 < m)%Z -> 0 < inject_Z m.
Proof. intro H. change 0 with (inject_Z 0). now rewrite <- Zlt_Qlt. Qed.

Lemma floordiv_bounds (x : Q) (m : Z) :
  (0 < m)%Z ->
  inject_Z m * inject_Z (Qfloor (x / inject_Z m)) <= x
  /\ x < inject_Z m * inject_Z (Qfloor (x / inject_Z m)) + inject_Z m.
Proof.
  intro Hm. pose proof (inject_Z_pos m Hm) as Hq.
  set (y := x / inject_Z m).
  assert (Hx : x == inject_Z m * y).
  { unfold y. field. intro E. rewrite E in Hq. discriminate. }
  pose proof (Qfloor_le y) as Hl. pose proof (Qlt_floor y) as Hu.
  rewrite inject_Z_plus in Hu. change (inject_Z 1) with 1 in Hu.
  assert (G1 : inject_Z m * inject_Z (Qfloor y) <= inject_Z m * y)
    by now apply Qmult_le_l.
  assert (G2 : inject_Z m * y < inject_Z m * (inject_Z (Qfloor y) + 1))
    by now apply Qmult_lt_l.
  clearbody y. split; lra.
Qed.

Lemma modulo_bounds (x : Q) (m : Z) :
  (0 < m)%Z -> 0 <= Float.modulo x m /\ Float.modulo x m < inject_Z m.
Proof.
  intro Hm. destruct (floordiv_bounds x m Hm) as [Hl Hu].
  unfold Float.modulo. split; lra.
Qed.

Lemma round_half_even_close (x : Q) :
  Qabs (inject_Z (Float.round_half_even x) - x) <= 1 # 2.
Proof.
  unfold Float.round_half_even.
  pose proof (Qfloor_le x) as Hl. pose proof (Qlt_floor x) as Hu.
  rewrite inject_Z_plus in Hu. change (inject_Z 1) with 1 in Hu.
  apply Qabs_Qle_condition.
  destruct (Qcompare_spec (x - inject_Z (Qfloor x)) (1 # 2)) as [E|E|E].
  - destruct (Z.even (Qfloor x)).
    + split; lra.
    + rewrite inject_Z_plus. change (inject_Z 1) with 1. split; lra.
  - split; lra.
  - rewrite inject_Z_plus. change (inject_Z 1) with 1. split; lra.
Qed.

Lemma time_decompose (s : Q) :
  0 <= s -> s < 360000 ->
  let hours := Float.to_int (Float.floordiv s 3600) in
  let minutes := Float.to_int (Float.floordiv (Float.modulo s 3600) 60) in
  let seconds := Float.modulo s 60 in
  (0 <= hours < 100)%Z /\ (0 <= minutes < 60)%Z
  /\ 0 <= seconds /\ seconds < 60
  /\ s == inject_Z hours * 3600 + inject_Z minutes * 60 + seconds.
Proof.
  intros H0 H1. cbv zeta. unfold Float.floordiv. rewrite !to_int_inject.
  destruct (floordiv_bounds s 3600 eq_refl) as [Ha Hb].
  destruct (modulo_bounds s 3600 eq_refl) as [Hc Hd].
  destruct (floordiv_bounds (Float.modulo s 3600) 60 eq_refl) as [He Hf].
  destruct (modulo_bounds s 60 eq_refl) as [Hg Hh].
  set (h := Qfloor (s / inject_Z 3600)) in *.
  set (m := Qfloor (Float.modulo s 3600 / inject_Z 60)) in *.
  assert (Hmod : Float.modulo s 3600 == s - 3600 * inject_Z h) by reflexivity.
  change (inject_Z 3600) with 3600 in *. change (inject_Z 60) with 60 in *.
  assert (Hh0 : (0 <= h < 100)%Z).
  { split.
    - assert (inject_Z (-1) < inject_Z h) by (change (inject_Z (-1)) with (-1); lra).
      rewrite <- Zlt_Qlt in H. lia.
    - assert (inject_Z h < inject_Z 100) by (change (inject_Z 100) with 100; lra).
      now rewrite <- Zlt_Qlt in H. }
  assert (Hm0 : (0 <= m < 60)%Z).
  { split.
    - assert (inject_Z (-1) < inject_Z m) by (change (inject_Z (-1)) with (-1); lra).
      rewrite <- Zlt_Qlt in H. lia.
    - assert (inject_Z m < inject_Z 60) by (change (inject_Z 60) with 60; lra).
      now rewrite <- Zlt_Qlt in H. }
  assert (Hfl : Qfloor (s / 60) = (60 * h + m)%Z).
  { apply floor_bounds.
    - apply Qle_shift_div_l; [reflexivity|].
      rewrite inject_Z_plus, inject_Z_mult. change (inject_Z 60) with 60. lra.
    - apply Qlt_shift_div_r; [reflexivity|].
      rewrite !inject_Z_plus, inject_Z_mult.
      change (inject_Z 60) with 60. change (inject_Z 1) with 1. lra. }
  repeat split; try lia; try assumption.
  unfold Float.modulo. change (inject_Z 60) with 60. rewrite Hfl.
  rewrite inject_Z_plus, inject_Z_mult. change (inject_Z 60) with 60. ring.
Qed.

End TimeNumbers.

Section TimeRoundTrip.

Local Open Scope Q_scope.

Lemma length_app (a b : string) :
  String.length (a ++ b) = (String.length a + String.length b)%nat.
Proof. induction a as [|c a IH]; simpl; [reflexivity | now rewrite IH]. Qed.

Lemma app_assoc_str (a b c : string) : ((a ++ b) ++ c = a ++ (b ++ c))%string.
Proof. induction a as [|d a IH]; simpl; [reflexivity | now rewrite IH]. Qed.

Lemma zero_fill_app (w n : nat) (a t : string) :
  String.length t = n ->
  Str.zero_fill (w + n) (a ++ t) = (Str.zero_fill w a ++ t)%string.
Proof.
  intro H. unfold Str.zero_fill. rewrite length_app, H, app_assoc_str.
  replace (w + n - (String.length a + n))%nat with (w - String.length a)%nat by lia.
  reflexivity.
Qed.

Lemma split_sign_digit (c : ascii) (r : string) :
  Str.is_digit c = true -> Str.split_sign (String c r) = (false, String c r).
Proof.
  destruct c as [[] [] [] [] [] [] [] []]; intro H;
    first [discriminate H | reflexivity].
Qed.

Lemma digits_blank_free (t : string) :
  all_chars Str.is_digit t = true -> all_chars blank_free t = true.
Proof.
  apply all_chars_impl. intros c H. unfold blank_free.
  destruct (digit_is_plain c H) as (E & _). now rewrite E.
Qed.

Lemma digits_colon_free (t : string) :
  all_chars Str.is_digit t = true -> all_chars colon_free t = true.
Proof.
  apply all_chars_impl. intros c H. unfold colon_free.
  destruct (digit_is_plain c H) as (_ & E & _). now rewrite E.
Qed.

Lemma digits_mark_free (t : string) :
  all_chars Str.is_digit t = true ->
  all_chars (fun c => negb (Str.is_exponent_mark c)) t = true.
Proof.
  apply all_chars_impl. intros c H.
  destruct (digit_is_plain c H) as (_ & _ & E & _). now rewrite E.
Qed.

Lemma digits_point_free (t : string) :
  all_chars Str.is_digit t = true ->
  all_chars (fun c => negb (Str.is_point c)) t = true.
Proof.
  apply all_chars_impl. intros c H.
  destruct (digit_is_plain c H) as (_ & _ & _ & E & _). now rewrite E.
Qed.

(** [float] on "digits.digits". *)
Lemma to_float_fixed (ip fp : string) (iv fv : Z) (ic fc : nat) :
  all_chars Str.is_digit ip = true -> all_chars Str.is_digit fp = true ->
  ic <> 0%nat ->
  Str.digit_run ip = Some (iv, ic) -> Str.digit_run fp = Some (fv, fc) ->
  time_field (ip ++ String "." fp)
    (inject_Z iv + inject_Z fv / inject_Z (10 ^ Z.of_nat fc)).
Proof.
  intros Hi Hf Hc Ei Ef.
  assert (Hne : exists c r, ip = String c r /\ Str.is_digit c = true).
  { destruct ip as [|c r].
    - cbv in Ei. inversion Ei. congruence.
    - simpl in Hi. apply andb_true_iff in Hi. destruct Hi as [Hd _]. eauto. }
  destruct Hne as (c & r & -> & Hd).
  assert (Hb : all_chars blank_free (String c r ++ String "." fp) = true).
  { rewrite all_chars_app. apply andb_true_iff. split.
    - now apply digits_blank_free.
    - simpl. now apply digits_blank_free. }
  repeat split.
  - exact Hb.
  - rewrite all_chars_app. apply andb_true_iff. split.
    + now apply digits_colon_free.
    + simpl. now apply digits_colon_free.
  - simpl. discriminate.
  - unfold Str.to_float. rewrite (strip_number_blank_free _ Hb).
    change (String c r ++ String "." fp)%string
      with (String c (r ++ String "." fp)).
    rewrite (split_sign_digit c _ Hd).
    change (String c (r ++ String "." fp))
      with (String c r ++ String "." fp)%string.
    rewrite break_at_absent.
    2:{ rewrite all_chars_app. apply andb_true_iff. split.
        - now apply digits_mark_free.
        - simpl. now apply digits_mark_free. }
    rewrite break_at_first; [| now apply digits_point_free | reflexivity].
    rewrite Ei, Ef.
    match goal with
    | |- context [Nat.eqb ?a ?b] =>
        destruct (Nat.eqb a b) eqn:E; [apply Nat.eqb_eq in E; lia | reflexivity]
    end.
Qed.

(** [float] on a run of digits. *)
Lemma to_float_digits (t : string) (v : Z) (n : nat) :
  all_chars Str.is_digit t = true -> n <> 0%nat ->
  Str.digit_run t = Some (v, n) ->
  exists q, time_field t q /\ q == inject_Z v.
Proof.
  intros Hi Hn Ei.
  assert (Hne : exists c r, t = String c r /\ Str.is_digit c = true).
  { destruct t as [|c r].
    - cbv in Ei. inversion Ei. congruence.
    - simpl in Hi. apply andb_true_iff in Hi. destruct Hi as [Hd _]. eauto. }
  destruct Hne as (c & r & -> & Hd).
  exists (inject_Z v + inject_Z 0 / inject_Z (10 ^ Z.of_nat 0)). split.
  - repeat split.
    + now apply digits_blank_free.
    + now apply digits_colon_free.
    + simpl. discriminate.
    + unfold Str.to_float. rewrite (strip_number_blank_free _ (digits_blank_free _ Hi)).
      rewrite (split_sign_digit c _ Hd).
      rewrite break_at_absent by now apply digits_mark_free.
      rewrite break_at_absent by now apply digits_point_free.
      rewrite Ei. change (Str.digit_run "") with (Some (0%Z, 0%nat)).
      cbv iota beta.
      match goal with
      | |- context [Nat.eqb ?a ?b] =>
          destruct (Nat.eqb a b) eqn:E; [apply Nat.eqb_eq in E; lia | reflexivity]
      end.
  - change (inject_Z 0 / inject_Z (10 ^ Z.of_nat 0)) with (0 / 1). field.
Qed.

Lemma format_d_field (n : Z) :
  (0 <= n < 100)%Z ->
  exists q, time_field (Str.format_d 2 n) q /\ q == inject_Z n.
Proof.
  intro Hn.
  pose proof (range_all_spec 100 _ two_digits_good n Hn) as G.
  apply good_digits_inv in G. destruct G as (Hd & _ & Er).
  now apply (to_float_digits _ n 2%nat).
Qed.

Lemma format_f_seconds (x : Q) :
  0 <= x -> x < 60 ->
  exists q, time_field (Str.format_f 6 3 x) q /\ Qabs (q - x) <= 1 # 2000.
Proof.
  intros H0 H1. unfold Str.format_f.
  destruct (Qlt_le_dec x 0) as [Hneg|_]; [lra|].
  change (10 ^ Z.of_nat 3)%Z with 1000%Z.
  set (m := Float.round_half_even (Qabs x * inject_Z 1000)).
  pose proof (round_half_even_close (Qabs x * inject_Z 1000)) as Hm.
  fold m in Hm. rewrite (Qabs_pos x H0) in Hm.
  change (inject_Z 1000) with 1000 in Hm.
  apply Qabs_Qle_condition in Hm. destruct Hm as [Hm1 Hm2].
  assert (Hmz : (0 <= m <= 60000)%Z).
  { split.
    - assert (inject_Z (-1) < inject_Z m) by (change (inject_Z (-1)) with (-1); lra).
      rewrite <- Zlt_Qlt in H. lia.
    - assert (inject_Z m < inject_Z 60001) by (change (inject_Z 60001) with 60001; lra).
      rewrite <- Zlt_Qlt in H. lia. }
  assert (Ha : (0 <= m / 1000 < 100)%Z).
  { split; [apply Z.div_pos; lia | apply Z.div_lt_upper_bound; lia]. }
  assert (Hb : (0 <= m mod 1000 < Z.of_nat 1000)%Z).
  { change (Z.of_nat 1000) with 1000%Z. apply Z.mod_pos_bound. lia. }
  pose proof (range_all_spec 100 _ two_digits_good _ Ha) as Ga.
  pose proof (range_all_spec 1000 _ three_digits_good _ Hb) as Gb.
  apply good_digits_inv in Ga, Gb.
  destruct Ga as (Da & _ & Ra). destruct Gb as (Db & Lb & Rb).
  assert (Efmt : Str.format_d 2 (m / 1000) = Str.zero_fill 2 (Str.of_nonneg (m / 1000))).
  { unfold Str.format_d. destruct (Z.ltb_spec (m / 1000) 0); [lia | reflexivity]. }
  rewrite Efmt in Da, Ra.
  change 6%nat with (2 + 4)%nat.
  change ("." ++ Str.zero_fill 3 (Str.of_nonneg (m mod 1000)))%string
    with (String "." (Str.zero_fill 3 (Str.of_nonneg (m mod 1000)))).
  rewrite zero_fill_app by (simpl; now rewrite Lb).
  eexists. split.
  - apply (to_float_fixed _ _ (m / 1000) (m mod 1000) 2 3); auto.
  - change (inject_Z (10 ^ Z.of_nat 3)) with 1000.
    assert (Em : inject_Z m == inject_Z (m / 1000) * 1000 + inject_Z (m mod 1000)).
    { rewrite (Z.div_mod m 1000) at 1 by lia.
      rewrite inject_Z_plus, inject_Z_mult. change (inject_Z 1000) with 1000. ring. }
    apply Qabs_Qle_condition.
    setoid_replace (inject_Z (m / 1000) + inject_Z (m mod 1000) / 1000 - x)
      with ((inject_Z m - x * 1000) / 1000) by (rewrite Em; field).
    split.
    + apply Qle_shift_div_l; [reflexivity | lra].
    + apply Qle_shift_div_r; [reflexivity | lra].
Qed.

End TimeRoundTrip.

Section TimeRoundTripMain.

Local Open Scope Q_scope.

Lemma time_field_strip (t : string) (q : Q) : time_field t q -> Str.strip t = t.
Proof. intros (H & _). now apply strip_blank_free. Qed.

Lemma time_field_split (t : string) (q : Q) :
  time_field t q -> Str.contains ":" t = false.
Proof. intros (_ & H & _). now apply contains_colon_free. Qed.

Lemma joined_blank_free (a b : string) :
  all_chars blank_free a = true -> all_chars blank_free b = true ->
  all_chars blank_free (a ++ String ":" b) = true.
Proof.
  intros Ha Hb. rewrite all_chars_app, Ha. simpl. now rewrite Hb.
Qed.

Lemma parse_joined (text : string) :
  all_chars blank_free text = true -> String.length text <> 0%nat ->
  Str.contains ":" text = true ->
  parse_time_to_seconds text
    = match map Str.strip (Str.split ":" text) with
      | [h; m; s] =>
          do h' <- Str.to_float h;
          do m' <- Str.to_float m;
          do s' <- Str.to_float s;
          Ok (h' * 3600 + m' * 60 + s')
      | [m; s] =>
          do m' <- Str.to_float m;
          do s' <- Str.to_float s;
          Ok (m' * 60 + s')
      | _ => Raise ValueError
      end.
Proof.
  intros Hb Hl Hc. unfold parse_time_to_seconds.
  rewrite (strip_blank_free _ Hb), Hc.
  apply Nat.eqb_neq in Hl. now rewrite Hl.
Qed.

Lemma parse_two_fields (m s : string) (qm qs : Q) :
  time_field m qm -> time_field s qs ->
  parse_time_to_seconds (m ++ ":" ++ s) = Ok (qm * 60 + qs).
Proof.
  intros Hm Hs.
  change (m ++ ":" ++ s)%string with (m ++ String ":" s)%string.
  rewrite parse_joined.
  - rewrite (split_first ":" m s (time_field_split m qm Hm)).
    rewrite (split_absent ":" s (time_field_split s qs Hs)).
    cbn [map]. rewrite (time_field_strip m qm Hm), (time_field_strip s qs Hs).
    destruct Hm as (_ & _ & _ & ->). destruct Hs as (_ & _ & _ & ->).
    reflexivity.
  - destruct Hm as (Hm & _). destruct Hs as (Hs & _). now apply joined_blank_free.
  - rewrite length_app. simpl. lia.
  - rewrite contains_app. simpl. now rewrite orb_true_r.
Qed.

Lemma parse_three_fields (h m s : string) (qh qm qs : Q) :
  time_field h qh -> time_field m qm -> time_field s qs ->
  parse_time_to_seconds (h ++ ":" ++ m ++ ":" ++ s)
    = Ok (qh * 3600 + qm * 60 + qs).
Proof.
  intros Hh Hm Hs.
  change (h ++ ":" ++ m ++ ":" ++ s)%string
    with (h ++ String ":" (m ++ String ":" s))%string.
  rewrite parse_joined.
  - rewrite (split_first ":" h _ (time_field_split h qh Hh)).
    rewrite (split_first ":" m s (time_field_split m qm Hm)).
    rewrite (split_absent ":" s (time_field_split s qs Hs)).
    cbn [map].
    rewrite (time_field_strip h qh Hh), (time_field_strip m qm Hm),
      (time_field_strip s qs Hs).
    destruct Hh as (_ & _ & _ & ->). destruct Hm as (_ & _ & _ & ->).
    destruct Hs as (_ & _ & _ & ->). reflexivity.
  - destruct Hh as (Hh & _). destruct Hm as (Hm & _). destruct Hs as (Hs & _).
    apply joined_blank_free; [assumption|]. now apply joined_blank_free.
  - rewrite length_app. simpl. lia.
  - rewrite contains_app. simpl. now rewrite orb_true_r.
Qed.

(** C3: for every [s] with [0 <= s < 360000] the formatted text parses,
    and to a value within 0.001 s of [s]. *)
Theorem parse_format_round_trip (s : Q) :
  0 <= s -> s < 360000 ->
  exists r,
    parse_time_to_seconds (format_seconds_to_time s) = Ok r
    /\ Qabs (r - s) <= 1 # 1000.
Proof.
  intros H0 H1. unfold format_seconds_to_time.
  destruct (Qlt_le_dec s 0) as [Hneg|_]; [lra|].
  destruct (time_decompose s H0 H1) as (Hh & Hm & Hs0 & Hs1 & Es).
  set (hours := Float.to_int (Float.floordiv s 3600)) in *.
  set (minutes := Float.to_int (Float.floordiv (Float.modulo s 3600) 60)) in *.
  set (seconds := Float.modulo s 60) in *.
  destruct (format_d_field hours Hh) as (qh & Fh & Eh).
  destruct (format_d_field minutes ltac:(lia)) as (qm & Fm & Em).
  destruct (format_f_seconds seconds Hs0 Hs1) as (qs & Fs & Hclose).
  apply Qabs_Qle_condition in Hclose. destruct Hclose as [Hc1 Hc2].
  destruct (Z.ltb_spec 0 hours) as [Hpos|Hzero].
  - exists (qh * 3600 + qm * 60 + qs). split.
    + now apply parse_three_fields.
    + apply Qabs_Qle_condition. rewrite Eh, Em. split; lra.
  - exists (qm * 60 + qs). split.
    + now apply parse_two_fields.
    + assert (E0 : hours = 0%Z) by lia. rewrite E0 in Es.
      change (inject_Z 0) with 0 in Es.
      apply Qabs_Qle_condition. rewrite Em. split; lra.
Qed.

Lemma parse_format_round_trip_witness :
  exists r,
    parse_time_to_seconds (format_seconds_to_time (37235 # 10)) = Ok r
    /\ Qabs (r - (37235 # 10)) <= 1 # 1000.
Proof.
  apply (parse_format_round_trip (37235 # 10)); [discriminate | reflexivity].
Defined.

End TimeRoundTripMain.


(** ** Downscale advisor *)

Section IntegerRoots.

Local Open Scope Q_scope.





End IntegerRoots.

Section Advisor.

Local Open Scope Q_scope.

Lemma pixel_rate_nonzero (w h : Z) (f : Q) :
  w <> 0%Z -> h <> 0%Z -> 0 < f -> ~ inject_Z (w * h) * f == 0.
Proof.
  intros Hw Hh Hf E. apply Qmult_integral in E. destruct E as [E|E].
  - unfold Qeq in E. simpl in E. rewrite Z.mul_1_r in E.
    apply Z.mul_eq_0 in E. tauto.
  - rewrite E in Hf. discriminate.
Qed.

Lemma scale_plan_absent_inputs (width height : option Z) (fps : option Q) (k : Z) :
  width = None \/ width = Some 0%Z \/ height = None \/ height = Some 0%Z
  \/ fps = None \/ (exists f, fps = Some f /\ f <= 0) ->
  scale_plan width height fps k = Ok None.
Proof.
  unfold scale_plan.
  destruct width as [w|], height as [h|], fps as [f|]; try reflexivity.
  intros [H|[H|[H|[H|[H|(f' & H & Hf)]]]]]; try discriminate.
  - inversion H. reflexivity.
  - inversion H. simpl. now rewrite orb_true_r.
  - inversion H. subst f'. apply Qle_bool_iff in Hf. rewrite Hf.
    now rewrite !orb_true_r.
Qed.

(** The advisor past its guard. *)
Lemma scale_plan_present (w h : Z) (f : Q) (k : Z) :
  w <> 0%Z -> h <> 0%Z -> 0 < f ->
  scale_plan (Some w) (Some h) (Some f) k
    = if Qle_bool min_bpp (bits_per_pixel w h f k) then Ok None
      else if Qlt_le_dec (bits_per_pixel w h f k / min_bpp) 0 then Raise ValueError
      else
        let new_w :=
          Z.max 160 (floor_half_mul_sqrt w (bits_per_pixel w h f k / min_bpp) * 2) in
        let new_h :=
          Z.max 160 (floor_half_mul_sqrt h (bits_per_pixel w h f k / min_bpp) * 2) in
        if ((new_w <? w) && (new_h <? h))%Z then Ok (Some (new_w, new_h))
        else Ok None.
Proof.
  intros Hw Hh Hf. unfold scale_plan.
  apply Z.eqb_neq in Hw, Hh. rewrite Hw, Hh.
  assert (E1 : Qeq_bool f 0 = false).
  { destruct (Qeq_bool f 0) eqn:E; [|reflexivity].
    apply Qeq_bool_iff in E. rewrite E in Hf. discriminate. }
  assert (E2 : Qle_bool f 0 = false).
  { destruct (Qle_bool f 0) eqn:E; [|reflexivity].
    apply Qle_bool_iff in E. lra. }
  rewrite E1, E2. cbn [orb].
  apply Z.eqb_neq in Hw, Hh.
  rewrite (div_ok _ _ (pixel_rate_nonzero w h f Hw Hh Hf)). cbn [bind].
  fold (bits_per_pixel w h f k).
  destruct (Qle_bool min_bpp (bits_per_pixel w h f k)); [reflexivity|].
  rewrite div_ok by discriminate. reflexivity.
Qed.

Lemma scale_plan_some (width height : option Z) (fps : option Q) (k a b : Z) :
  scale_plan width height fps k = Ok (Some (a, b)) ->
  exists w h f,
    width = Some w /\ height = Some h /\ fps = Some f /\ 0 < f
    /\ bits_per_pixel w h f k < min_bpp
    /\ 0 <= bits_per_pixel w h f k / min_bpp
    /\ a = Z.max 160 (floor_half_mul_sqrt w (bits_per_pixel w h f k / min_bpp) * 2)
    /\ b = Z.max 160 (floor_half_mul_sqrt h (bits_per_pixel w h f k / min_bpp) * 2)
    /\ (a < w)%Z /\ (b < h)%Z.
Proof.
  intro H.
  destruct width as [w|]; [|discriminate H].
  destruct height as [h|]; [|discriminate H].
  destruct fps as [f|]; [|discriminate H].
  destruct (Z.eq_dec w 0) as [Hw|Hw].
  { rewrite scale_plan_absent_inputs in H; [discriminate H | subst; tauto]. }
  destruct (Z.eq_dec h 0) as [Hh|Hh].
  { rewrite scale_plan_absent_inputs in H; [discriminate H | subst; tauto]. }
  destruct (Qlt_le_dec 0 f) as [Hf|Hf].
  2:{ rewrite scale_plan_absent_inputs in H; [discriminate H|].
      do 5 right. eauto. }
  rewrite (scale_plan_present w h f k Hw Hh Hf) in H.
  destruct (Qle_bool min_bpp (bits_per_pixel w h f k)) eqn:Eb; [discriminate H|].
  destruct (Qlt_le_dec (bits_per_pixel w h f k / min_bpp) 0) as [Hr|Hr];
    [discriminate H|].
  cbv zeta in H.
  destruct ((_ <? w)%Z && (_ <? h)%Z) eqn:Es; [|discriminate H].
  inversion H. subst a b. clear H.
  apply andb_true_iff in Es. destruct Es as [Ea Ec].
  apply Z.ltb_lt in Ea, Ec.
  exists w, h, f. repeat split; try assumption.
  destruct (Qlt_le_dec (bits_per_pixel w h f k) min_bpp) as [Hlt|Hge]; [exact Hlt|].
  apply Qle_bool_iff in Hge. congruence.
Qed.

End Advisor.

Section AdvisorOrder.

Local Open Scope Q_scope.







(** C10: a width or height of zero makes the advisor return absent
    before any division, and no input at all makes it raise a division
    error. *)
Theorem scale_plan_no_zero_division
    (width height : option Z) (fps : option Q) (k : Z) :
  (width = Some 0%Z \/ height = Some 0%Z -> scale_plan width height fps k = Ok None)
  /\ scale_plan width height fps k <> Raise ZeroDivisionError.
Proof.
  split.
  - intro H. apply scale_plan_absent_inputs. tauto.
  - destruct width as [w|]; [|discriminate].
    destruct height as [h|]; [|discriminate].
    destruct fps as [f|]; [|discriminate].
    destruct (Z.eq_dec w 0) as [Hw|Hw].
    { rewrite scale_plan_absent_inputs; [discriminate | subst; tauto]. }
    destruct (Z.eq_dec h 0) as [Hh|Hh].
    { rewrite scale_plan_absent_inputs; [discriminate | subst; tauto]. }
    destruct (Qlt_le_dec 0 f) as [Hf|Hf].
    2:{ rewrite scale_plan_absent_inputs; [discriminate|]. do 5 right. eauto. }
    rewrite scale_plan_present by assumption.
    destruct (Qle_bool _ _); [discriminate|].
    destruct (Qlt_le_dec _ 0); [discriminate|].
    cbv zeta. destruct (_ && _); discriminate.
Qed.

Lemma scale_plan_no_zero_division_witness :
  scale_plan (Some 0%Z) (Some 1080%Z) (Some 30) 300 = Ok None
  /\ scale_plan (Some 0%Z) (Some 1080%Z) (Some 30) 300 <> Raise ZeroDivisionError.
Proof.
  destruct (scale_plan_no_zero_division (Some 0%Z) (Some 1080%Z) (Some 30) 300)
    as [Hzero Hnever].
  split; [apply Hzero; left; reflexivity | exact Hnever].
Defined.

End AdvisorOrder.


(** ** Encode plan builder *)

Section Builder.

Lemma has_option_skip_opt (opt v a : string) (rest : list string) :
  a <> opt -> has_option opt v (a :: rest) = has_option opt v rest.
Proof.
  intro H. apply String.eqb_neq in H.
  destruct rest as [|b r]; simpl; [reflexivity|]. now rewrite H.
Qed.

Lemma has_option_skip_val (opt v a b : string) (r : list string) :
  b <> v -> has_option opt v (a :: b :: r) = has_option opt v (b :: r).
Proof.
  intro H. apply String.eqb_neq in H.
  cbn [has_option]. now rewrite H, andb_false_r.
Qed.

Lemma has_option_here (opt v : string) (r : list string) :
  has_option opt v (opt :: v :: r) = true.
Proof. cbn [has_option]. now rewrite !String.eqb_refl. Qed.

Lemma digits_fuel_length (fuel : nat) (n : Z) (acc : string) :
  (String.length acc <= String.length (Str.digits_fuel fuel n acc))%nat.
Proof.
  revert n acc. induction fuel as [|k IH]; intros n acc; simpl; [lia|].
  destruct (n <? 10).
  - simpl. lia.
  - eapply Nat.le_trans; [|apply IH]. simpl. lia.
Qed.

Lemma of_nonneg_length (n : Z) : (1 <= String.length (Str.of_nonneg n))%nat.
Proof.
  unfold Str.of_nonneg. cbn [Str.digits_fuel].
  destruct (n <? 10); [simpl; lia|].
  eapply Nat.le_trans; [|apply digits_fuel_length]. simpl. lia.
Qed.

Lemma repeat_length (c : ascii) (n : nat) : String.length (Str.repeat c n) = n.
Proof. induction n as [|k IH]; simpl; [reflexivity | now rewrite IH]. Qed.

Lemma zero_fill_length (w : nat) (t : string) :
  (w <= String.length (Str.zero_fill w t)
   /\ String.length t <= String.length (Str.zero_fill w t))%nat.
Proof.
  unfold Str.zero_fill. rewrite length_app, repeat_length. lia.
Qed.

Lemma format_f_length (w : nat) (x : Q) :
  (5 <= String.length (Str.format_f w 3 x))%nat.
Proof.
  unfold Str.format_f.
  set (m := Float.round_half_even _).
  set (body := (Str.of_nonneg (m / 10 ^ Z.of_nat 3) ++ "."
                  ++ Str.zero_fill 3 (Str.of_nonneg (m mod 10 ^ Z.of_nat 3)))%string).
  assert (Hb : (5 <= String.length body)%nat).
  { unfold body. rewrite !length_app.
    pose proof (of_nonneg_length (m / 10 ^ Z.of_nat 3)).
    pose proof (zero_fill_length 3 (Str.of_nonneg (m mod 10 ^ Z.of_nat 3))).
    simpl String.length at 2. lia. }
  destruct (Qlt_le_dec x 0).
  - pose proof (zero_fill_length (w - 1) body). simpl. lia.
  - pose proof (zero_fill_length w body). lia.
Qed.

Lemma format_f_not_short (w : nat) (x : Q) (t : string) :
  (String.length t < 5)%nat -> Str.format_f w 3 x <> t.
Proof.
  intros H E. pose proof (format_f_length w x) as L. rewrite E in L. lia.
Qed.

Lemma null_sink_not_one (os : string) : null_sink os <> "1".
Proof. unfold null_sink. destruct (String.eqb os "nt"); discriminate. Qed.

Lemma logfile_not_short (dst log : Path) :
  PathOps.with_suffix dst ".log" = Ok log -> PathOps.str log <> "-ac".
Proof.
  unfold PathOps.with_suffix. destruct (String.length (name dst) =? 0)%nat; [discriminate|].
  intros H E. inversion H. subst log. clear H.
  apply (f_equal String.length) in E. unfold PathOps.str in E.
  cbn [parent name] in E. rewrite !length_app in E. simpl in E. lia.
Qed.

(** The two lists as built, laid out. *)
Lemma build_two_pass_commands_shape (os : string) (src dst : Path)
    (ss duration : option Q) (vk ak : Z) (filter : option string)
    (p1 p2 : list string) :
  build_two_pass_commands os src dst ss duration vk ak filter = Ok (p1, p2) ->
  exists log vf,
    PathOps.with_suffix dst ".log" = Ok log
    /\ (vf = [] \/ exists f, vf = ["-vf"; f])
    /\ p1 = ["ffmpeg"; "-y"] ++ range_arguments ss duration
              ++ ["-i"; PathOps.str src] ++ vf
              ++ ["-c:v"; "libx264"; "-b:v"; (Str.of_int vk ++ "k")%string;
                  "-pass"; "1"; "-preset"; "medium"; "-pix_fmt"; "yuv420p"; "-an";
                  "-f"; "mp4"; "-passlogfile"; PathOps.str log; null_sink os]
    /\ p2 = ["ffmpeg"; "-y"] ++ range_arguments ss duration
              ++ ["-i"; PathOps.str src] ++ vf
              ++ ["-c:v"; "libx264"; "-b:v"; (Str.of_int vk ++ "k")%string;
                  "-pass"; "2"; "-preset"; "medium"; "-pix_fmt"; "yuv420p";
                  "-c:a"; "aac"; "-b:a"; (Str.of_int ak ++ "k")%string;
                  "-movflags"; "+faststart"; "-passlogfile"; PathOps.str log;
                  PathOps.str dst].
Proof.
  unfold build_two_pass_commands.
  destruct (PathOps.with_suffix dst ".log") as [log|e]; [|discriminate].
  cbn [bind]. intro H. inversion H. clear H.
  exists log. eexists. split; [reflexivity|]. split; [|split].
  2:{ f_equal. f_equal. unfold range_arguments. now destruct ss, duration. }
  2:{ f_equal. f_equal. unfold range_arguments. now destruct ss, duration. }
  destruct filter as [f|]; [|now left].
  destruct (String.length f =? 0)%nat; [now left | right; eauto].
Qed.

End Builder.


Section BuilderClaims.

Ltac differ :=
  first [ discriminate | assumption
        | apply format_f_not_short; simpl; lia ].

Ltac scan_options :=
  repeat first
    [ rewrite has_option_here
    | rewrite has_option_skip_opt by differ
    | rewrite has_option_skip_val by differ ];
  try reflexivity.

Lemma take_until_app (stop : string) (l r : list string) :
  ~ In stop l -> take_until stop (l ++ stop :: r) = l.
Proof.
  induction l as [|a l IH]; simpl; intro H.
  - now rewrite String.eqb_refl.
  - destruct (String.eqb_spec a stop) as [E|_]; [tauto|].
    rewrite IH; [reflexivity | tauto].
Qed.

Lemma range_arguments_plain_but (duration : option Q) (t : string) :
  (String.length t < 5)%nat -> t <> "-t" -> ~ In t (range_arguments None duration).
Proof.
  intros Hl H1 H. unfold range_arguments in H.
  destruct duration as [d|]; cbn [app In] in H; [|contradiction].
  destruct H as [E|[E|[]]]; [congruence|].
  exact (format_f_not_short _ _ _ Hl E).
Qed.

Lemma range_arguments_plain (ss duration : option Q) (t : string) :
  (String.length t < 5)%nat -> t <> "-ss" -> t <> "-t" ->
  ~ In t (range_arguments ss duration).
Proof.
  intros Hl H1 H2 H. unfold range_arguments in H.
  destruct ss as [s|], duration as [d|]; cbn [app In] in H;
    repeat match goal with
      | H : _ \/ _ |- _ => destruct H as [H|H]
      | H : Str.format_f _ _ _ = t |- _ => exact (format_f_not_short _ _ _ Hl H)
      end; try congruence; try contradiction.
Qed.

Lemma range_arguments_flags (ss duration : option Q) :
  (In "-ss" (range_arguments ss duration) <-> ss <> None)
  /\ (In "-t" (range_arguments ss duration) <-> duration <> None)
  /\ (forall s, ss = Some s ->
        has_option "-ss" (Str.format_f 0 3 s) (range_arguments ss duration) = true)
  /\ (forall d, duration = Some d ->
        has_option "-t" (Str.format_f 0 3 d) (range_arguments ss duration) = true).
Proof.
  split; [|split; [|split]].
  - split.
    + intros Hin Hnone. subst ss.
      revert Hin. apply range_arguments_plain_but; [simpl; lia | discriminate].
    + intro Hs. destruct ss as [s|]; [now left | congruence].
  - split.
    + intros Hin Hnone. subst duration.
      unfold range_arguments in Hin. rewrite app_nil_r in Hin.
      destruct ss as [s|]; cbn [In] in Hin; [|contradiction].
      destruct Hin as [E|[E|[]]]; [discriminate E|].
      revert E. apply format_f_not_short. simpl. lia.
    + intro Hd. destruct duration as [d|]; [|congruence].
      unfold range_arguments. apply in_or_app. right. now left.
  - intros s ->. unfold range_arguments. cbn [app]. apply has_option_here.
  - intros d ->. unfold range_arguments.
    destruct ss as [s|]; cbn [app]; scan_options.
Qed.

(** C7, as amended: in both argument lists the [-ss] argument is among
    the input options exactly when a start is supplied, whatever its
    value, and the [-t] argument exactly when a duration is supplied;
    each is followed by its value to three decimals. *)
Theorem range_arguments_when_supplied (os : string) (src dst : Path)
    (ss duration : option Q) (vk ak : Z) (filter : option string)
    (p1 p2 : list string) :
  build_two_pass_commands os src dst ss duration vk ak filter = Ok (p1, p2) ->
  input_options p2 = input_options p1
  /\ (In "-ss" (input_options p1) <-> ss <> None)
  /\ (In "-t" (input_options p1) <-> duration <> None)
  /\ (forall s, ss = Some s ->
        has_option "-ss" (Str.format_f 0 3 s) (input_options p1) = true)
  /\ (forall d, duration = Some d ->
        has_option "-t" (Str.format_f 0 3 d) (input_options p1) = true).
Proof.
  intro H.
  destruct (build_two_pass_commands_shape _ _ _ _ _ _ _ _ _ _ H)
    as (log & vf & _ & _ & -> & ->).
  assert (Hi : ~ In "-i" (range_arguments ss duration)).
  { apply range_arguments_plain; [simpl; lia | discriminate | discriminate]. }
  unfold input_options. cbn [app skipn].
  rewrite !(take_until_app "-i" _ _ Hi).
  split; [reflexivity | apply range_arguments_flags].
Qed.

Lemma range_arguments_when_supplied_witness :
  In "-ss" (input_options
              ["ffmpeg"; "-y"; "-ss"; "0.000"; "-i"; "/videos/holiday.mp4";
               "-c:v"; "libx264"; "-b:v"; "740k"; "-pass"; "1"; "-preset";
               "medium"; "-pix_fmt"; "yuv420p"; "-an"; "-f"; "mp4";
               "-passlogfile"; "/out/clip.log"; "/dev/null"])
  <-> Some 0%Q <> None.
Proof.
  apply (range_arguments_when_supplied "posix" (mkPath "/videos/" "holiday.mp4")
           (mkPath "/out/" "clip.mp4") (Some 0%Q) None 740 82 None _ _ eq_refl).
Defined.

(** C7 as stated fails: a start of exactly 0 is passed on as [-ss 0.000],
    by the builder and by the export handler, whose start field reads
    "0". *)
Lemma start_zero_keeps_ss :
  (exists p1 p2,
     build_two_pass_commands "posix" (mkPath "/videos/" "holiday.mp4")
       (mkPath "/out/" "clip.mp4") (Some 0%Q) (Some 10%Q) 740 82 None
     = Ok (p1, p2)
     /\ has_option "-ss" "0.000" p1 = true /\ has_option "-ss" "0.000" p2 = true)
  /\ parse_time_to_seconds (start_var (sample_env 0 0 "" "" None)) = Ok 0%Q
  /\ map (has_option "-ss" "0.000")
       (commands_run (fst (on_export (sample_env 0 0 "" "" None))))
     = [true; true].
Proof.
  split; [|split].
  - eexists _, _. split; [reflexivity|]. split; reflexivity.
  - reflexivity.
  - vm_compute. reflexivity.
Qed.

(** C6, as amended: the mono-downmix option [-ac 1] is in the pass-2
    argument list exactly when [audio_kbps <= 64], there just before the
    output path; the pass-1 list, which encodes no audio ([-an]), never
    has it. *)
Theorem mono_downmix_in_pass2_only (os : string) (src dst : Path)
    (start_s clip_seconds : Q) (vk ak : Z) (filter : option string)
    (p1 p2 : list string) :
  export_commands os src dst start_s clip_seconds vk ak filter = Ok (p1, p2) ->
  has_option "-ac" "1" p1 = false
  /\ In "-an" p1
  /\ has_option "-ac" "1" p2 = (ak <=? 64)
  /\ (ak <= 64 -> exists front, p2 = front ++ ["-ac"; "1"; PathOps.str dst]).
Proof.
  unfold export_commands.
  destruct (build_two_pass_commands os src dst (Some start_s) (Some clip_seconds)
              vk ak filter) as [[q1 q2]|e] eqn:Eb; [|discriminate].
  cbn [bind]. intro H. inversion H. subst p1. clear H.
  destruct (build_two_pass_commands_shape _ _ _ _ _ _ _ _ _ _ Eb)
    as (log & vf & Hlog & Hvf & -> & ->).
  pose proof (logfile_not_short dst log Hlog) as Hl.
  pose proof (null_sink_not_one os) as Hn.
  unfold range_arguments. cbn [app].
  split; [|split; [|split]].
  - destruct Hvf as [->|(f & ->)]; cbn [app]; scan_options.
  - destruct Hvf as [->|(f & ->)]; cbn [app In]; tauto.
  - destruct (Z.leb_spec ak 64) as [Hle|Hgt].
    + destruct Hvf as [->|(f & ->)]; cbn [app];
        cbn [insert_before_last List.length Nat.sub firstn skipn app];
        scan_options.
    + destruct Hvf as [->|(f & ->)]; cbn [app]; scan_options.
  - intro Hle. apply Z.leb_le in Hle. rewrite Hle.
    destruct Hvf as [->|(f & ->)]; cbn [app];
      cbn [insert_before_last List.length Nat.sub firstn skipn app];
      eexists; repeat (rewrite app_comm_cons || idtac);
      match goal with
      | |- ?l = _ =>
          let n := eval cbv in (List.length l - 3)%nat in
          rewrite <- (firstn_skipn n l) at 1
      end; cbn [firstn skipn]; reflexivity.
Qed.

Lemma mono_downmix_in_pass2_only_witness :
  has_option "-ac" "1"
    ["ffmpeg"; "-y"; "-ss"; "0.000"; "-t"; "20.000"; "-i"; "/videos/holiday.mp4";
     "-c:v"; "libx264"; "-b:v"; "350k"; "-pass"; "1"; "-preset"; "medium";
     "-pix_fmt"; "yuv420p"; "-an"; "-f"; "mp4"; "-passlogfile"; "/out/clip.log";
     "/dev/null"] = false.
Proof.
  apply (mono_downmix_in_pass2_only "posix" (mkPath "/videos/" "holiday.mp4")
           (mkPath "/out/" "clip.mp4") 0 20 350 48 None _ _ eq_refl).
Defined.

(** C6 as stated fails: at 48 kbit/s of audio the pass-1 list has no
    mono-downmix option; only the pass-2 list gets one. *)
Lemma pass1_without_mono_downmix :
  exists p1 p2,
    export_commands "posix" (mkPath "/videos/" "holiday.mp4")
      (mkPath "/out/" "clip.mp4") 0 20 350 48 None = Ok (p1, p2)
    /\ (48 <=? 64) = true
    /\ has_option "-ac" "1" p1 = false /\ ~ In "-ac" p1
    /\ has_option "-ac" "1" p2 = true.
Proof.
  eexists _, _. split; [vm_compute; reflexivity|]. split; [reflexivity|].
  split; [reflexivity|]. split; [|reflexivity].
  cbn [In]. intro H.
  repeat (destruct H as [H|H]; [discriminate H|]). exact H.
Qed.

End BuilderClaims.

(** ** Export handler *)

Section Orchestrator.

Lemma commands_run_app (a b : list event) :
  commands_run (a ++ b) = commands_run a ++ commands_run b.
Proof. apply flat_map_app. Qed.

Lemma notes_shown_app (a b : list event) :
  notes_shown (a ++ b) = notes_shown a ++ notes_shown b.
Proof. apply flat_map_app. Qed.

Lemma errors_shown_app (a b : list event) :
  errors_shown (a ++ b) = errors_shown a ++ errors_shown b.
Proof. apply flat_map_app. Qed.

Lemma statuses_app (a b : list event) :
  statuses (a ++ b) = statuses a ++ statuses b.
Proof. apply flat_map_app. Qed.

Lemma planning_bind {A : Type} (m : M A) (k : A -> M (option ExportPlan)) :
  commands_run (fst m) = [] -> notes_shown (fst m) = [] ->
  errors_shown (fst m) = [] ->
  (forall a, planning_trace (k a)) ->
  planning_trace (bindM m k).
Proof.
  destruct m as [evs [a|e]]; cbn [fst snd bindM]; intros Hc Hn He Hk.
  - destruct (Hk a) as (Kc & Kn & Ke). destruct (k a) as [evs' r'].
    cbn [fst snd] in *. unfold planning_trace. cbn [fst snd].
    rewrite commands_run_app, notes_shown_app, errors_shown_app.
    rewrite Hc, Hn, He, Kc, Kn. repeat split. intros plan E. now apply (Ke plan).
  - unfold planning_trace. cbn [fst snd].
    repeat split; try assumption. intros plan E. discriminate E.
Qed.

Lemma planning_stop (title message : string) :
  planning_trace (emit (ShowError title message);; ret None).
Proof. repeat split. intros plan E. discriminate E. Qed.

Ltac walk_plan :=
  repeat match goal with
    | |- planning_trace (bindM (emit (ShowError _ _)) _) => apply planning_stop
    | |- planning_trace (bindM _ _) =>
        apply planning_bind; [reflexivity | reflexivity | reflexivity | intros]
    | |- planning_trace (ret _) => repeat split
    | |- planning_trace (if ?c then _ else _) => destruct c
    | |- planning_trace (match ?x with _ => _ end) => destruct x
    end.

(** Before the first transcoder run nothing is run and no note is shown;
    when a plan comes out, no error was shown either. *)
Lemma plan_export_quiet (env : Env) : planning_trace (plan_export env).
Proof. unfold plan_export. walk_plan. Qed.

Lemma on_export_after_plan (env : Env) (pre : list event) (plan : ExportPlan) :
  plan_export env = (pre, Ok (Some plan)) ->
  on_export env = (pre ++ fst (run_export env plan), snd (run_export env plan)).
Proof.
  intro H. unfold on_export, bindM. rewrite H. now destruct (run_export env plan).
Qed.

Lemma run_export_pass1_failure (env : Env) (plan : ExportPlan)
    (code1 : Z) (out1 err1 : string) :
  run_command env (pass1 plan) = (code1, out1, err1) -> code1 <> 0 ->
  run_export env plan
    = ([RunCommand (pass1 plan);
        ShowError "ffmpeg error (pass 1)" (str_or err1 out1)], Ok tt).
Proof.
  intros H Hc. unfold run_export. rewrite H.
  apply Z.eqb_neq in Hc. rewrite Hc. reflexivity.
Qed.

Lemma run_export_both_pass (env : Env) (plan : ExportPlan)
    (out1 err1 out2 err2 : string) :
  run_command env (pass1 plan) = (0, out1, err1) ->
  run_command env (pass2 plan) = (0, out2, err2) ->
  run_export env plan
    = ([RunCommand (pass1 plan); RunCommand (pass2 plan)]
         ++ clean_pass_logs env (plan_dst plan) [".log"; ".log.mbtree"]
         ++ validate_size env plan, Ok tt).
Proof.
  intros H1 H2. unfold run_export. rewrite H1, H2. reflexivity.
Qed.

Lemma clean_pass_logs_silent (env : Env) (dst : Path) (exts : list string) :
  commands_run (clean_pass_logs env dst exts) = []
  /\ errors_shown (clean_pass_logs env dst exts) = []
  /\ notes_shown (clean_pass_logs env dst exts) = []
  /\ statuses (clean_pass_logs env dst exts) = [].
Proof.
  induction exts as [|ext rest IH]; cbn [clean_pass_logs]; [now repeat split|].
  destruct (PathOps.with_suffix dst ext) as [p|e]; [|now repeat split].
  destruct IH as (Ic & Ie & In_ & Is).
  rewrite commands_run_app, errors_shown_app, notes_shown_app, statuses_app.
  rewrite Ic, Ie, In_, Is.
  destruct (file_exists env (PathOps.str p)); now repeat split.
Qed.

(** C8, as amended: when the first transcoder run exits with a non-zero
    code the handler reports the failure and stops, so the pass-2 command
    is never run; the detail it shows is the captured error stream, or the
    captured standard output when the error stream is empty. *)
Theorem pass1_failure_stops_export (env : Env) (pre : list event)
    (plan : ExportPlan) (code1 : Z) (out1 err1 : string) :
  plan_export env = (pre, Ok (Some plan)) ->
  run_command env (pass1 plan) = (code1, out1, err1) -> code1 <> 0 ->
  on_export env
    = (pre ++ [RunCommand (pass1 plan);
               ShowError "ffmpeg error (pass 1)" (str_or err1 out1)], Ok tt)
  /\ commands_run (fst (on_export env)) = [pass1 plan]
  /\ errors_shown (fst (on_export env))
     = [("ffmpeg error (pass 1)", str_or err1 out1)]
  /\ (err1 <> "" -> str_or err1 out1 = err1)
  /\ (err1 = "" -> str_or err1 out1 = out1).
Proof.
  intros Hp Hr Hc.
  pose proof (plan_export_quiet env) as (Qc & _ & Qe).
  rewrite Hp in Qc, Qe. cbn [fst snd] in Qc, Qe. specialize (Qe plan eq_refl).
  rewrite (on_export_after_plan env pre plan Hp).
  rewrite (run_export_pass1_failure env plan code1 out1 err1 Hr Hc).
  cbn [fst snd]. rewrite commands_run_app, errors_shown_app, Qc, Qe.
  repeat split.
  - intro Hne. unfold str_or. destruct err1; [congruence | reflexivity].
  - intros ->. reflexivity.
Qed.

Lemma pass1_failure_stops_export_witness :
  commands_run (fst (on_export (sample_env 1 0 "" "Unknown encoder" None)))
  = [["ffmpeg"; "-y"; "-ss"; "0.000"; "-t"; "10.000"; "-i"; "/videos/holiday.mp4";
      "-vf"; "scale=854:480:flags=lanczos"; "-c:v"; "libx264"; "-b:v"; "740k";
      "-pass"; "1"; "-preset"; "medium"; "-pix_fmt"; "yuv420p"; "-an"; "-f";
      "mp4"; "-passlogfile"; "/home/u/Downloads/holiday_trim_0-10_1MB.log";
      "/dev/null"]].
Proof.
  refine (proj1 (proj2 (pass1_failure_stops_export
            (sample_env 1 0 "" "Unknown encoder" None) _
            (mkPlan _ _ _ _ _ _) 1 "" "Unknown encoder" _ _ _))).
  - vm_compute. reflexivity.
  - reflexivity.
  - discriminate.
Defined.

(** C8 as stated fails: with an empty error stream the detail shown is
    the captured standard output, not the error stream. *)
Lemma pass1_failure_shows_stdout :
  exists pre plan,
    plan_export (sample_env 1 0 "Conversion failed!" "" None) = (pre, Ok (Some plan))
    /\ run_command (sample_env 1 0 "Conversion failed!" "" None) (pass1 plan)
       = (1, "Conversion failed!", "")
    /\ errors_shown (fst (on_export (sample_env 1 0 "Conversion failed!" "" None)))
       = [("ffmpeg error (pass 1)", "Conversion failed!")]
    /\ "Conversion failed!" <> "".
Proof.
  eexists _, _. split; [vm_compute; reflexivity|].
  split; [reflexivity|]. split; [vm_compute; reflexivity | discriminate].
Qed.

Lemma size_deviation_ratio (actual target_bytes : Z) :
  exists q,
    size_deviation actual target_bytes = Ok q
    /\ (q == deviation_ratio actual target_bytes)%Q.
Proof.
  unfold size_deviation, deviation_ratio.
  assert (Hm : (inject_Z (Z.max target_bytes 1) == Qmax (inject_Z target_bytes) 1)%Q).
  { destruct (Z.max_spec target_bytes 1) as [[Hlt ->]|[Hle ->]].
    - symmetry. apply Q.max_r. change 1%Q with (inject_Z 1). rewrite <- Zle_Qle. lia.
    - symmetry. apply Q.max_l. change 1%Q with (inject_Z 1). now rewrite <- Zle_Qle. }
  assert (Hpos : (0 < inject_Z (Z.max target_bytes 1))%Q) by (apply inject_Z_pos; lia).
  rewrite div_ok by (intro E; rewrite E in Hpos; discriminate).
  eexists. split; [reflexivity|].
  rewrite <- Hm.
  assert (Ha : (inject_Z (Z.abs (actual - target_bytes))
                == Qabs (inject_Z actual - inject_Z target_bytes))%Q).
  { unfold Qminus. rewrite <- inject_Z_opp, <- inject_Z_plus. reflexivity. }
  now rewrite Ha.
Qed.

(** C9: when the second transcoder run exits with code 0 the export
    ends without any error report, whatever the size of the output; the
    size note is shown if and only if
    [|actual - target_bytes| / max(target_bytes, 1) > 0.08], so an output
    of exactly [target_bytes] gets none. *)
Theorem pass2_success_validates (env : Env) (pre : list event)
    (plan : ExportPlan) (out1 err1 out2 err2 : string) :
  plan_export env = (pre, Ok (Some plan)) ->
  run_command env (pass1 plan) = (0, out1, err1) ->
  run_command env (pass2 plan) = (0, out2, err2) ->
  snd (on_export env) = Ok tt
  /\ errors_shown (fst (on_export env)) = []
  /\ commands_run (fst (on_export env)) = [pass1 plan; pass2 plan]
  /\ (forall actual, stat_size env = Some actual ->
        let target_bytes := Float.to_int (plan_target_mb plan * 1024 * 1024)%Q in
        last (statuses (fst (on_export env))) ""
          = ("Done: " ++ name (plan_dst plan) ++ " ("
               ++ human_readable_size actual ++ ")")%string
        /\ (In ("Note", size_note) (notes_shown (fst (on_export env)))
            <-> (8 # 100 < deviation_ratio actual target_bytes)%Q)
        /\ ((deviation_ratio actual target_bytes <= 8 # 100)%Q ->
            notes_shown (fst (on_export env)) = [])
        /\ (actual = target_bytes -> notes_shown (fst (on_export env)) = []))
  /\ (stat_size env = None ->
        last (statuses (fst (on_export env))) "" = "Done"
        /\ notes_shown (fst (on_export env)) = []).
Proof.
  intros Hp H1 H2.
  pose proof (plan_export_quiet env) as (Qc & Qn & Qe).
  rewrite Hp in Qc, Qn, Qe. cbn [fst snd] in Qc, Qn, Qe. specialize (Qe plan eq_refl).
  destruct (clean_pass_logs_silent env (plan_dst plan) [".log"; ".log.mbtree"])
    as (Cc & Ce & Cn & Cs).
  rewrite (on_export_after_plan env pre plan Hp).
  rewrite (run_export_both_pass env plan out1 err1 out2 err2 H1 H2).
  cbn [fst snd].
  rewrite !commands_run_app, !errors_shown_app, !notes_shown_app, !statuses_app.
  rewrite Qc, Qe, Qn, Cc, Ce, Cn, Cs. cbn [app].
  unfold validate_size.
  split; [reflexivity|].
  destruct (stat_size env) as [size|].
  - destruct (size_deviation_ratio size
               (Float.to_int (plan_target_mb plan * 1024 * 1024)%Q)) as (q & Eq & Hq).
    rewrite Eq.
    destruct (Qlt_le_dec (8 # 100) q) as [Hbig|Hsmall];
      cbn [errors_shown commands_run notes_shown statuses flat_map app];
      (split; [reflexivity|]); (split; [reflexivity|]);
      (split; [|intro E; discriminate E]);
      intros actual Ea; inversion Ea; subst actual; clear Ea; cbv zeta;
      (split; [apply last_last|]).
    + split; [|split].
      * split; [intros _; now rewrite <- Hq | intros _; now left].
      * intro Hle. rewrite <- Hq in Hle. exfalso. exact (Qlt_not_le _ _ Hbig Hle).
      * intro Eeq. exfalso. rewrite Hq in Hbig. unfold deviation_ratio in Hbig.
        rewrite Eeq in Hbig.
        setoid_replace
          (inject_Z (Float.to_int (plan_target_mb plan * 1024 * 1024)%Q)
           - inject_Z (Float.to_int (plan_target_mb plan * 1024 * 1024)%Q))%Q
          with 0%Q in Hbig by ring.
        discriminate Hbig.
    + split; [|split].
      * split; [intros [] | intro Hbig; rewrite <- Hq in Hbig; exfalso;
                            exact (Qlt_not_le _ _ Hbig Hsmall)].
      * reflexivity.
      * reflexivity.
  - cbn [errors_shown commands_run notes_shown statuses flat_map app].
    split; [reflexivity|]. split; [reflexivity|].
    split; [intros actual E; discriminate E|].
    intros _. split; [apply last_last | reflexivity].
Qed.

Lemma pass2_success_validates_witness :
  errors_shown (fst (on_export (sample_env 0 0 "" "" (Some 1048576)))) = []
  /\ last (statuses (fst (on_export (sample_env 0 0 "" "" (Some 1048576))))) ""
     = "Done: holiday_trim_0-10_1MB.mp4 (1.00 MB)"
  /\ notes_shown (fst (on_export (sample_env 0 0 "" "" (Some 1048576)))) = [].
Proof.
  assert (Hp : plan_export (sample_env 0 0 "" "" (Some 1048576))
               = (fst (plan_export (sample_env 0 0 "" "" (Some 1048576))),
                  Ok (Some (mkPlan
                    ["ffmpeg"; "-y"; "-ss"; "0.000"; "-t"; "10.000"; "-i";
                     "/videos/holiday.mp4"; "-vf"; "scale=854:480:flags=lanczos";
                     "-c:v"; "libx264"; "-b:v"; "740k"; "-pass"; "1"; "-preset";
                     "medium"; "-pix_fmt"; "yuv420p"; "-an"; "-f"; "mp4";
                     "-passlogfile"; "/home/u/Downloads/holiday_trim_0-10_1MB.log";
                     "/dev/null"]
                    ["ffmpeg"; "-y"; "-ss"; "0.000"; "-t"; "10.000"; "-i";
                     "/videos/holiday.mp4"; "-vf"; "scale=854:480:flags=lanczos";
                     "-c:v"; "libx264"; "-b:v"; "740k"; "-pass"; "2"; "-preset";
                     "medium"; "-pix_fmt"; "yuv420p"; "-c:a"; "aac"; "-b:a"; "82k";
                     "-movflags"; "+faststart"; "-passlogfile";
                     "/home/u/Downloads/holiday_trim_0-10_1MB.log";
                     "/home/u/Downloads/holiday_trim_0-10_1MB.mp4"]
                    (mkPath "/home/u/Downloads/" "holiday_trim_0-10_1MB.mp4")
                    1 740 82)))) by (vm_compute; reflexivity).
  destruct (pass2_success_validates _ _ _ "" "" "" "frame= 300" Hp eq_refl eq_refl)
    as (_ & He & _ & Hsize & _).
  destruct (Hsize 1048576 eq_refl) as (Hdone & _ & _ & Hexact).
  split; [exact He|]. split; [exact Hdone | apply Hexact; reflexivity].
Defined.

End Orchestrator.


(** * Further properties *)

(** ** Time parser and formatter: edge behaviour *)

Section TimeEdges.

Local Open Scope Q_scope.

Lemma lstrip_all_space (t : string) :
  all_chars Str.is_space t = true -> Str.lstrip t = EmptyString.
Proof.
  induction t as [|c r IH]; simpl; [reflexivity|].
  rewrite andb_true_iff. intros [Hc Hr]. rewrite Hc. now apply IH.
Qed.

(** A text of nothing but white space reads as zero seconds: blank is
    "unset", not an error. *)
Theorem parse_blank_is_zero (text : string) :
  all_chars Str.is_space text = true -> parse_time_to_seconds text = Ok 0.
Proof.
  intro H. unfold parse_time_to_seconds, Str.strip.
  rewrite (lstrip_all_space text H). reflexivity.
Qed.

Lemma parse_blank_is_zero_witness :
  parse_time_to_seconds (String " " (String "009" (String " " EmptyString))) = Ok 0.
Proof. apply parse_blank_is_zero. reflexivity. Defined.

Lemma split_length (c : ascii) (t : string) :
  List.length (Str.split c t) = S (count_char c t).
Proof.
  induction t as [|d r IH]; simpl; [reflexivity|].
  destruct (Ascii.eqb d c); simpl.
  - now rewrite IH.
  - destruct (Str.split c r) as [|h tl]; simpl in *; [discriminate IH | exact IH].
Qed.

Lemma contains_count (c : ascii) (t : string) :
  (0 < count_char c t)%nat -> Str.contains c t = true.
Proof.
  induction t as [|d r IH]; simpl; [lia|].
  destruct (Ascii.eqb d c); simpl; [reflexivity | exact IH].
Qed.

(** More than two colons are refused: a text whose stripped form has
    three or more colons raises [ValueError], whatever its fields. *)
Theorem parse_too_many_fields (text : string) :
  (3 <= count_char ":" (Str.strip text))%nat ->
  parse_time_to_seconds text = Raise ValueError.
Proof.
  intro H. unfold parse_time_to_seconds.
  set (v := Str.strip text) in *.
  assert (Hlen : String.length v <> 0%nat).
  { destruct v; simpl in *; [lia | discriminate]. }
  apply Nat.eqb_neq in Hlen. rewrite Hlen.
  rewrite contains_count by lia.
  pose proof (split_length ":" v) as L.
  assert (L' : (4 <= List.length (map Str.strip (Str.split ":" v)))%nat)
    by (rewrite length_map; lia).
  destruct (map Str.strip (Str.split ":" v)) as [|a [|b [|c [|d l]]]];
    simpl in L'; try lia. reflexivity.
Qed.

Lemma parse_too_many_fields_witness :
  parse_time_to_seconds "1:02:03:04" = Raise ValueError.
Proof. apply parse_too_many_fields. vm_compute. lia. Defined.

Lemma round_half_even_comp (x y : Q) :
  x == y -> Float.round_half_even x = Float.round_half_even y.
Proof.
  intro E. unfold Float.round_half_even.
  rewrite (Qfloor_comp x y E).
  assert (E' : x - inject_Z (Qfloor y) == y - inject_Z (Qfloor y)) by now rewrite E.
  now rewrite (Qcompare_comp _ _ E' (1 # 2) (1 # 2) (Qeq_refl _)).
Qed.

(** The seconds field in parts: the rounded number of milliseconds and
    the two digit groups printed from it. *)
Lemma format_f_seconds_parts (x : Q) :
  0 <= x -> x < 60 ->
  exists m,
    m = Float.round_half_even (x * 1000)
    /\ (0 <= m <= 60000)%Z
    /\ Str.format_f 6 3 x
       = (Str.format_d 2 (m / 1000)
            ++ String "." (Str.zero_fill 3 (Str.of_nonneg (m mod 1000))))%string.
Proof.
  intros H0 H1. unfold Str.format_f.
  destruct (Qlt_le_dec x 0) as [Hneg|_]; [lra|].
  change (10 ^ Z.of_nat 3)%Z with 1000%Z.
  assert (Em : Float.round_half_even (Qabs x * inject_Z 1000)
               = Float.round_half_even (x * 1000)).
  { apply round_half_even_comp. rewrite (Qabs_pos x H0). reflexivity. }
  rewrite Em. set (m := Float.round_half_even (x * 1000)).
  pose proof (round_half_even_close (x * 1000)) as Hm. fold m in Hm.
  apply Qabs_Qle_condition in Hm. destruct Hm as [Hm1 Hm2].
  assert (Hmz : (0 <= m <= 60000)%Z).
  { split.
    - assert (inject_Z (-1) < inject_Z m) by (change (inject_Z (-1)) with (-1); lra).
      rewrite <- Zlt_Qlt in H. lia.
    - assert (inject_Z m < inject_Z 60001) by (change (inject_Z 60001) with 60001; lra).
      rewrite <- Zlt_Qlt in H. lia. }
  exists m. split; [reflexivity|]. split; [exact Hmz|].
  assert (Hb : (0 <= m mod 1000 < Z.of_nat 1000)%Z).
  { change (Z.of_nat 1000) with 1000%Z. apply Z.mod_pos_bound. lia. }
  pose proof (range_all_spec 1000 _ three_digits_good _ Hb) as Gb.
  apply good_digits_inv in Gb. destruct Gb as (_ & Lb & _).
  assert (Efmt : Str.format_d 2 (m / 1000) = Str.zero_fill 2 (Str.of_nonneg (m / 1000))).
  { unfold Str.format_d.
    destruct (Z.ltb_spec (m / 1000) 0) as [Hlt|_]; [|reflexivity].
    pose proof (Z.div_pos m 1000). lia. }
  rewrite Efmt.
  change 6%nat with (2 + 4)%nat.
  change ("." ++ Str.zero_fill 3 (Str.of_nonneg (m mod 1000)))%string
    with (String "." (Str.zero_fill 3 (Str.of_nonneg (m mod 1000)))).
  apply zero_fill_app. simpl. now rewrite Lb.
Qed.

Lemma matches_shape_app (p1 p2 t1 t2 : string) :
  matches_shape p1 t1 = true -> matches_shape p2 t2 = true ->
  matches_shape (p1 ++ p2) (t1 ++ t2) = true.
Proof.
  revert t1. induction p1 as [|p ps IH]; intros [|t ts]; simpl; try discriminate.
  - auto.
  - rewrite !andb_true_iff. intros [Hc Hr] H2. split; [exact Hc | now apply IH].
Qed.

Lemma matches_shape_digits (n : nat) (t : string) :
  all_chars Str.is_digit t = true -> String.length t = n ->
  matches_shape (Str.repeat "d" n) t = true.
Proof.
  revert t. induction n as [|k IH]; intros [|c r]; simpl; try discriminate.
  - reflexivity.
  - rewrite andb_true_iff. intros [Hc Hr] Hl. rewrite Hc. apply IH; [exact Hr | lia].
Qed.

Lemma format_d_shape (n : Z) :
  (0 <= n < 100)%Z -> matches_shape "dd" (Str.format_d 2 n) = true.
Proof.
  intro Hn.
  pose proof (range_all_spec 100 _ two_digits_good n Hn) as G.
  apply good_digits_inv in G. destruct G as (Hd & Hl & _).
  now apply (matches_shape_digits 2).
Qed.

Lemma format_f_seconds_shape (x : Q) :
  0 <= x -> x < 60 -> matches_shape "dd.ddd" (Str.format_f 6 3 x) = true.
Proof.
  intros H0 H1.
  destruct (format_f_seconds_parts x H0 H1) as (m & _ & Hm & ->).
  assert (Ha : (0 <= m / 1000 < 100)%Z).
  { split; [apply Z.div_pos; lia | apply Z.div_lt_upper_bound; lia]. }
  assert (Hb : (0 <= m mod 1000 < Z.of_nat 1000)%Z).
  { change (Z.of_nat 1000) with 1000%Z. apply Z.mod_pos_bound. lia. }
  pose proof (range_all_spec 1000 _ three_digits_good _ Hb) as Gb.
  apply good_digits_inv in Gb. destruct Gb as (Db & Lb & _).
  apply (matches_shape_app "dd" ".ddd"); [now apply format_d_shape|].
  simpl. now apply (matches_shape_digits 3).
Qed.

(** The layout of a formatted time: a negative value prints as zero;
    below one hour the text is MM:SS.mmm, from one hour up to a hundred
    hours it is HH:MM:SS.mmm, every field zero-filled. *)
Theorem format_seconds_layout (s : Q) :
  (s < 0 -> format_seconds_to_time s = "00:00.000")
  /\ (0 <= s -> s < 3600 ->
      matches_shape "dd:dd.ddd" (format_seconds_to_time s) = true)
  /\ (3600 <= s -> s < 360000 ->
      matches_shape "dd:dd:dd.ddd" (format_seconds_to_time s) = true).
Proof.
  split; [|split].
  - intro Hneg. unfold format_seconds_to_time.
    destruct (Qlt_le_dec s 0) as [_|Hge]; [reflexivity | lra].
  - intros H0 H1. unfold format_seconds_to_time.
    destruct (Qlt_le_dec s 0) as [Hneg|_]; [lra|].
    destruct (time_decompose s H0 ltac:(lra)) as (Hh & Hm & Hs0 & Hs1 & Es).
    set (hours := Float.to_int (Float.floordiv s 3600)) in *.
    set (minutes := Float.to_int (Float.floordiv (Float.modulo s 3600) 60)) in *.
    set (seconds := Float.modulo s 60) in *.
    assert (Hz : hours = 0%Z).
    { assert (Hlt : inject_Z hours < inject_Z 1).
      { change (inject_Z 1) with 1.
        assert (0 <= inject_Z minutes)
          by (change 0 with (inject_Z 0); rewrite <- Zle_Qle; lia).
        lra. }
      rewrite <- Zlt_Qlt in Hlt. lia. }
    rewrite Hz. cbn [Z.ltb Z.compare].
    apply (matches_shape_app "dd" ":dd.ddd"); [apply format_d_shape; lia|].
    change (":" ++ Str.format_f 6 3 seconds)%string
      with (String ":" (Str.format_f 6 3 seconds)).
    simpl. now apply format_f_seconds_shape.
  - intros H0 H1. unfold format_seconds_to_time.
    destruct (Qlt_le_dec s 0) as [Hneg|_]; [lra|].
    destruct (time_decompose s ltac:(lra) H1) as (Hh & Hm & Hs0 & Hs1 & Es).
    set (hours := Float.to_int (Float.floordiv s 3600)) in *.
    set (minutes := Float.to_int (Float.floordiv (Float.modulo s 3600) 60)) in *.
    set (seconds := Float.modulo s 60) in *.
    assert (Hpos : (0 < hours)%Z).
    { assert (Hlt : inject_Z 0 < inject_Z hours).
      { change (inject_Z 0) with 0.
        assert (inject_Z minutes <= 59).
        { change 59 with (inject_Z 59). rewrite <- Zle_Qle. lia. }
        lra. }
      now rewrite <- Zlt_Qlt in Hlt. }
    apply Z.ltb_lt in Hpos. rewrite Hpos.
    apply (matches_shape_app "dd" ":dd:dd.ddd"); [apply format_d_shape; lia|].
    change (":" ++ Str.format_d 2 minutes ++ ":" ++ Str.format_f 6 3 seconds)%string
      with (String ":" (Str.format_d 2 minutes ++ String ":" (Str.format_f 6 3 seconds))).
    cbn [matches_shape Ascii.eqb Bool.eqb andb].
    apply (matches_shape_app "dd" ":dd.ddd"); [apply format_d_shape; lia|].
    simpl. now apply format_f_seconds_shape.
Qed.

Lemma format_seconds_layout_witness :
  format_seconds_to_time (- (5 # 2)) = "00:00.000"
  /\ matches_shape "dd:dd.ddd" (format_seconds_to_time (125 # 2)) = true
  /\ matches_shape "dd:dd:dd.ddd" (format_seconds_to_time (37235 # 10)) = true.
Proof.
  split; [|split].
  - apply (proj1 (format_seconds_layout (- (5 # 2)))). reflexivity.
  - apply (proj1 (proj2 (format_seconds_layout (125 # 2)))); [discriminate | reflexivity].
  - apply (proj2 (proj2 (format_seconds_layout (37235 # 10))));
      [discriminate | reflexivity].
Defined.

(** The seconds field does not carry: a value in the last half
    millisecond below a full minute prints with a seconds field of
    60.000, which still reads back as sixty seconds. *)
Theorem format_seconds_no_carry (s : Q) :
  599995 # 10000 < s -> s < 60 ->
  format_seconds_to_time s = "00:60.000"
  /\ exists r, parse_time_to_seconds (format_seconds_to_time s) = Ok r /\ r == 60.
Proof.
  intros H0 H1.
  assert (E : format_seconds_to_time s = "00:60.000").
  { unfold format_seconds_to_time.
    destruct (Qlt_le_dec s 0) as [Hneg|_]; [lra|].
    destruct (time_decompose s ltac:(lra) ltac:(lra)) as (Hh & Hm & Hs0 & Hs1 & Es).
    set (hours := Float.to_int (Float.floordiv s 3600)) in *.
    set (minutes := Float.to_int (Float.floordiv (Float.modulo s 3600) 60)) in *.
    set (seconds := Float.modulo s 60) in *.
    assert (Hmin : minutes = 0%Z /\ hours = 0%Z).
    { assert (Hlt : inject_Z (60 * hours + minutes) < inject_Z 1).
      { rewrite inject_Z_plus, inject_Z_mult.
        change (inject_Z 1) with 1. change (inject_Z 60) with 60. lra. }
      rewrite <- Zlt_Qlt in Hlt. lia. }
    destruct Hmin as [Hmz Hhz]. rewrite Hhz, Hmz in *.
    cbn [Z.ltb Z.compare].
    destruct (format_f_seconds_parts seconds Hs0 Hs1) as (m & Em & _ & ->).
    assert (Esec : seconds == s).
    { change (inject_Z 0) with 0 in Es. lra. }
    assert (Hm6 : m = 60000%Z).
    { rewrite Em. unfold Float.round_half_even.
      assert (Hf : Qfloor (seconds * 1000) = 59999%Z).
      { apply floor_bounds.
        - change (inject_Z 59999) with 59999. lra.
        - change (inject_Z (59999 + 1)) with 60000. lra. }
      rewrite Hf.
      assert (Hc : (seconds * 1000 - inject_Z 59999 ?= 1 # 2) = Gt).
      { apply Qgt_alt. change (inject_Z 59999) with 59999. lra. }
      rewrite Hc. reflexivity. }
    rewrite Hm6. reflexivity. }
  split; [exact E|]. rewrite E.
  eexists. split; [vm_compute; reflexivity | reflexivity].
Qed.

Lemma format_seconds_no_carry_witness :
  format_seconds_to_time (599996 # 10000) = "00:60.000"
  /\ exists r,
       parse_time_to_seconds (format_seconds_to_time (599996 # 10000)) = Ok r
       /\ r == 60.
Proof. apply format_seconds_no_carry; reflexivity. Defined.

End TimeEdges.

(** ** Bitrate allocator: the results spelled out *)

Section AllocatorMore.

Local Open Scope Q_scope.

(** The two results spelled out, for a non-zero clip length. *)
Lemma compute_target_bitrates_value (clip mb : Q) (mn mx : Z) (ov : Q) :
  ~ clip == 0 ->
  compute_target_bitrates clip mb mn mx ov
    = Ok (Z.max
            (Float.to_int
               (Qmax (mb * 1024 * 1024 * 8 * ov
                      - inject_Z
                          (Z.max (Z.min
                             (Float.to_int
                                (Qmax (Qmin (mb * 1024 * 1024 * 8 * ov * (1 # 10))
                                         (inject_Z (mx * 1000) * clip))
                                   (inject_Z (mn * 1000) * clip) / 1000 / clip))
                             mx) mn * 1000) * clip)
                  (inject_Z (1000 * 1000)) / 1000 / clip)) 100,
          Z.max (Z.min
             (Float.to_int
                (Qmax (Qmin (mb * 1024 * 1024 * 8 * ov * (1 # 10))
                         (inject_Z (mx * 1000) * clip))
                   (inject_Z (mn * 1000) * clip) / 1000 / clip))
             mx) mn).
Proof.
  intro Hz. unfold compute_target_bitrates.
  rewrite (div_ok _ clip Hz); cbn [bind]; cbv beta zeta.
  rewrite (div_ok _ clip Hz); cbn [bind]. reflexivity.
Qed.

End AllocatorMore.

(** ** Downscale advisor: what a plan achieves *)

Section AdvisorMore.

Local Open Scope Q_scope.

(** A source that is at most 160 wide or at most 160 high is never
    downscaled, whatever the bitrate. *)
Theorem scale_plan_keeps_small_sources
    (w h : Z) (fps : option Q) (k : Z) (d : Z * Z) :
  (w <= 160)%Z \/ (h <= 160)%Z ->
  scale_plan (Some w) (Some h) fps k <> Ok (Some d).
Proof.
  intros Hsmall E. destruct d as [a b].
  destruct (scale_plan_some _ _ _ _ _ _ E)
    as (w' & h' & f & Ew & Eh & _ & _ & _ & _ & Ea & Eb & Ha & Hb).
  inversion Ew. inversion Eh. subst w' h'. lia.
Qed.

Lemma scale_plan_keeps_small_sources_witness :
  scale_plan (Some 160%Z) (Some 1080%Z) (Some 30) 1 <> Ok (Some (160, 160)%Z).
Proof. apply scale_plan_keeps_small_sources. left. discriminate. Defined.




End AdvisorMore.

(** ** [human_readable_size] *)

Section ReadableSize.

Local Open Scope Q_scope.

Lemma round_half_even_inject (z : Z) : Float.round_half_even (inject_Z z) = z.
Proof.
  unfold Float.round_half_even. rewrite Qfloor_Z.
  assert (E : (inject_Z z - inject_Z z ?= 1 # 2) = Lt).
  { apply Qlt_alt. setoid_replace (inject_Z z - inject_Z z) with 0 by ring.
    reflexivity. }
  now rewrite E.
Qed.

(** A size below 1024 bytes is shown as the byte count itself with two
    zero decimals and the unit B. *)
Theorem human_readable_size_bytes (n : Z) :
  (0 <= n < 1024)%Z ->
  human_readable_size n = (Str.of_int n ++ ".00 B")%string.
Proof.
  intro Hn. unfold human_readable_size. cbn [size_in_units].
  assert (Hs : Qle_bool 1024 (inject_Z n) = false).
  { destruct (Qle_bool 1024 (inject_Z n)) eqn:E; [|reflexivity].
    apply Qle_bool_iff in E. change 1024 with (inject_Z 1024) in E.
    rewrite <- Zle_Qle in E. lia. }
  rewrite Hs. unfold Str.format_f.
  destruct (Qlt_le_dec (inject_Z n) 0) as [Hneg|_].
  { change 0 with (inject_Z 0) in Hneg. rewrite <- Zlt_Qlt in Hneg. lia. }
  change (10 ^ Z.of_nat 2)%Z with 100%Z.
  assert (Em : Float.round_half_even (Qabs (inject_Z n) * inject_Z 100) = (n * 100)%Z).
  { rewrite <- (round_half_even_inject (n * 100)). apply round_half_even_comp.
    rewrite Qabs_pos.
    - now rewrite inject_Z_mult.
    - change 0 with (inject_Z 0). rewrite <- Zle_Qle. lia. }
  rewrite Em, Z.div_mul, Z.mod_mul by discriminate.
  unfold Str.of_int. destruct (Z.ltb_spec n 0) as [Hlt|_]; [lia|].
  change (Str.zero_fill 2 (Str.of_nonneg 0)) with "00".
  unfold Str.zero_fill. cbn [Nat.sub Str.repeat String.append].
  rewrite !app_assoc_str. reflexivity.
Qed.

Lemma human_readable_size_bytes_witness :
  human_readable_size 1023 = (Str.of_int 1023 ++ ".00 B")%string.
Proof. apply human_readable_size_bytes. lia. Defined.

(** The unit steps at powers of 1024 and stops at GB: the scaled value
    times the unit's size is the byte count, and it stays below 1024 in
    every unit but GB. *)
Theorem size_in_units_scale (n : Z) :
  (0 <= n)%Z ->
  exists q unit,
    size_in_units (inject_Z n) "B" ["KB"; "MB"; "GB"] = (q, unit)
    /\ ((unit = "B" /\ q == inject_Z n /\ q < 1024)
        \/ (unit = "KB" /\ q * 1024 == inject_Z n /\ 1 <= q /\ q < 1024)
        \/ (unit = "MB" /\ q * 1024 * 1024 == inject_Z n /\ 1 <= q /\ q < 1024)
        \/ (unit = "GB" /\ q * 1024 * 1024 * 1024 == inject_Z n /\ 1 <= q)).
Proof.
  intro Hn. cbn [size_in_units].
  set (x := inject_Z n).
  destruct (Qle_bool 1024 x) eqn:E1.
  2:{ exists x, "B". split; [reflexivity|]. left. repeat split.
      destruct (Qlt_le_dec x 1024) as [H|H]; [exact H|].
      apply Qle_bool_iff in H. congruence. }
  apply Qle_bool_iff in E1.
  destruct (Qle_bool 1024 (x / 1024)) eqn:E2.
  2:{ exists (x / 1024), "KB". split; [reflexivity|]. right. left.
      split; [reflexivity|]. split; [field|]. split.
      - apply Qle_shift_div_l; [reflexivity | lra].
      - destruct (Qlt_le_dec (x / 1024) 1024) as [H|H]; [exact H|].
        apply Qle_bool_iff in H. congruence. }
  apply Qle_bool_iff in E2.
  destruct (Qle_bool 1024 (x / 1024 / 1024)) eqn:E3.
  2:{ exists (x / 1024 / 1024), "MB". split; [reflexivity|]. right. right. left.
      split; [reflexivity|]. split; [field|]. split.
      - apply Qle_shift_div_l; [reflexivity | lra].
      - destruct (Qlt_le_dec (x / 1024 / 1024) 1024) as [H|H]; [exact H|].
        apply Qle_bool_iff in H. congruence. }
  apply Qle_bool_iff in E3.
  exists (x / 1024 / 1024 / 1024), "GB". split; [reflexivity|]. right. right. right.
  split; [reflexivity|]. split; [field|].
  apply Qle_shift_div_l; [reflexivity | lra].
Qed.

Lemma size_in_units_scale_witness :
  exists q unit,
    size_in_units (inject_Z 5368709120000) "B" ["KB"; "MB"; "GB"] = (q, unit)
    /\ ((unit = "B" /\ q == inject_Z 5368709120000 /\ q < 1024)
        \/ (unit = "KB" /\ q * 1024 == inject_Z 5368709120000 /\ 1 <= q /\ q < 1024)
        \/ (unit = "MB" /\ q * 1024 * 1024 == inject_Z 5368709120000
            /\ 1 <= q /\ q < 1024)
        \/ (unit = "GB" /\ q * 1024 * 1024 * 1024 == inject_Z 5368709120000
            /\ 1 <= q)).
Proof. apply size_in_units_scale. discriminate. Defined.

End ReadableSize.


(** ** Encode plan builder: failure, layout and composition *)

Section BuilderMore.

Lemma has_option_cons (opt v a : string) (l : list string) :
  has_option opt v l = true -> has_option opt v (a :: l) = true.
Proof.
  destruct l as [|b r]; [discriminate|]. intro H.
  change (has_option opt v (a :: b :: r))
    with ((String.eqb a opt && String.eqb b v) || has_option opt v (b :: r)).
  rewrite H. apply orb_true_r.
Qed.

Lemma has_option_app_here (opt v : string) (front rest : list string) :
  has_option opt v (front ++ opt :: v :: rest) = true.
Proof.
  induction front as [|a front IH]; cbn [app].
  - apply has_option_here.
  - now apply has_option_cons.
Qed.

(** The builder fails exactly when the destination has an empty final
    component, and then with [ValueError]: the statistics path cannot be
    derived. *)
Theorem build_two_pass_commands_fails_iff (os : string) (src dst : Path)
    (ss duration : option Q) (vk ak : Z) (filter : option string) :
  (name dst = EmptyString ->
   build_two_pass_commands os src dst ss duration vk ak filter = Raise ValueError)
  /\ (name dst <> EmptyString ->
      exists p1 p2,
        build_two_pass_commands os src dst ss duration vk ak filter = Ok (p1, p2)).
Proof.
  unfold build_two_pass_commands, PathOps.with_suffix. split.
  - intros ->. reflexivity.
  - intro Hn. destruct (name dst) as [|c r] eqn:E; [congruence|].
    cbn [String.length Nat.eqb bind]. eauto.
Qed.

Lemma build_two_pass_commands_fails_iff_witness :
  build_two_pass_commands "posix" (mkPath "/videos/" "holiday.mp4")
    (mkPath "/" "") None None 740 82 None = Raise ValueError
  /\ exists p1 p2,
       build_two_pass_commands "posix" (mkPath "/videos/" "holiday.mp4")
         (mkPath "/out/" "clip") None None 740 82 None = Ok (p1, p2).
Proof.
  split.
  - apply (proj1 (build_two_pass_commands_fails_iff "posix"
                    (mkPath "/videos/" "holiday.mp4") (mkPath "/" "")
                    None None 740 82 None)).
    reflexivity.
  - apply (proj2 (build_two_pass_commands_fails_iff "posix"
                    (mkPath "/videos/" "holiday.mp4") (mkPath "/out/" "clip")
                    None None 740 82 None)).
    discriminate.
Defined.

Lemma take_until_front (stop : string) (front r1 r2 : list string) :
  take_until stop (front ++ stop :: r1) = take_until stop (front ++ stop :: r2).
Proof.
  induction front as [|a front IH]; cbn [app take_until].
  - now rewrite String.eqb_refl.
  - destruct (String.eqb a stop); [reflexivity | now rewrite IH].
Qed.

Lemma last_app_cons (front : list string) (x d : string) :
  last (front ++ [x]) d = x.
Proof. apply last_last. Qed.

(** The two passes are one encode run twice: up to the pass number they
    have the same arguments (range, input, filter, codec, video
    bitrate) and they name the same statistics file; pass 1 encodes no
    audio and writes to the null sink, pass 2 writes to the
    destination. *)
Theorem build_two_pass_commands_layout (os : string) (src dst : Path)
    (ss duration : option Q) (vk ak : Z) (filter : option string)
    (p1 p2 : list string) :
  build_two_pass_commands os src dst ss duration vk ak filter = Ok (p1, p2) ->
  take_until "-pass" p1 = take_until "-pass" p2
  /\ (exists logfile,
        has_option "-passlogfile" logfile p1 = true
        /\ has_option "-passlogfile" logfile p2 = true)
  /\ In "-an" p1
  /\ last p1 EmptyString = null_sink os
  /\ last p2 EmptyString = PathOps.str dst
  /\ has_option "-b:a" (Str.of_int ak ++ "k") p2 = true
  /\ has_option "-movflags" "+faststart" p2 = true.
Proof.
  intro H.
  destruct (build_two_pass_commands_shape _ _ _ _ _ _ _ _ _ _ H)
    as (log & vf & _ & _ & -> & ->).
  set (range := range_arguments ss duration).
  set (bitrate := (Str.of_int vk ++ "k")%string).
  set (front := ["ffmpeg"; "-y"] ++ range ++ ["-i"; PathOps.str src] ++ vf
                ++ ["-c:v"; "libx264"; "-b:v"; bitrate]).
  assert (E1 : forall tail,
            ["ffmpeg"; "-y"] ++ range ++ ["-i"; PathOps.str src] ++ vf
              ++ "-c:v" :: "libx264" :: "-b:v" :: bitrate :: tail
            = front ++ tail).
  { intro tail. unfold front. rewrite <- !app_assoc. reflexivity. }
  rewrite !E1. clearbody front.
  split; [apply take_until_front|].
  split.
  { exists (PathOps.str log). split.
    - change (front ++ ["-pass"; "1"; "-preset"; "medium"; "-pix_fmt"; "yuv420p";
                        "-an"; "-f"; "mp4"; "-passlogfile"; PathOps.str log;
                        null_sink os])
        with (front ++ ["-pass"; "1"; "-preset"; "medium"; "-pix_fmt"; "yuv420p";
                        "-an"; "-f"; "mp4"]
                ++ "-passlogfile" :: PathOps.str log :: [null_sink os]).
      rewrite app_assoc. apply has_option_app_here.
    - change (front ++ ["-pass"; "2"; "-preset"; "medium"; "-pix_fmt"; "yuv420p";
                        "-c:a"; "aac"; "-b:a"; (Str.of_int ak ++ "k")%string;
                        "-movflags"; "+faststart"; "-passlogfile"; PathOps.str log;
                        PathOps.str dst])
        with (front ++ ["-pass"; "2"; "-preset"; "medium"; "-pix_fmt"; "yuv420p";
                        "-c:a"; "aac"; "-b:a"; (Str.of_int ak ++ "k")%string;
                        "-movflags"; "+faststart"]
                ++ "-passlogfile" :: PathOps.str log :: [PathOps.str dst]).
      rewrite app_assoc. apply has_option_app_here. }
  split.
  { apply in_or_app. right. cbn [In]. tauto. }
  split.
  { change (front ++ ["-pass"; "1"; "-preset"; "medium"; "-pix_fmt"; "yuv420p";
                      "-an"; "-f"; "mp4"; "-passlogfile"; PathOps.str log;
                      null_sink os])
      with (front ++ (["-pass"; "1"; "-preset"; "medium"; "-pix_fmt"; "yuv420p";
                       "-an"; "-f"; "mp4"; "-passlogfile"; PathOps.str log]
                      ++ [null_sink os])).
    rewrite app_assoc. apply last_last. }
  split.
  { change (front ++ ["-pass"; "2"; "-preset"; "medium"; "-pix_fmt"; "yuv420p";
                      "-c:a"; "aac"; "-b:a"; (Str.of_int ak ++ "k")%string;
                      "-movflags"; "+faststart"; "-passlogfile"; PathOps.str log;
                      PathOps.str dst])
      with (front ++ (["-pass"; "2"; "-preset"; "medium"; "-pix_fmt"; "yuv420p";
                       "-c:a"; "aac"; "-b:a"; (Str.of_int ak ++ "k")%string;
                       "-movflags"; "+faststart"; "-passlogfile"; PathOps.str log]
                      ++ [PathOps.str dst])).
    rewrite app_assoc. apply last_last. }
  split.
  - change (front ++ ["-pass"; "2"; "-preset"; "medium"; "-pix_fmt"; "yuv420p";
                      "-c:a"; "aac"; "-b:a"; (Str.of_int ak ++ "k")%string;
                      "-movflags"; "+faststart"; "-passlogfile"; PathOps.str log;
                      PathOps.str dst])
      with (front ++ ["-pass"; "2"; "-preset"; "medium"; "-pix_fmt"; "yuv420p";
                      "-c:a"; "aac"]
              ++ "-b:a" :: (Str.of_int ak ++ "k")%string
                   :: ["-movflags"; "+faststart"; "-passlogfile"; PathOps.str log;
                       PathOps.str dst]).
    rewrite app_assoc. apply has_option_app_here.
  - change (front ++ ["-pass"; "2"; "-preset"; "medium"; "-pix_fmt"; "yuv420p";
                      "-c:a"; "aac"; "-b:a"; (Str.of_int ak ++ "k")%string;
                      "-movflags"; "+faststart"; "-passlogfile"; PathOps.str log;
                      PathOps.str dst])
      with (front ++ ["-pass"; "2"; "-preset"; "medium"; "-pix_fmt"; "yuv420p";
                      "-c:a"; "aac"; "-b:a"; (Str.of_int ak ++ "k")%string]
              ++ "-movflags" :: "+faststart"
                   :: ["-passlogfile"; PathOps.str log; PathOps.str dst]).
    rewrite app_assoc. apply has_option_app_here.
Qed.

Lemma build_two_pass_commands_layout_witness :
  take_until "-pass"
    ["ffmpeg"; "-y"; "-ss"; "0.000"; "-i"; "/videos/holiday.mp4";
     "-c:v"; "libx264"; "-b:v"; "740k"; "-pass"; "1"; "-preset";
     "medium"; "-pix_fmt"; "yuv420p"; "-an"; "-f"; "mp4";
     "-passlogfile"; "/out/clip.log"; "/dev/null"]
  = take_until "-pass"
      ["ffmpeg"; "-y"; "-ss"; "0.000"; "-i"; "/videos/holiday.mp4";
       "-c:v"; "libx264"; "-b:v"; "740k"; "-pass"; "2"; "-preset";
       "medium"; "-pix_fmt"; "yuv420p"; "-c:a"; "aac"; "-b:a"; "82k";
       "-movflags"; "+faststart"; "-passlogfile"; "/out/clip.log";
       "/out/clip.mp4"].
Proof.
  apply (build_two_pass_commands_layout "posix" (mkPath "/videos/" "holiday.mp4")
           (mkPath "/out/" "clip.mp4") (Some 0%Q) None 740 82 None _ _ eq_refl).
Defined.

Lemma has_option_after_two (opt v x y : string) (front rest : list string) :
  has_option opt v (front ++ x :: y :: opt :: v :: rest) = true.
Proof.
  change (front ++ x :: y :: opt :: v :: rest)
    with (front ++ [x; y] ++ opt :: v :: rest).
  rewrite app_assoc. apply has_option_app_here.
Qed.

(** Advisor and builder together: a filter the advisor returns is
    never empty, so the builder passes it on, and to both passes alike,
    as the value of [-vf]. *)
Theorem advised_filter_in_both_passes
    (width height : option Z) (fps : option Q) (k : Z) (text : string)
    (os : string) (src dst : Path) (ss duration : option Q) (vk ak : Z)
    (p1 p2 : list string) :
  choose_scaling_for_bitrate width height fps k = Ok (Some text) ->
  build_two_pass_commands os src dst ss duration vk ak (Some text) = Ok (p1, p2) ->
  has_option "-vf" text p1 = true /\ has_option "-vf" text p2 = true.
Proof.
  unfold choose_scaling_for_bitrate.
  destruct (scale_plan width height fps k) as [[d|]|e]; cbn [bind option_map];
    try discriminate.
  intro E. assert (Et : text = scale_filter_text d) by congruence. clear E.
  unfold build_two_pass_commands.
  destruct (PathOps.with_suffix dst ".log") as [log|e]; [|discriminate].
  cbn [bind].
  assert (Hl : (String.length text =? 0)%nat = false) by (rewrite Et; reflexivity).
  rewrite Hl. intro H. injection H as E1 E2. subst p1 p2.
  split; do 2 apply has_option_cons; apply has_option_after_two.
Qed.

Lemma advised_filter_in_both_passes_witness :
  has_option "-vf" "scale=544:306:flags=lanczos"
    ["ffmpeg"; "-y"; "-i"; "/videos/holiday.mp4"; "-vf";
     "scale=544:306:flags=lanczos"; "-c:v"; "libx264"; "-b:v"; "300k";
     "-pass"; "1"; "-preset"; "medium"; "-pix_fmt"; "yuv420p"; "-an"; "-f";
     "mp4"; "-passlogfile"; "/out/clip.log"; "/dev/null"] = true.
Proof.
  apply (advised_filter_in_both_passes (Some 1920) (Some 1080) (Some 30%Q) 300
           "scale=544:306:flags=lanczos" "posix" (mkPath "/videos/" "holiday.mp4")
           (mkPath "/out/" "clip.mp4") None None 300 48 _ _ eq_refl eq_refl).
Defined.

End BuilderMore.

(** ** Export handler: plans, refusals and cleanup *)

Section OrchestratorMore.

Lemma yields_stop (phi : ExportPlan -> Prop) (e : event) :
  yields phi (emit e;; ret None).
Proof. intros evs plan H. discriminate H. Qed.

Lemma yields_emit (phi : ExportPlan -> Prop) (e : event)
    (k : unit -> M (option ExportPlan)) :
  yields phi (k tt) -> yields phi (bindM (emit e) k).
Proof.
  intros Hk evs plan H. unfold bindM, emit in H.
  destruct (k tt) as [evs' r]. injection H as _ Hr. subst r.
  now apply (Hk evs' plan).
Qed.

Lemma yields_lift {A : Type} (phi : ExportPlan -> Prop) (r : result A)
    (k : A -> M (option ExportPlan)) :
  (forall a, r = Ok a -> yields phi (k a)) -> yields phi (bindM (lift r) k).
Proof.
  intros Hk evs plan H. unfold bindM, lift in H.
  destruct r as [a|e]; [|discriminate H].
  specialize (Hk a eq_refl).
  destruct (k a) as [evs' r']. injection H as _ Hr. subst r'.
  now apply (Hk evs' plan).
Qed.

Lemma yields_ret (phi : ExportPlan -> Prop) (plan : ExportPlan) :
  phi plan -> yields phi (ret (Some plan)).
Proof. intros Hp evs plan' H. injection H as _ Hr. now subst plan'. Qed.

Ltac walk_yields :=
  repeat match goal with
    | |- yields _ (bindM (emit (ShowError _ _)) _) => apply yields_stop
    | |- yields _ (bindM (emit _) _) => apply yields_emit
    | |- yields _ (bindM (lift _) _) => apply yields_lift; intros ? ?
    | |- yields _ (if ?c then _ else _) => destruct c eqn:?
    | |- yields _ (match ?x with _ => _ end) => destruct x eqn:?
    | |- yields _ (ret (Some _)) => apply yields_ret
    end.

Lemma clip_floor (end_s : option Q) (second_probe : option Q) (start_s clip : Q) :
  match end_s with
  | Some e => Some (Qmax (1 # 10) (e - start_s))
  | None =>
      match second_probe with
      | Some video_dur => Some (Qmax (1 # 10) (video_dur - start_s))
      | None => None
      end
  end = Some clip ->
  (1 # 10 <= clip)%Q.
Proof.
  destruct end_s as [e|]; [|destruct second_probe as [v|]]; intro H;
    try discriminate H; injection H as <-; apply Q.le_max_l.
Qed.

Lemma target_positive (text : string) (target : Q) :
  (do t <- Str.to_float text; if Qle_bool t 0 then Raise ValueError else Ok t)
  = Ok target ->
  (0 < target)%Q.
Proof.
  destruct (Str.to_float text) as [t|e]; cbn [bind]; [|discriminate].
  destruct (Qle_bool t 0) eqn:E; [discriminate|].
  intro H. injection H as <-.
  destruct (Qlt_le_dec 0 t) as [Hlt|Hle]; [exact Hlt|].
  apply Qle_bool_iff in Hle. congruence.
Qed.

(** Every plan the handler hands to the transcoder hangs together as
    [plan_sound] says. *)
Lemma plan_export_sound (env : Env) : yields (plan_sound env) (plan_export env).
Proof.
  unfold plan_export. walk_yields.
  match goal with
  | Hclip : _ = Some ?clip,
    Htarget : bind (Str.to_float _) _ = Ok ?target,
    Hstream : probe_stream env = _,
    Hrates : compute_target_bitrates ?clip ?target _ _ _ = Ok _,
    Hfilter : choose_scaling_for_bitrate _ _ _ _ = Ok ?filter,
    Hcmds : export_commands _ _ (PathOps.child _ (_ ++ _ ++ ?st ++ _ ++ ?en ++ _ ++ ?tg ++ _))
              ?start _ _ _ _ = Ok _ |- _ =>
      exists start, clip, filter,
        (PathOps.stem (src_path env) ++ "_trim_" ++ st ++ "-" ++ en ++ "_" ++ tg)%string;
      cbn [pass1 pass2 plan_dst plan_target_mb plan_video_kbps plan_audio_kbps];
      split; [exact (clip_floor _ _ _ _ Hclip)|];
      split; [exact (target_positive _ _ Htarget)|];
      split; [exact Hrates|];
      split; [rewrite Hstream; exact Hfilter|];
      split; [exact Hcmds|]
  end.
  unfold PathOps.child. f_equal. rewrite !app_assoc_str. reflexivity.
Qed.

Lemma insert_before_last_snoc (items l : list string) (x : string) :
  insert_before_last items (l ++ [x]) = l ++ items ++ [x].
Proof.
  unfold insert_before_last.
  rewrite List.length_app. cbn [List.length]. rewrite Nat.add_sub.
  rewrite firstn_app, Nat.sub_diag, firstn_all. cbn [firstn]. rewrite app_nil_r.
  rewrite skipn_app, Nat.sub_diag, skipn_all. reflexivity.
Qed.

Ltac same_list :=
  cbn [app]; repeat rewrite <- app_assoc; cbn [app]; reflexivity.

(** The two lists as the handler runs them, laid out twice: from the
    front up to the input marker, and around the statistics file. *)
Lemma export_commands_shape (os : string) (src dst : Path)
    (start_s clip_seconds : Q) (vk ak : Z) (filter : option string)
    (p1 p2 : list string) :
  export_commands os src dst start_s clip_seconds vk ak filter = Ok (p1, p2) ->
  exists log tail1 tail2 front1 front2,
    PathOps.with_suffix dst ".log" = Ok log
    /\ p1 = ["ffmpeg"; "-y"]
              ++ ["-ss"; Str.format_f 0 3 start_s; "-t"; Str.format_f 0 3 clip_seconds]
              ++ "-i" :: tail1
    /\ p2 = ["ffmpeg"; "-y"]
              ++ ["-ss"; Str.format_f 0 3 start_s; "-t"; Str.format_f 0 3 clip_seconds]
              ++ "-i" :: tail2
    /\ p1 = front1 ++ "-passlogfile" :: PathOps.str log :: [null_sink os]
    /\ p2 = front2 ++ "-passlogfile" :: PathOps.str log
              :: (if ak <=? 64 then ["-ac"; "1"] else []) ++ [PathOps.str dst].
Proof.
  unfold export_commands.
  destruct (build_two_pass_commands os src dst (Some start_s) (Some clip_seconds)
              vk ak filter) as [[q1 q2]|e] eqn:Eb; [|discriminate].
  cbn [bind]. intro H. injection H as E1 E2. subst p1 p2.
  destruct (build_two_pass_commands_shape _ _ _ _ _ _ _ _ _ _ Eb)
    as (log & vf & Hlog & _ & -> & ->).
  unfold range_arguments.
  set (range := ["-ss"; Str.format_f 0 3 start_s] ++ ["-t"; Str.format_f 0 3 clip_seconds]).
  set (body1 := ["-c:v"; "libx264"; "-b:v"; (Str.of_int vk ++ "k")%string;
                 "-pass"; "1"; "-preset"; "medium"; "-pix_fmt"; "yuv420p";
                 "-an"; "-f"; "mp4"]).
  set (body2 := ["-c:v"; "libx264"; "-b:v"; (Str.of_int vk ++ "k")%string;
                 "-pass"; "2"; "-preset"; "medium"; "-pix_fmt"; "yuv420p";
                 "-c:a"; "aac"; "-b:a"; (Str.of_int ak ++ "k")%string;
                 "-movflags"; "+faststart"]).
  set (head := ["ffmpeg"; "-y"] ++ range ++ ["-i"; PathOps.str src] ++ vf).
  set (mono := if ak <=? 64 then ["-ac"; "1"] else []).
  assert (E2 :
    (if ak <=? 64
     then insert_before_last ["-ac"; "1"]
            (["ffmpeg"; "-y"] ++ range ++ ["-i"; PathOps.str src] ++ vf
               ++ ["-c:v"; "libx264"; "-b:v"; (Str.of_int vk ++ "k")%string;
                   "-pass"; "2"; "-preset"; "medium"; "-pix_fmt"; "yuv420p";
                   "-c:a"; "aac"; "-b:a"; (Str.of_int ak ++ "k")%string;
                   "-movflags"; "+faststart"; "-passlogfile"; PathOps.str log;
                   PathOps.str dst])
     else ["ffmpeg"; "-y"] ++ range ++ ["-i"; PathOps.str src] ++ vf
            ++ ["-c:v"; "libx264"; "-b:v"; (Str.of_int vk ++ "k")%string;
                "-pass"; "2"; "-preset"; "medium"; "-pix_fmt"; "yuv420p";
                "-c:a"; "aac"; "-b:a"; (Str.of_int ak ++ "k")%string;
                "-movflags"; "+faststart"; "-passlogfile"; PathOps.str log;
                PathOps.str dst])
    = (head ++ body2) ++ "-passlogfile" :: PathOps.str log :: mono ++ [PathOps.str dst]).
  { unfold mono. destruct (ak <=? 64).
    - replace (["ffmpeg"; "-y"] ++ range ++ ["-i"; PathOps.str src] ++ vf
                 ++ ["-c:v"; "libx264"; "-b:v"; (Str.of_int vk ++ "k")%string;
                     "-pass"; "2"; "-preset"; "medium"; "-pix_fmt"; "yuv420p";
                     "-c:a"; "aac"; "-b:a"; (Str.of_int ak ++ "k")%string;
                     "-movflags"; "+faststart"; "-passlogfile"; PathOps.str log;
                     PathOps.str dst])
        with (((head ++ body2) ++ ["-passlogfile"; PathOps.str log])
                ++ [PathOps.str dst])
        by (unfold head, body2, range; same_list).
      rewrite insert_before_last_snoc. same_list.
    - unfold head, body2, range. same_list. }
  rewrite E2.
  exists log,
    (PathOps.str src :: vf ++ body1 ++ ["-passlogfile"; PathOps.str log; null_sink os]),
    (PathOps.str src :: vf ++ body2 ++ "-passlogfile" :: PathOps.str log
       :: mono ++ [PathOps.str dst]),
    (head ++ body1), (head ++ body2).
  split; [exact Hlog|].
  split; [unfold body1, range; same_list|].
  split; [unfold head, body2, range; same_list|].
  split; [unfold head, body1, range; same_list | reflexivity].
Qed.

Lemma expects_stop (pre : list event) (e : event) :
  expects pre (emit e;; ret None).
Proof. intros evs plan H. discriminate H. Qed.

Lemma expects_emit (pre : list event) (e : event)
    (k : unit -> M (option ExportPlan)) :
  expects pre (k tt) -> expects (e :: pre) (bindM (emit e) k).
Proof.
  intros Hk evs plan H. unfold bindM, emit in H.
  destruct (k tt) as [evs' r]. injection H as He Hr. subst r evs.
  cbn [app]. f_equal. now apply (Hk evs' plan).
Qed.

Lemma expects_lift {A : Type} (pre : list event) (r : result A)
    (k : A -> M (option ExportPlan)) :
  (forall a, expects pre (k a)) -> expects pre (bindM (lift r) k).
Proof.
  intros Hk evs plan H. unfold bindM, lift in H.
  destruct r as [a|e]; [|discriminate H].
  specialize (Hk a).
  destruct (k a) as [evs' r']. injection H as He Hr. subst r' evs.
  cbn [app]. now apply (Hk evs' plan).
Qed.

Lemma expects_ret (plan : ExportPlan) : expects [] (ret (Some plan)).
Proof. intros evs plan' H. now injection H as <- _. Qed.

(** Before the first transcoder run a successful planning phase has
    created the download directory and set the encoding status, and
    nothing else. *)
Lemma plan_export_events (env : Env) :
  expects [Mkdir (downloads env); SetStatus encoding_status] (plan_export env).
Proof.
  unfold plan_export.
  repeat match goal with
    | |- expects _ (bindM (emit (ShowError _ _)) _) => apply expects_stop
    | |- expects _ (bindM (emit _) _) => apply expects_emit
    | |- expects _ (bindM (lift _) _) => apply expects_lift; intros ?
    | |- expects _ (if ?c then _ else _) => destruct c
    | |- expects _ (match ?x with _ => _ end) => destruct x
    | |- expects _ (ret (Some _)) => apply expects_ret
    end.
Qed.

Lemma run_export_pass2_failure (env : Env) (plan : ExportPlan)
    (out1 err1 : string) (code2 : Z) (out2 err2 : string) :
  run_command env (pass1 plan) = (0, out1, err1) ->
  run_command env (pass2 plan) = (code2, out2, err2) -> code2 <> 0 ->
  run_export env plan
    = ([RunCommand (pass1 plan); RunCommand (pass2 plan)]
         ++ clean_pass_logs env (plan_dst plan) [".log"; ".log.mbtree"]
         ++ [ShowError "ffmpeg error (pass 2)" (str_or err2 out2)], Ok tt).
Proof.
  intros H1 H2 Hc. unfold run_export. rewrite H1, H2.
  apply Z.eqb_neq in Hc. rewrite Hc. reflexivity.
Qed.

(** The encoder runs of the handler, in order: when the planning phase
    hands over a plan, pass 1 of that plan, followed by its pass 2
    exactly when pass 1 exited with code 0; when it hands over none,
    no run at all.  (The runs of the probes are answers of the
    environment and leave no event.) *)
Theorem on_export_command_sequence (env : Env) :
  match snd (plan_export env) with
  | Ok (Some plan) =>
      commands_run (fst (on_export env))
      = if exit_code (run_command env (pass1 plan)) =? 0
        then [pass1 plan; pass2 plan]
        else [pass1 plan]
  | _ => commands_run (fst (on_export env)) = []
  end.
Proof.
  destruct (plan_export env) as [pre [[plan|]|e]] eqn:Ep; cbn [snd].
  - pose proof (plan_export_events env pre plan Ep) as ->.
    rewrite (on_export_after_plan env _ plan Ep).
    destruct (run_command env (pass1 plan)) as [[code1 out1] err1] eqn:E1.
    destruct (run_command env (pass2 plan)) as [[code2 out2] err2] eqn:E2.
    unfold exit_code. cbn [fst].
    destruct (Z.eqb_spec code1 0) as [->|Hc1].
    + destruct (clean_pass_logs_silent env (plan_dst plan) [".log"; ".log.mbtree"])
        as (Cc & _).
      destruct (Z.eq_dec code2 0) as [->|Hc2].
      * rewrite (run_export_both_pass env plan out1 err1 out2 err2 E1 E2).
        cbn [fst]. rewrite !commands_run_app, Cc.
        unfold validate_size.
        destruct (stat_size env); [|reflexivity].
        destruct (size_deviation _ _); [|reflexivity].
        destruct (Qlt_le_dec _ _); reflexivity.
      * rewrite (run_export_pass2_failure env plan out1 err1 code2 out2 err2 E1 E2 Hc2).
        cbn [fst]. rewrite !commands_run_app, Cc. reflexivity.
    + rewrite (run_export_pass1_failure env plan code1 out1 err1 E1 Hc1). reflexivity.
  - unfold on_export, bindM. rewrite Ep. cbn [ret fst].
    pose proof (plan_export_quiet env) as (Qc & _). rewrite Ep in Qc.
    cbn [fst] in Qc. now rewrite commands_run_app, Qc.
  - unfold on_export, bindM. rewrite Ep. cbn [fst].
    pose proof (plan_export_quiet env) as (Qc & _). rewrite Ep in Qc. exact Qc.
Qed.

(** A failing pass 2: the failure is reported with the captured error
    stream (or the standard output when that is empty), the status stays
    at the encoding text, no size note is shown. *)
Theorem pass2_failure_reported (env : Env) (pre : list event) (plan : ExportPlan)
    (out1 err1 : string) (code2 : Z) (out2 err2 : string) :
  plan_export env = (pre, Ok (Some plan)) ->
  run_command env (pass1 plan) = (0, out1, err1) ->
  run_command env (pass2 plan) = (code2, out2, err2) -> code2 <> 0 ->
  snd (on_export env) = Ok tt
  /\ errors_shown (fst (on_export env))
     = [("ffmpeg error (pass 2)", str_or err2 out2)]
  /\ statuses (fst (on_export env)) = [encoding_status]
  /\ notes_shown (fst (on_export env)) = [].
Proof.
  intros Hp H1 H2 Hc.
  pose proof (plan_export_events env pre plan Hp) as ->.
  destruct (clean_pass_logs_silent env (plan_dst plan) [".log"; ".log.mbtree"])
    as (_ & Ce & Cn & Cs).
  rewrite (on_export_after_plan env _ plan Hp).
  rewrite (run_export_pass2_failure env plan out1 err1 code2 out2 err2 H1 H2 Hc).
  cbn [fst snd].
  rewrite !errors_shown_app, !statuses_app, !notes_shown_app, Ce, Cn, Cs.
  repeat split.
Qed.

Lemma pass2_failure_reported_witness :
  errors_shown (fst (on_export (sample_env 0 1 "" "" None)))
  = [("ffmpeg error (pass 2)", "frame= 300")].
Proof.
  assert (Hp : plan_export (sample_env 0 1 "" "" None)
               = (fst (plan_export (sample_env 0 1 "" "" None)),
                  Ok (Some (mkPlan
                    ["ffmpeg"; "-y"; "-ss"; "0.000"; "-t"; "10.000"; "-i";
                     "/videos/holiday.mp4"; "-vf"; "scale=854:480:flags=lanczos";
                     "-c:v"; "libx264"; "-b:v"; "740k"; "-pass"; "1"; "-preset";
                     "medium"; "-pix_fmt"; "yuv420p"; "-an"; "-f"; "mp4";
                     "-passlogfile"; "/home/u/Downloads/holiday_trim_0-10_1MB.log";
                     "/dev/null"]
                    ["ffmpeg"; "-y"; "-ss"; "0.000"; "-t"; "10.000"; "-i";
                     "/videos/holiday.mp4"; "-vf"; "scale=854:480:flags=lanczos";
                     "-c:v"; "libx264"; "-b:v"; "740k"; "-pass"; "2"; "-preset";
                     "medium"; "-pix_fmt"; "yuv420p"; "-c:a"; "aac"; "-b:a"; "82k";
                     "-movflags"; "+faststart"; "-passlogfile";
                     "/home/u/Downloads/holiday_trim_0-10_1MB.log";
                     "/home/u/Downloads/holiday_trim_0-10_1MB.mp4"]
                    (mkPath "/home/u/Downloads/" "holiday_trim_0-10_1MB.mp4")
                    1 740 82)))) by (vm_compute; reflexivity).
  destruct (pass2_failure_reported _ _ _ "" "" 1 "" "frame= 300" Hp eq_refl eq_refl
              ltac:(discriminate)) as (_ & He & _).
  exact He.
Defined.

(** Every plan the handler runs keeps the allocator's limits and a
    clip length of at least a tenth of a second: the video bitrate is at
    least 100, the audio bitrate within 48 and 160, and both passes are
    given the start and a duration of at least 0.1 s as their input
    options. *)
Theorem export_plan_within_limits (env : Env) (pre : list event) (plan : ExportPlan) :
  plan_export env = (pre, Ok (Some plan)) ->
  100 <= plan_video_kbps plan
  /\ 48 <= plan_audio_kbps plan <= 160
  /\ exists start_s clip_seconds,
       (1 # 10 <= clip_seconds)%Q
       /\ input_options (pass1 plan)
          = ["-ss"; Str.format_f 0 3 start_s; "-t"; Str.format_f 0 3 clip_seconds]
       /\ input_options (pass2 plan) = input_options (pass1 plan).
Proof.
  intro Hp.
  destruct (plan_export_sound env pre plan Hp)
    as (start_s & clip & filter & base & Hclip & _ & Hrates & _ & Hcmds & _).
  assert (Hz : ~ (clip == 0)%Q).
  { intro E. rewrite E in Hclip. apply (Qlt_not_le 0 (1 # 10)); [reflexivity | exact Hclip]. }
  rewrite (compute_target_bitrates_value clip _ _ _ _ Hz) in Hrates.
  unfold default_min_audio_kbps, default_max_audio_kbps in Hrates.
  injection Hrates as Hv Ha.
  split; [lia|]. split; [lia|].
  exists start_s, clip. split; [exact Hclip|].
  destruct (export_commands_shape _ _ _ _ _ _ _ _ _ _ Hcmds)
    as (log & tail1 & tail2 & _ & _ & _ & E1 & E2 & _).
  assert (Hi : ~ In "-i" ["-ss"; Str.format_f 0 3 start_s;
                          "-t"; Str.format_f 0 3 clip]).
  { apply (range_arguments_plain (Some start_s) (Some clip));
      [simpl; lia | discriminate | discriminate]. }
  rewrite E1, E2. unfold input_options. cbn [app skipn].
  change ("-ss" :: Str.format_f 0 3 start_s :: "-t" :: Str.format_f 0 3 clip
            :: "-i" :: tail1)
    with (["-ss"; Str.format_f 0 3 start_s; "-t"; Str.format_f 0 3 clip]
            ++ "-i" :: tail1).
  change ("-ss" :: Str.format_f 0 3 start_s :: "-t" :: Str.format_f 0 3 clip
            :: "-i" :: tail2)
    with (["-ss"; Str.format_f 0 3 start_s; "-t"; Str.format_f 0 3 clip]
            ++ "-i" :: tail2).
  rewrite !(take_until_app "-i" _ _ Hi). split; reflexivity.
Qed.

Lemma export_plan_within_limits_witness :
  100 <= 740 /\ 48 <= 82 <= 160
  /\ exists start_s clip_seconds,
       (1 # 10 <= clip_seconds)%Q
       /\ input_options
            ["ffmpeg"; "-y"; "-ss"; "0.000"; "-t"; "10.000"; "-i";
             "/videos/holiday.mp4"; "-vf"; "scale=854:480:flags=lanczos";
             "-c:v"; "libx264"; "-b:v"; "740k"; "-pass"; "1"; "-preset";
             "medium"; "-pix_fmt"; "yuv420p"; "-an"; "-f"; "mp4";
             "-passlogfile"; "/home/u/Downloads/holiday_trim_0-10_1MB.log";
             "/dev/null"]
          = ["-ss"; Str.format_f 0 3 start_s; "-t"; Str.format_f 0 3 clip_seconds]
       /\ input_options
            ["ffmpeg"; "-y"; "-ss"; "0.000"; "-t"; "10.000"; "-i";
             "/videos/holiday.mp4"; "-vf"; "scale=854:480:flags=lanczos";
             "-c:v"; "libx264"; "-b:v"; "740k"; "-pass"; "2"; "-preset";
             "medium"; "-pix_fmt"; "yuv420p"; "-c:a"; "aac"; "-b:a"; "82k";
             "-movflags"; "+faststart"; "-passlogfile";
             "/home/u/Downloads/holiday_trim_0-10_1MB.log";
             "/home/u/Downloads/holiday_trim_0-10_1MB.mp4"]
          = input_options
              ["ffmpeg"; "-y"; "-ss"; "0.000"; "-t"; "10.000"; "-i";
               "/videos/holiday.mp4"; "-vf"; "scale=854:480:flags=lanczos";
               "-c:v"; "libx264"; "-b:v"; "740k"; "-pass"; "1"; "-preset";
               "medium"; "-pix_fmt"; "yuv420p"; "-an"; "-f"; "mp4";
               "-passlogfile"; "/home/u/Downloads/holiday_trim_0-10_1MB.log";
               "/dev/null"].
Proof.
  apply (export_plan_within_limits (sample_env 0 0 "" "" None)
           [Mkdir "/home/u/Downloads/"; SetStatus encoding_status]
           (mkPlan _ _ (mkPath "/home/u/Downloads/" "holiday_trim_0-10_1MB.mp4")
              1 740 82)).
  vm_compute. reflexivity.
Defined.

Lemma unlinked_app (a b : list event) : unlinked (a ++ b) = unlinked a ++ unlinked b.
Proof. apply flat_map_app. Qed.

Lemma clean_pass_logs_paths (env : Env) (dst log : Path) :
  PathOps.with_suffix dst ".log" = Ok log ->
  unlinked (clean_pass_logs env dst [".log"; ".log.mbtree"])
  = filter (file_exists env) [PathOps.str log; (PathOps.str log ++ ".mbtree")%string].
Proof.
  unfold PathOps.with_suffix. cbn [clean_pass_logs].
  unfold PathOps.with_suffix.
  destruct (String.length (name dst) =? 0)%nat; [discriminate|].
  intro H. injection H as <-. unfold PathOps.str. cbn [parent name filter].
  replace (parent dst ++ PathOps.stem dst ++ ".log.mbtree")%string
    with ((parent dst ++ PathOps.stem dst ++ ".log") ++ ".mbtree")%string
    by (rewrite !app_assoc_str; reflexivity).
  destruct (file_exists env (parent dst ++ PathOps.stem dst ++ ".log"));
    destruct (file_exists env ((parent dst ++ PathOps.stem dst ++ ".log") ++ ".mbtree"));
    reflexivity.
Qed.

Lemma validate_size_keeps_files (env : Env) (plan : ExportPlan) :
  unlinked (validate_size env plan) = [].
Proof.
  unfold validate_size. destruct (stat_size env); [|reflexivity].
  destruct (size_deviation _ _); [|reflexivity].
  destruct (Qlt_le_dec _ _); reflexivity.
Qed.

(** Cleanup: once pass 1 has succeeded, the handler removes the
    statistics file it named to both passes and the companion with
    [.mbtree] appended, each if it exists, and nothing else, whether
    pass 2 succeeds or fails; after a failed pass 1 it removes nothing. *)
Theorem statistics_files_cleaned (env : Env) (pre : list event) (plan : ExportPlan) :
  plan_export env = (pre, Ok (Some plan)) ->
  exists logfile,
    has_option "-passlogfile" logfile (pass1 plan) = true
    /\ has_option "-passlogfile" logfile (pass2 plan) = true
    /\ (exit_code (run_command env (pass1 plan)) = 0 ->
        unlinked (fst (on_export env))
        = filter (file_exists env) [logfile; (logfile ++ ".mbtree")%string])
    /\ (exit_code (run_command env (pass1 plan)) <> 0 ->
        unlinked (fst (on_export env)) = []).
Proof.
  intro Hp.
  destruct (plan_export_sound env pre plan Hp)
    as (start_s & clip & filter & base & _ & _ & _ & _ & Hcmds & _).
  destruct (export_commands_shape _ _ _ _ _ _ _ _ _ _ Hcmds)
    as (log & _ & _ & front1 & front2 & Hlog & _ & _ & E1 & E2).
  exists (PathOps.str log).
  split; [rewrite E1; apply has_option_app_here|].
  split; [rewrite E2; apply has_option_app_here|].
  pose proof (plan_export_events env pre plan Hp) as ->.
  rewrite (on_export_after_plan env _ plan Hp). cbn [fst].
  destruct (run_command env (pass1 plan)) as [[code1 out1] err1] eqn:R1.
  destruct (run_command env (pass2 plan)) as [[code2 out2] err2] eqn:R2.
  unfold exit_code. cbn [fst]. split.
  - intros ->. destruct (Z.eq_dec code2 0) as [->|Hc2].
    + rewrite (run_export_both_pass env plan out1 err1 out2 err2 R1 R2). cbn [fst].
      rewrite !unlinked_app, validate_size_keeps_files,
        (clean_pass_logs_paths env _ log Hlog).
      cbn [unlinked flat_map app]. now rewrite app_nil_r.
    + rewrite (run_export_pass2_failure env plan out1 err1 code2 out2 err2 R1 R2 Hc2).
      cbn [fst]. rewrite !unlinked_app, (clean_pass_logs_paths env _ log Hlog).
      cbn [unlinked flat_map app]. now rewrite app_nil_r.
  - intro Hc1.
    rewrite (run_export_pass1_failure env plan code1 out1 err1 R1 Hc1). reflexivity.
Qed.

Lemma statistics_files_cleaned_witness :
  exists logfile,
    has_option "-passlogfile" logfile
      (pass1 (mkPlan
         ["ffmpeg"; "-y"; "-ss"; "0.000"; "-t"; "10.000"; "-i";
          "/videos/holiday.mp4"; "-vf"; "scale=854:480:flags=lanczos";
          "-c:v"; "libx264"; "-b:v"; "740k"; "-pass"; "1"; "-preset";
          "medium"; "-pix_fmt"; "yuv420p"; "-an"; "-f"; "mp4";
          "-passlogfile"; "/home/u/Downloads/holiday_trim_0-10_1MB.log";
          "/dev/null"]
         ["ffmpeg"; "-y"; "-ss"; "0.000"; "-t"; "10.000"; "-i";
          "/videos/holiday.mp4"; "-vf"; "scale=854:480:flags=lanczos";
          "-c:v"; "libx264"; "-b:v"; "740k"; "-pass"; "2"; "-preset";
          "medium"; "-pix_fmt"; "yuv420p"; "-c:a"; "aac"; "-b:a"; "82k";
          "-movflags"; "+faststart"; "-passlogfile";
          "/home/u/Downloads/holiday_trim_0-10_1MB.log";
          "/home/u/Downloads/holiday_trim_0-10_1MB.mp4"]
         (mkPath "/home/u/Downloads/" "holiday_trim_0-10_1MB.mp4") 1 740 82)) = true.
Proof.
  destruct (statistics_files_cleaned (sample_env 0 1 "" "" None)
              [Mkdir "/home/u/Downloads/"; SetStatus encoding_status]
              (mkPlan _ _ (mkPath "/home/u/Downloads/" "holiday_trim_0-10_1MB.mp4")
                 1 740 82) ltac:(vm_compute; reflexivity))
    as (logfile & H1 & _).
  exists logfile. exact H1.
Defined.

Lemma refusal_stop (msg : string) :
  refusal (emit (ShowError "Error" msg);; ret None).
Proof. intros evs H. injection H as <-. eauto. Qed.

Lemma refusal_of_productive (m : M (option ExportPlan)) : productive m -> refusal m.
Proof. intros Hm evs H. now destruct (Hm evs). Qed.

Lemma productive_emit (e : event) (k : unit -> M (option ExportPlan)) :
  productive (k tt) -> productive (bindM (emit e) k).
Proof.
  intros Hk evs H. unfold bindM, emit in H.
  destruct (k tt) as [evs' r] eqn:E. injection H as _ Hr. subst r.
  now apply (Hk evs').
Qed.

Lemma productive_lift {A : Type} (r : result A) (k : A -> M (option ExportPlan)) :
  (forall a, productive (k a)) -> productive (bindM (lift r) k).
Proof.
  intros Hk evs H. unfold bindM, lift in H.
  destruct r as [a|e]; [|discriminate H].
  specialize (Hk a). destruct (k a) as [evs' r']. injection H as _ Hr. subst r'.
  now apply (Hk evs').
Qed.

Lemma productive_ret (plan : ExportPlan) : productive (ret (Some plan)).
Proof. intros evs H. discriminate H. Qed.

Lemma plan_export_refusal (env : Env) : refusal (plan_export env).
Proof.
  unfold plan_export.
  repeat match goal with
    | |- refusal (bindM (emit (ShowError "Error" _)) _) => apply refusal_stop
    | |- refusal (bindM (lift _) _) => apply refusal_of_productive
    | |- refusal (if ?c then _ else _) => destruct c
    | |- refusal (match ?x with _ => _ end) => destruct x
    | |- productive (bindM (emit _) _) => apply productive_emit
    | |- productive (bindM (lift _) _) => apply productive_lift; intros ?
    | |- productive (match ?x with _ => _ end) => destruct x
    | |- productive (ret (Some _)) => apply productive_ret
    end.
Qed.

(** A refused export leaves one trace only: when the handler returns
    without running a command, a single error dialog titled "Error" is
    all that happened: no directory made, no status changed, nothing
    removed. *)
Theorem refused_export_shows_one_error (env : Env) (evs : list event) :
  on_export env = (evs, Ok tt) -> commands_run evs = [] ->
  exists msg, evs = [ShowError "Error" msg].
Proof.
  intros H Hc. unfold on_export, bindM in H.
  destruct (plan_export env) as [pre [[plan|]|e]] eqn:Ep; [| |discriminate H].
  - exfalso. unfold run_export, bindM, emit in H.
    destruct (let '(code1, out1, err1) := run_command env (pass1 plan) in _)
      as [evs' r'] in H.
    injection H as He _. subst evs.
    rewrite commands_run_app in Hc. apply app_eq_nil in Hc. destruct Hc as [_ Hc].
    discriminate Hc.
  - cbn [ret] in H. injection H as He. subst evs. rewrite app_nil_r.
    exact (plan_export_refusal env pre Ep).
Qed.

Lemma refused_export_shows_one_error_witness :
  exists msg,
    [ShowError "Error" "Target size must be a positive number."]
    = [ShowError "Error" msg].
Proof.
  apply (refused_export_shows_one_error
           (mkEnv (mkPath "/videos/" "holiday.mp4") "0" "00:10" "-3" true true
              (fun _ => None) (None, None, None) "/home/u/Downloads/" "posix"
              (fun _ => (0, "", "")) (fun _ => false) None));
    vm_compute; reflexivity.
Defined.

End OrchestratorMore.

Section ProberFacts.

Variable json_loads : string -> option json.
Variable runner : list string -> Z * string * string.
Variable video_path : Path.

Lemma split_pair (num den : string) :
  Str.contains "/" num = false -> Str.contains "/" den = false ->
  Str.split "/" (num ++ String "/" den) = [num; den].
Proof.
  intros Hn Hd. rewrite (split_first "/" num den Hn).
  now rewrite (split_absent "/" den Hd).
Qed.

Lemma split_not_pair (text : string) :
  (2 <= count_char "/" text)%nat ->
  forall num den, Str.split "/" text <> [num; den].
Proof.
  intros Hc num den E.
  pose proof (split_length "/" text) as L. rewrite E in L. simpl in L. lia.
Qed.

Lemma truthy_text (a b : string) (c : ascii) :
  Py.truthy (JStr (a ++ String c b)) = true.
Proof. destruct a; reflexivity. Qed.

Lemma nonzero_not_zero (z : Z) : nonzero z <> Some 0.
Proof.
  unfold nonzero. destruct (z =? 0) eqn:E; [discriminate|].
  intros H. injection H as ->. discriminate E.
Qed.

(** A duration is reported only when the probe exited with code zero,
    and a reported duration is positive: zero and negative durations
    are absent like every failure. *)
Theorem ffprobe_duration_seconds_positive (d : Q) :
  ffprobe_duration_seconds json_loads runner video_path = Some d ->
  (0 < d)%Q /\ fst (fst (runner (duration_command video_path))) = 0.
Proof.
  unfold ffprobe_duration_seconds.
  destruct (runner (duration_command video_path)) as [[code out] err]. simpl.
  destruct (code =? 0) eqn:Ec; simpl; [|discriminate].
  apply Z.eqb_eq in Ec.
  destruct (json_loads out) as [data|]; [|discriminate].
  destruct (Py.get data "format" (JDict [])) as [format|]; [|discriminate].
  destruct (Py.get format "duration" (JFloat 0)) as [value|]; [|discriminate].
  destruct (Py.to_float value) as [dur|]; [|discriminate].
  destruct (Qlt_le_dec 0 dur) as [Hp|Hn]; [|discriminate].
  intros H. injection H as <-. split; [exact Hp | exact Ec].
Qed.

(** A decoded object without a format entry, or whose format entry is an
    object without a duration, gives no duration: the defaults lead to
    the duration zero, which is not reported. *)
Theorem ffprobe_duration_seconds_missing (out err : string)
    (top : list (string * json)) :
  runner (duration_command video_path) = (0, out, err) ->
  json_loads out = Some (JDict top) ->
  (Py.lookup "format" top = None \/
   exists fs, Py.lookup "format" top = Some (JDict fs) /\
              Py.lookup "duration" fs = None) ->
  ffprobe_duration_seconds json_loads runner video_path = None.
Proof.
  intros Hr Hl Hm. unfold ffprobe_duration_seconds. rewrite Hr. simpl.
  rewrite Hl. simpl.
  destruct Hm as [Hf | [fs [Hf Hd]]]; rewrite Hf; simpl.
  - reflexivity.
  - rewrite Hd. simpl. reflexivity.
Qed.

(** Neither the width nor the height of the stream probe is ever zero:
    a zero is reported as absent. *)
Theorem ffprobe_resolution_fps_no_zero (w h : option Z) (f : option Q) :
  ffprobe_resolution_fps json_loads runner video_path = (w, h, f) ->
  w <> Some 0 /\ h <> Some 0.
Proof.
  assert (A : forall w h f, (@None Z, @None Z, @None Q) = (w, h, f) ->
                            w <> Some 0 /\ h <> Some 0).
  { intros a b c E. injection E as <- <- <-. split; discriminate. }
  assert (B : forall x y (g : option Q) w h f, (nonzero x, nonzero y, g) = (w, h, f) ->
                            w <> Some 0 /\ h <> Some 0).
  { intros x y g a b c E. injection E as <- <- <-.
    split; apply nonzero_not_zero. }
  unfold ffprobe_resolution_fps.
  destruct (runner (stream_command video_path)) as [[code out] err].
  destruct (negb (code =? 0)); [apply A|].
  destruct (json_loads out) as [data|]; [|apply A].
  destruct (Py.get data "streams" JNull) as [streams|]; [|apply A].
  destruct (if Py.truthy streams then Py.first_item streams else Some (JDict []))
    as [stream|]; [|apply A].
  destruct (Py.get stream "width" (JInt 0)) as [wv|]; [|apply A].
  destruct (Py.get stream "height" (JInt 0)) as [hv|]; [|apply A].
  destruct (Py.get stream "avg_frame_rate" (JStr "0/0")) as [fr|]; [|apply A].
  destruct (Py.to_int wv) as [x|]; [|apply A].
  destruct (Py.to_int hv) as [y|]; [|apply A].
  cbv zeta.
  destruct (Py.truthy fr); [|apply B].
  destruct (Py.has_slash fr) as [[|]|]; [|apply B|apply A].
  destruct fr as [| | | |text| |]; try apply A.
  destruct (Str.split "/" text) as [|num [|den [|more rest]]]; try apply A.
  apply B.
Qed.

(** A well-formed answer is read as written: with integer width and
    height and a frame rate text of two fields around one slash, the
    probe gives the width and the height (absent when zero) and the
    quotient of the two numbers; when the divisor is zero it gives no
    frame rate, and the dividend is not even read. *)
Theorem ffprobe_resolution_fps_reads_stream (out err : string)
    (top fs : list (string * json)) (rest : list json)
    (w h : Z) (num den : string) (n d : Q) :
  runner (stream_command video_path) = (0, out, err) ->
  json_loads out = Some (JDict top) ->
  Py.lookup "streams" top = Some (JList (JDict fs :: rest)) ->
  Py.lookup "width" fs = Some (JInt w) ->
  Py.lookup "height" fs = Some (JInt h) ->
  Py.lookup "avg_frame_rate" fs = Some (JStr (num ++ String "/" den)) ->
  Str.contains "/" num = false -> Str.contains "/" den = false ->
  Str.to_float den = Ok d ->
  (Qeq_bool d 0 = false -> Str.to_float num = Ok n) ->
  ffprobe_resolution_fps json_loads runner video_path =
    (if w =? 0 then None else Some w,
     if h =? 0 then None else Some h,
     if Qeq_bool d 0 then None else Some (n / d)%Q).
Proof.
  intros Hr Hl Hs Hw Hh Hf Hn Hd Ed En.
  unfold ffprobe_resolution_fps. rewrite Hr. simpl negb. cbv iota.
  rewrite Hl. simpl Py.get. rewrite Hs. simpl Py.truthy. cbv iota.
  simpl Py.first_item. cbv iota. simpl Py.get. rewrite Hw, Hh, Hf.
  simpl Py.to_int. cbv iota zeta.
  rewrite truthy_text. simpl Py.has_slash.
  rewrite contains_app. simpl Str.contains. rewrite Hn. simpl orb. cbv iota.
  rewrite (split_pair num den Hn Hd). cbv iota.
  unfold frame_rate_of, nonzero. rewrite Ed.
  destruct (Qeq_bool d 0); [reflexivity|].
  rewrite (En eq_refl). reflexivity.
Qed.

(** A frame rate text with two or more slashes loses the whole answer:
    the probe gives no width and no height either, although both may
    have been readable. *)
Theorem ffprobe_resolution_fps_extra_slash (out err : string)
    (top fs : list (string * json)) (rest : list json) (text : string) :
  runner (stream_command video_path) = (0, out, err) ->
  json_loads out = Some (JDict top) ->
  Py.lookup "streams" top = Some (JList (JDict fs :: rest)) ->
  Py.lookup "avg_frame_rate" fs = Some (JStr text) ->
  (2 <= count_char "/" text)%nat ->
  ffprobe_resolution_fps json_loads runner video_path = (None, None, None).
Proof.
  intros Hr Hl Hs Hf Hn.
  unfold ffprobe_resolution_fps. rewrite Hr. simpl negb. cbv iota.
  rewrite Hl. simpl Py.get. rewrite Hs. simpl Py.truthy. cbv iota.
  simpl Py.first_item. cbv iota. simpl Py.get. rewrite Hf.
  destruct (Py.to_int _) as [x|]; [|reflexivity].
  destruct (Py.to_int _) as [y|]; [|reflexivity].
  cbv zeta.
  assert (Hc : Str.contains "/" text = true) by (apply contains_count; lia).
  assert (Ht : Py.truthy (JStr text) = true).
  { destruct text; [discriminate Hc | reflexivity]. }
  rewrite Ht. simpl Py.has_slash. rewrite Hc. cbv iota.
  pose proof (split_not_pair text Hn) as Np.
  destruct (Str.split "/" text) as [|a [|b [|c l]]]; try reflexivity.
  exfalso. apply (Np a b). reflexivity.
Qed.

End ProberFacts.

Lemma ffprobe_duration_seconds_positive_witness :
  (0 < 125 # 10)%Q /\
  fst (fst ((fun _ : list string => (0, "{}", "")) (duration_command (mkPath "/v" "a.mp4")))) = 0.
Proof.
  apply (ffprobe_duration_seconds_positive
           (fun _ => Some (JDict [("format", JDict [("duration", JStr "12.5")])]))
           (fun _ => (0, "{}", "")) (mkPath "/v" "a.mp4") (125 # 10)).
  vm_compute. reflexivity.
Defined.

Lemma ffprobe_resolution_fps_no_zero_witness :
  Some 1920 <> Some 0 /\ @None Z <> Some 0.
Proof.
  apply (ffprobe_resolution_fps_no_zero
           (fun _ => Some (JDict [("streams",
              JList [JDict [("width", JInt 1920); ("height", JInt 0);
                            ("avg_frame_rate", JStr "30/1")]])]))
           (fun _ => (0, "{}", "")) (mkPath "/v" "a.mp4")
           (Some 1920) None (Some (30 # 1))).
  vm_compute. reflexivity.
Defined.

Lemma ffprobe_resolution_fps_reads_stream_witness :
  ffprobe_resolution_fps
    (fun _ => Some (JDict [("streams",
       JList [JDict [("width", JInt 1920); ("height", JInt 1080);
                     ("avg_frame_rate", JStr "30000/1001")]])]))
    (fun _ => (0, "{}", "")) (mkPath "/v" "a.mp4") =
  (Some 1920, Some 1080, Some ((30000 # 1) / (1001 # 1))%Q).
Proof.
  apply (ffprobe_resolution_fps_reads_stream
           (fun _ => Some (JDict [("streams",
              JList [JDict [("width", JInt 1920); ("height", JInt 1080);
                            ("avg_frame_rate", JStr "30000/1001")]])]))
           (fun _ => (0, "{}", "")) (mkPath "/v" "a.mp4") "{}" ""
           [("streams",
              JList [JDict [("width", JInt 1920); ("height", JInt 1080);
                            ("avg_frame_rate", JStr "30000/1001")]])]
           [("width", JInt 1920); ("height", JInt 1080);
            ("avg_frame_rate", JStr "30000/1001")]
           [] 1920 1080 "30000" "1001" (30000 # 1) (1001 # 1));
    try (intros _); vm_compute; reflexivity.
Defined.

Lemma ffprobe_resolution_fps_extra_slash_witness :
  ffprobe_resolution_fps
    (fun _ => Some (JDict [("streams",
       JList [JDict [("width", JInt 1920); ("height", JInt 1080);
                     ("avg_frame_rate", JStr "30/1/1")]])]))
    (fun _ => (0, "{}", "")) (mkPath "/v" "a.mp4") = (None, None, None).
Proof.
  apply (ffprobe_resolution_fps_extra_slash
           (fun _ => Some (JDict [("streams",
              JList [JDict [("width", JInt 1920); ("height", JInt 1080);
                            ("avg_frame_rate", JStr "30/1/1")]])]))
           (fun _ => (0, "{}", "")) (mkPath "/v" "a.mp4") "{}" ""
           [("streams",
              JList [JDict [("width", JInt 1920); ("height", JInt 1080);
                            ("avg_frame_rate", JStr "30/1/1")]])]
           [("width", JInt 1920); ("height", JInt 1080);
            ("avg_frame_rate", JStr "30/1/1")]
           [] "30/1/1"); [reflexivity .. | vm_compute; lia].
Defined.

Lemma ffprobe_duration_seconds_missing_witness :
  ffprobe_duration_seconds
    (fun _ => Some (JDict [("format", JDict [("size", JStr "1024")])]))
    (fun _ => (0, "{}", "")) (mkPath "/v" "a.mp4") = None.
Proof.
  apply (ffprobe_duration_seconds_missing
           (fun _ => Some (JDict [("format", JDict [("size", JStr "1024")])]))
           (fun _ => (0, "{}", "")) (mkPath "/v" "a.mp4") "{}" ""
           [("format", JDict [("size", JStr "1024")])]); try reflexivity.
  right. exists [("size", JStr "1024")]. split; reflexivity.
Defined.

(** * Double precision

    The doubles, their rounding, and the allocator and the advisor over
    them. *)

Section DoubleRounding.

Import Double.
Local Open Scope Q_scope.

Lemma pow2_pos (e : Z) : 0 < pow2 e.
Proof. unfold pow2. apply Qpower_0_lt. reflexivity. Qed.

Lemma pow2_add (a b : Z) : pow2 (a + b) == pow2 a * pow2 b.
Proof. unfold pow2. apply Qpower_plus. discriminate. Qed.

Lemma pow2_le (a b : Z) : (a <= b)%Z -> pow2 a <= pow2 b.
Proof. intro H. unfold pow2. apply Qpower_le_compat_l; [exact H | discriminate]. Qed.

Lemma pow2_lt (a b : Z) : (a < b)%Z -> pow2 a < pow2 b.
Proof. intro H. unfold pow2. apply Qpower_lt_compat_l; [exact H | reflexivity]. Qed.

Lemma pow2_lt_inv (a b : Z) : pow2 a < pow2 b -> (a < b)%Z.
Proof. intro H. unfold pow2 in H. apply (Qpower_lt_compat_l_inv 2); [exact H | reflexivity]. Qed.

Lemma pow2_Z (e : Z) : (0 <= e)%Z -> pow2 e == inject_Z (2 ^ e).
Proof. intro H. unfold pow2. symmetry. apply (Zpower_Qpower 2 e H). Qed.

Lemma pow2_sub (a b : Z) : pow2 (a - b) == pow2 a / pow2 b.
Proof. unfold pow2. apply Qpower_minus. discriminate. Qed.

Lemma pow2_0 : pow2 0 == 1.
Proof. reflexivity. Qed.

(** The integer exponent of a positive rational. *)
Lemma floor_log2_spec (q : Q) :
  0 < q -> pow2 (floor_log2 q) <= q /\ q < pow2 (floor_log2 q + 1).
Proof.
  intro Hq. destruct q as [n d].
  assert (Hn : (0 < n)%Z).
  { unfold Qlt in Hq. simpl in Hq. lia. }
  unfold floor_log2. cbn [Qnum Qden].
  set (a := Z.log2 n). set (b := Z.log2 (Z.pos d)).
  pose proof (Z.log2_spec n Hn) as [Ha1 Ha2]. fold a in Ha1, Ha2.
  pose proof (Z.log2_spec (Z.pos d) eq_refl) as [Hb1 Hb2]. fold b in Hb1, Hb2.
  assert (Ha0 : (0 <= a)%Z) by apply Z.log2_nonneg.
  assert (Hb0 : (0 <= b)%Z) by apply Z.log2_nonneg.
  assert (Eq : n # d == inject_Z n / inject_Z (Z.pos d)) by apply Qmake_Qdiv.
  assert (Hd : 0 < inject_Z (Z.pos d)) by reflexivity.
  assert (Qa1 : pow2 a <= inject_Z n) by (rewrite pow2_Z by lia; now rewrite <- Zle_Qle).
  assert (Qa2 : inject_Z n < pow2 (a + 1)) by (rewrite pow2_Z by lia; now rewrite <- Zlt_Qlt).
  assert (Qb1 : pow2 b <= inject_Z (Z.pos d)) by (rewrite pow2_Z by lia; now rewrite <- Zle_Qle).
  assert (Qb2 : inject_Z (Z.pos d) < pow2 (b + 1)) by (rewrite pow2_Z by lia; now rewrite <- Zlt_Qlt).
  assert (Up : n # d < pow2 (a - b + 1)).
  { rewrite Eq. apply Qlt_shift_div_r; [exact Hd|].
    apply Qlt_le_trans with (pow2 (a + 1)); [exact Qa2|].
    replace (a + 1)%Z with ((a - b + 1) + b)%Z by lia. rewrite pow2_add.
    apply Qmult_le_l; [apply pow2_pos | exact Qb1]. }
  assert (Lo : pow2 (a - b - 1) <= n # d).
  { rewrite Eq. apply Qle_shift_div_l; [exact Hd|].
    apply Qle_trans with (pow2 a); [|exact Qa1].
    replace a with ((a - b - 1) + (b + 1))%Z at 2 by lia. rewrite pow2_add.
    apply Qmult_le_l; [apply pow2_pos | now apply Qlt_le_weak]. }
  destruct (Qle_bool (pow2 (a - b)) (n # d)) eqn:E.
  - apply Qle_bool_iff in E. split; assumption.
  - replace (a - b - 1 + 1)%Z with (a - b)%Z by lia. split; [exact Lo|].
    apply Qnot_le_lt. intro H. apply Qle_bool_iff in H. congruence.
Qed.

Lemma floor_log2_unique (q : Q) (k : Z) :
  pow2 k <= q -> q < pow2 (k + 1) -> floor_log2 q = k.
Proof.
  intros H1 H2.
  assert (Hq : 0 < q) by (eapply Qlt_le_trans; [apply (pow2_pos k) | exact H1]).
  destruct (floor_log2_spec q Hq) as [S1 S2].
  assert (floor_log2 q < k + 1)%Z.
  { apply pow2_lt_inv. eapply Qle_lt_trans; [exact S1 | exact H2]. }
  assert (k < floor_log2 q + 1)%Z.
  { apply pow2_lt_inv. eapply Qle_lt_trans; [exact H1 | exact S2]. }
  lia.
Qed.

Lemma floor_log2_comp (p q : Q) : 0 < p -> p == q -> floor_log2 p = floor_log2 q.
Proof.
  intros Hp E. destruct (floor_log2_spec p Hp) as [S1 S2].
  symmetry. apply floor_log2_unique; rewrite <- E; assumption.
Qed.

Lemma floor_log2_le (p q : Q) : 0 < p -> p <= q -> (floor_log2 p <= floor_log2 q)%Z.
Proof.
  intros Hp H.
  assert (Hq : 0 < q) by (eapply Qlt_le_trans; eassumption).
  destruct (floor_log2_spec p Hp) as [S1 _].
  destruct (floor_log2_spec q Hq) as [_ T2].
  assert (floor_log2 p < floor_log2 q + 1)%Z; [|lia].
  apply pow2_lt_inv. eapply Qle_lt_trans; [exact S1|].
  eapply Qle_lt_trans; eassumption.
Qed.

Lemma floor_log2_lt_pow2 (q : Q) (k : Z) : 0 < q -> q < pow2 k -> (floor_log2 q < k)%Z.
Proof.
  intros Hq H. destruct (floor_log2_spec q Hq) as [S1 _].
  apply pow2_lt_inv. eapply Qle_lt_trans; eassumption.
Qed.

Lemma floor_log2_ge_pow2 (q : Q) (k : Z) : pow2 k <= q -> (k <= floor_log2 q)%Z.
Proof.
  intros H.
  assert (Hq : 0 < q) by (eapply Qlt_le_trans; [apply (pow2_pos k) | exact H]).
  destruct (floor_log2_spec q Hq) as [_ S2].
  assert (k < floor_log2 q + 1)%Z; [|lia].
  apply pow2_lt_inv. eapply Qle_lt_trans; eassumption.
Qed.


(** Rounding to the nearest integer keeps the order and sits between
    the integers around its argument. *)
Lemma round_half_even_range (x : Q) :
  (Qfloor x <= Float.round_half_even x <= Qfloor x + 1)%Z.
Proof.
  unfold Float.round_half_even.
  destruct (Qcompare _ _); [destruct (Z.even _)| |]; lia.
Qed.

Lemma round_half_even_le (x y : Q) :
  x <= y -> (Float.round_half_even x <= Float.round_half_even y)%Z.
Proof.
  intro H.
  pose proof (Qfloor_resp_le x y H) as Hf.
  pose proof (round_half_even_range x) as Rx.
  pose proof (round_half_even_range y) as Ry.
  destruct (Z.eq_dec (Qfloor x) (Qfloor y)) as [E|N]; [|lia].
  unfold Float.round_half_even. rewrite E.
  destruct (Qcompare_spec (x - inject_Z (Qfloor y)) (1 # 2)) as [Ex|Ex|Ex];
    destruct (Qcompare_spec (y - inject_Z (Qfloor y)) (1 # 2)) as [Ey|Ey|Ey];
    try destruct (Z.even (Qfloor y)); try lia; exfalso; lra.
Qed.

Lemma round_half_even_ge (x : Q) (n : Z) :
  inject_Z n <= x -> (n <= Float.round_half_even x)%Z.
Proof.
  intro H. rewrite <- (round_half_even_inject n). now apply round_half_even_le.
Qed.

Lemma round_half_even_le_Z (x : Q) (n : Z) :
  x <= inject_Z n -> (Float.round_half_even x <= n)%Z.
Proof.
  intro H. pose proof (round_half_even_le x (inject_Z n) H) as L.
  now rewrite round_half_even_inject in L.
Qed.


Lemma ulp_exponent_comp (a b : Q) : 0 < a -> a == b -> ulp_exponent a = ulp_exponent b.
Proof. intros Ha E. unfold ulp_exponent. now rewrite (floor_log2_comp a b Ha E). Qed.

Lemma nearest_comp (a b : Q) : 0 < a -> a == b -> nearest a = nearest b.
Proof.
  intros Ha E. unfold nearest. rewrite (ulp_exponent_comp a b Ha E).
  assert (E' : a / pow2 (ulp_exponent b) == b / pow2 (ulp_exponent b)) by now rewrite E.
  now rewrite (round_half_even_comp _ _ E').
Qed.

(** The scaled argument stays below [2^53], and reaches [2^52] once
    the argument is in the normal range. *)
Lemma scaled_lt (a : Q) : 0 < a -> a / pow2 (ulp_exponent a) < inject_Z (2 ^ 53).
Proof.
  intro Ha. destruct (floor_log2_spec a Ha) as [_ H2].
  apply Qlt_shift_div_r; [apply pow2_pos|].
  eapply Qlt_le_trans; [exact H2|].
  rewrite <- (pow2_Z 53) by lia. rewrite <- pow2_add.
  apply pow2_le. unfold ulp_exponent. lia.
Qed.

Lemma scaled_ge (a : Q) :
  0 < a -> (emin <= floor_log2 a - 52)%Z ->
  inject_Z (2 ^ 52) <= a / pow2 (ulp_exponent a).
Proof.
  intros Ha He. destruct (floor_log2_spec a Ha) as [H1 _].
  apply Qle_shift_div_l; [apply pow2_pos|].
  eapply Qle_trans; [|exact H1].
  rewrite <- (pow2_Z 52) by lia. rewrite <- pow2_add.
  apply pow2_le. unfold ulp_exponent. lia.
Qed.

Lemma scaled_pos (a : Q) : 0 < a -> 0 < a / pow2 (ulp_exponent a).
Proof. intro Ha. apply Qlt_shift_div_l; [apply pow2_pos | lra]. Qed.

Lemma nearest_mantissa (a : Q) :
  0 < a ->
  (0 <= Float.round_half_even (a / pow2 (ulp_exponent a)) <= 2 ^ 53)%Z.
Proof.
  intro Ha. split.
  - apply round_half_even_ge. apply Qlt_le_weak. now apply scaled_pos.
  - apply round_half_even_le_Z. apply Qlt_le_weak. now apply scaled_lt.
Qed.

Lemma nearest_mantissa_normal (a : Q) :
  0 < a -> (emin <= floor_log2 a - 52)%Z ->
  (2 ^ 52 <= Float.round_half_even (a / pow2 (ulp_exponent a)))%Z.
Proof. intros Ha He. apply round_half_even_ge. now apply scaled_ge. Qed.

Lemma nearest_nonneg (a : Q) : 0 < a -> 0 <= nearest a.
Proof.
  intro Ha. unfold nearest. apply Qmult_le_0_compat.
  - change 0 with (inject_Z 0). rewrite <- Zle_Qle. apply (nearest_mantissa a Ha).
  - apply Qlt_le_weak, pow2_pos.
Qed.

(** A value with at most 53 significant bits above [2^emin] is its
    own rounding. *)
Lemma nearest_dyadic (a : Q) (mant ex : Z) :
  a == inject_Z mant * pow2 ex -> (0 < mant < 2 ^ 53)%Z -> (emin <= ex)%Z ->
  nearest a == a.
Proof.
  intros E Hm Hx.
  assert (Ha : 0 < a).
  { rewrite E. apply Qmult_lt_0_compat; [apply inject_Z_pos; lia | apply pow2_pos]. }
  assert (He : (ulp_exponent a <= ex)%Z).
  { unfold ulp_exponent.
    assert (floor_log2 a < ex + 53)%Z; [|lia].
    apply floor_log2_lt_pow2; [exact Ha|].
    rewrite E. replace (ex + 53)%Z with (53 + ex)%Z by lia. rewrite pow2_add.
    apply Qmult_lt_r; [apply pow2_pos|].
    rewrite pow2_Z by lia. rewrite <- Zlt_Qlt. lia. }
  unfold nearest.
  set (e := ulp_exponent a) in *.
  assert (Ex : a / pow2 e == inject_Z (mant * 2 ^ (ex - e))).
  { rewrite E. replace ex with ((ex - e) + e)%Z at 1 by lia.
    rewrite pow2_add, inject_Z_mult, (pow2_Z (ex - e)) by lia.
    field. apply Qnot_eq_sym, Qlt_not_eq, pow2_pos. }
  rewrite (round_half_even_comp _ _ Ex), round_half_even_inject.
  rewrite <- Ex. field. apply Qnot_eq_sym, Qlt_not_eq, pow2_pos.
Qed.

(** Rounding keeps the order. *)
Lemma nearest_le (a b : Q) : 0 < a -> a <= b -> nearest a <= nearest b.
Proof.
  intros Ha H.
  assert (Hb : 0 < b) by (eapply Qlt_le_trans; eassumption).
  pose proof (floor_log2_le a b Ha H) as Hl.
  unfold nearest.
  destruct (Z.eq_dec (ulp_exponent a) (ulp_exponent b)) as [E|N].
  - rewrite E. apply Qmult_le_compat_r; [|apply Qlt_le_weak, pow2_pos].
    rewrite <- Zle_Qle. apply round_half_even_le.
    apply Qmult_le_compat_r; [exact H|].
    apply Qlt_le_weak, Qinv_lt_0_compat, pow2_pos.
  - assert (Hlt : (ulp_exponent a < ulp_exponent b)%Z)
      by (unfold ulp_exponent in *; lia).
    assert (Hn : (emin <= floor_log2 b - 52)%Z)
      by (unfold ulp_exponent in *; lia).
    pose proof (nearest_mantissa a Ha) as [_ Ma].
    pose proof (nearest_mantissa_normal b Hb Hn) as Mb.
    apply Qle_trans with (inject_Z (2 ^ 53) * pow2 (ulp_exponent a)).
    { apply Qmult_le_compat_r; [|apply Qlt_le_weak, pow2_pos].
      now rewrite <- Zle_Qle. }
    apply Qle_trans with (inject_Z (2 ^ 52) * pow2 (ulp_exponent b)).
    { rewrite <- (pow2_Z 53), <- (pow2_Z 52) by lia. rewrite <- !pow2_add.
      apply pow2_le. lia. }
    apply Qmult_le_compat_r; [|apply Qlt_le_weak, pow2_pos].
    now rewrite <- Zle_Qle.
Qed.


Lemma is_negative_true (q : Q) : is_negative q = true <-> q < 0.
Proof.
  unfold is_negative. rewrite negb_true_iff. split; intro H.
  - apply Qnot_le_lt. intro L. apply Qle_bool_iff in L. congruence.
  - destruct (Qle_bool 0 q) eqn:E; [|reflexivity].
    apply Qle_bool_iff in E. lra.
Qed.

Lemma is_negative_false (q : Q) : is_negative q = false <-> 0 <= q.
Proof.
  unfold is_negative. rewrite negb_false_iff. apply Qle_bool_iff.
Qed.

Lemma is_negative_comp (p q : Q) : p == q -> is_negative p = is_negative q.
Proof. intro E. unfold is_negative. now rewrite (Qleb_comp 0 0 (Qeq_refl 0) p q E). Qed.

Lemma signed_abs (q : Q) : signed (is_negative q) (Qabs q) == q.
Proof.
  destruct (is_negative q) eqn:E; simpl.
  - apply is_negative_true in E. rewrite Qabs_neg by lra. ring.
  - apply is_negative_false in E. now rewrite Qabs_pos.
Qed.

Lemma abs_signed (s : bool) (a : Q) : 0 <= a -> Qabs (signed s a) == a.
Proof.
  intro H. destruct s; unfold signed.
  - rewrite Qabs_opp. now apply Qabs_pos.
  - now apply Qabs_pos.
Qed.

Lemma Qabs_pos_lt (q : Q) : ~ q == 0 -> 0 < Qabs q.
Proof.
  intro N. destruct (Qlt_le_dec 0 q) as [H|H].
  - rewrite Qabs_pos; lra.
  - rewrite Qabs_neg by exact H.
    destruct (Qeq_dec q 0) as [E|E]; [contradiction|].
    assert (q < 0); [|lra]. apply Qle_lteq in H. tauto.
Qed.

(** The rounding of a rational, by cases. *)
Lemma round_zero (q : Q) : q == 0 -> round q = Finite 0.
Proof. intro E. unfold round. now rewrite (Qeq_eq_bool _ _ E). Qed.

Lemma round_nonzero (q : Q) :
  ~ q == 0 ->
  round q =
    if Qle_bool (pow2 emax) (nearest (Qabs q)) then Inf (is_negative q)
    else Finite (Qred (signed (is_negative q) (nearest (Qabs q)))).
Proof.
  intro N. unfold round.
  destruct (Qeq_bool q 0) eqn:E; [|reflexivity].
  apply Qeq_bool_eq in E. contradiction.
Qed.

(** Rounding depends on the value only, not on the fraction that
    denotes it. *)
Lemma round_comp (p q : Q) : p == q -> round p = round q.
Proof.
  intro E. destruct (Qeq_dec p 0) as [Z|N].
  - rewrite (round_zero p Z). symmetry. apply round_zero. now rewrite <- E.
  - assert (N' : ~ q == 0) by now rewrite <- E.
    rewrite (round_nonzero p N), (round_nonzero q N').
    rewrite (nearest_comp (Qabs p) (Qabs q) (Qabs_pos_lt p N) (Qabs_wd p q E)).
    now rewrite (is_negative_comp p q E).
Qed.

Lemma dyadic_comp (p q : Q) : p == q -> dyadic p -> dyadic q.
Proof.
  intros E (m & e & H & Hm & He). exists m, e. split; [now rewrite <- E | tauto].
Qed.

Lemma dyadic_abs (q : Q) : dyadic q -> ~ q == 0 ->
  exists mant ex, Qabs q == inject_Z mant * pow2 ex /\ (0 < mant < 2 ^ 53)%Z /\ (emin <= ex)%Z.
Proof.
  intros (m & e & H & Hm & He) N.
  exists (Z.abs m), e. split; [|split; [|exact He]].
  - rewrite H, Qabs_Qmult. rewrite (Qabs_pos (pow2 e)) by apply Qlt_le_weak, pow2_pos.
    apply Qmult_comp; [|reflexivity]. unfold Qabs, inject_Z. reflexivity.
  - assert (m <> 0%Z); [|lia].
    intro Z. apply N. rewrite H, Z. ring.
Qed.

(** The value of a double rounds to itself, unless it is out of range. *)
Lemma round_exact (q : Q) :
  dyadic q ->
  round q = if Qle_bool (pow2 emax) (Qabs q) then Inf (is_negative q)
            else Finite (Qred q).
Proof.
  intro D. destruct (Qeq_dec q 0) as [Z|N].
  - rewrite (round_zero q Z).
    assert (E : Qle_bool (pow2 emax) (Qabs q) = false).
    { rewrite (Qleb_comp _ _ (Qeq_refl _) _ _ (Qabs_wd q 0 Z)). reflexivity. }
    rewrite E. now rewrite (Qred_complete q 0 Z).
  - rewrite (round_nonzero q N).
    destruct (dyadic_abs q D N) as (m & e & H & Hm & He).
    pose proof (nearest_dyadic (Qabs q) m e H Hm He) as E.
    rewrite (Qleb_comp _ _ (Qeq_refl (pow2 emax)) _ _ E).
    destruct (Qle_bool (pow2 emax) (Qabs q)); [reflexivity|].
    f_equal. apply Qred_complete.
    transitivity (signed (is_negative q) (Qabs q)); [|apply signed_abs].
    destruct (is_negative q); simpl; now rewrite E.
Qed.

(** What rounding returns is a double. *)
Lemma nearest_form (a : Q) :
  0 < a ->
  exists mant ex, nearest a == inject_Z mant * pow2 ex
                  /\ (0 <= mant < 2 ^ 53)%Z /\ (emin <= ex)%Z.
Proof.
  intro Ha. pose proof (nearest_mantissa a Ha) as [M0 M1].
  destruct (Z.eq_dec (Float.round_half_even (a / pow2 (ulp_exponent a))) (2 ^ 53))
    as [E|N].
  - exists (2 ^ 52)%Z, (ulp_exponent a + 1)%Z. split; [|split].
    + unfold nearest. rewrite E, pow2_add.
      rewrite <- (pow2_Z 53), <- (pow2_Z 52) by lia.
      setoid_replace (pow2 1) with 2 by reflexivity.
      setoid_replace (pow2 53) with (pow2 52 * 2); [ring|].
      change 53%Z with (52 + 1)%Z. now rewrite pow2_add.
    + lia.
    + unfold ulp_exponent. lia.
  - exists (Float.round_half_even (a / pow2 (ulp_exponent a))), (ulp_exponent a).
    split; [reflexivity|]. split; [lia|]. unfold ulp_exponent. lia.
Qed.

Lemma round_finite (q v : Q) :
  round q = Finite v -> dyadic v /\ Qabs v < pow2 emax.
Proof.
  intro H. destruct (Qeq_dec q 0) as [Z|N].
  - rewrite (round_zero q Z) in H. injection H as <-. split; [|reflexivity].
    exists 0%Z, 0%Z. split; [reflexivity|]. split; [reflexivity | discriminate].
  - rewrite (round_nonzero q N) in H.
    destruct (Qle_bool (pow2 emax) (nearest (Qabs q))) eqn:O; [discriminate H|].
    injection H as <-.
    destruct (nearest_form (Qabs q) (Qabs_pos_lt q N)) as (m & e & Hf & Hm & He).
    assert (O' : nearest (Qabs q) < pow2 emax).
    { apply Qnot_le_lt. intro L. apply Qle_bool_iff in L. congruence. }
    pose proof (nearest_nonneg (Qabs q) (Qabs_pos_lt q N)) as P.
    split.
    + apply (dyadic_comp (signed (is_negative q) (nearest (Qabs q))));
        [symmetry; apply Qred_correct|].
      destruct (is_negative q); simpl.
      * exists (- m)%Z, e. split; [|split; [lia | exact He]].
        rewrite Hf, inject_Z_opp. ring.
      * exists m, e. split; [exact Hf|]. split; [lia | exact He].
    + assert (A : Qabs (Qred (signed (is_negative q) (nearest (Qabs q))))
                  == nearest (Qabs q)).
      { rewrite (Qabs_wd _ _ (Qred_correct _)). now apply abs_signed. }
      now rewrite A.
Qed.

Lemma representable_spec (v : Q) :
  representable v = true <-> dyadic v /\ Qabs v < pow2 emax.
Proof.
  unfold representable. split.
  - destruct (round v) as [u| |] eqn:R; try discriminate.
    intro E. apply Qeq_bool_eq in E.
    destruct (round_finite v u R) as [D B]. split.
    + exact (dyadic_comp u v E D).
    + now rewrite <- E.
  - intros [D B]. rewrite (round_exact v D).
    assert (O : Qle_bool (pow2 emax) (Qabs v) = false).
    { destruct (Qle_bool (pow2 emax) (Qabs v)) eqn:O; [|reflexivity].
      apply Qle_bool_iff in O. lra. }
    rewrite O. apply Qeq_eq_bool, Qred_correct.
Qed.

Lemma round_representable (v : Q) :
  representable v = true -> round v = Finite (Qred v).
Proof.
  intro H. apply representable_spec in H. destruct H as [D B].
  rewrite (round_exact v D).
  destruct (Qle_bool (pow2 emax) (Qabs v)) eqn:O; [|reflexivity].
  apply Qle_bool_iff in O. lra.
Qed.


Lemma round_pos (q : Q) :
  0 < q ->
  round q = if Qle_bool (pow2 emax) (nearest q) then Inf false
            else Finite (Qred (nearest q)).
Proof.
  intro H. rewrite round_nonzero by lra.
  assert (A : Qabs q == q) by (apply Qabs_pos; lra).
  rewrite (nearest_comp (Qabs q) q) by (rewrite ?A; lra).
  assert (S : is_negative q = false) by (apply is_negative_false; lra).
  now rewrite S.
Qed.

Lemma round_neg (q : Q) :
  q < 0 ->
  round q = if Qle_bool (pow2 emax) (nearest (- q)) then Inf true
            else Finite (Qred (- nearest (- q))).
Proof.
  intro H. rewrite round_nonzero by lra.
  assert (A : Qabs q == - q) by (apply Qabs_neg; lra).
  rewrite (nearest_comp (Qabs q) (- q)) by (rewrite ?A; lra).
  assert (S : is_negative q = true) by (apply is_negative_true; lra).
  now rewrite S.
Qed.

Lemma Qle_bool_false (a b : Q) : Qle_bool a b = false <-> b < a.
Proof.
  split; intro H.
  - apply Qnot_le_lt. intro L. apply Qle_bool_iff in L. congruence.
  - destruct (Qle_bool a b) eqn:E; [|reflexivity]. apply Qle_bool_iff in E. lra.
Qed.

(** The sign of a rounding. *)
Lemma round_nonneg (q : Q) :
  0 <= q -> round q = Inf false \/ exists v, round q = Finite v /\ 0 <= v.
Proof.
  intro H. destruct (Qeq_dec q 0) as [Z|N].
  - right. exists 0. split; [now apply round_zero | lra].
  - assert (P : 0 < q).
    { apply Qle_lteq in H. destruct H as [H|H]; [exact H|]. exfalso. apply N. now symmetry. }
    rewrite (round_pos q P).
    destruct (Qle_bool (pow2 emax) (nearest q)); [now left|].
    right. eexists. split; [reflexivity|].
    rewrite Qred_correct. now apply nearest_nonneg.
Qed.

Lemma round_nonpos (q : Q) :
  q <= 0 -> round q = Inf true \/ exists v, round q = Finite v /\ v <= 0.
Proof.
  intro H. destruct (Qeq_dec q 0) as [Z|N].
  - right. exists 0. split; [now apply round_zero | lra].
  - assert (P : q < 0).
    { apply Qle_lteq in H. destruct H as [H|H]; [exact H | contradiction]. }
    rewrite (round_neg q P).
    destruct (Qle_bool (pow2 emax) (nearest (- q))); [now left|].
    right. eexists. split; [reflexivity|].
    rewrite Qred_correct.
    assert (0 <= nearest (- q)) by (apply nearest_nonneg; lra). lra.
Qed.

(** Rounding keeps the order, infinities included. *)
Lemma round_le (p q : Q) : p <= q -> le (round p) (round q) = true.
Proof.
  intro H.
  destruct (Qlt_le_dec 0 p) as [Pp|Pp].
  - assert (Pq : 0 < q) by lra.
    rewrite (round_pos p Pp), (round_pos q Pq).
    pose proof (nearest_le p q Pp H) as L.
    destruct (Qle_bool (pow2 emax) (nearest q)) eqn:Oq.
    + now destruct (Qle_bool (pow2 emax) (nearest p)).
    + apply Qle_bool_false in Oq.
      assert (Op : Qle_bool (pow2 emax) (nearest p) = false)
        by (apply Qle_bool_false; lra).
      rewrite Op. cbn [le]. apply Qle_bool_iff. now rewrite !Qred_correct.
  - destruct (Qlt_le_dec q 0) as [Nq|Nq].
    + assert (Np : p < 0) by lra.
      rewrite (round_neg p Np), (round_neg q Nq).
      assert (L : nearest (- q) <= nearest (- p)) by (apply nearest_le; lra).
      destruct (Qle_bool (pow2 emax) (nearest (- p))) eqn:Op.
      * now destruct (Qle_bool (pow2 emax) (nearest (- q))).
      * apply Qle_bool_false in Op.
        assert (Oq : Qle_bool (pow2 emax) (nearest (- q)) = false)
          by (apply Qle_bool_false; lra).
        rewrite Oq. cbn [le]. apply Qle_bool_iff. rewrite !Qred_correct. lra.
    + destruct (round_nonpos p Pp) as [-> | (u & -> & Hu)];
        destruct (round_nonneg q Nq) as [-> | (v & -> & Hv)]; cbn [le];
        try reflexivity.
      apply Qle_bool_iff. lra.
Qed.

Lemma round_dyadic (v : Q) :
  dyadic v -> Qabs v < pow2 emax -> round v = Finite (Qred v).
Proof.
  intros D B. rewrite (round_exact v D).
  destruct (Qle_bool (pow2 emax) (Qabs v)) eqn:O; [|reflexivity].
  apply Qle_bool_iff in O. lra.
Qed.

Lemma dyadic_small_int (n : Z) : (Z.abs n < 2 ^ 53)%Z -> dyadic (inject_Z n).
Proof.
  intro H. exists n, 0%Z. split; [|split; [exact H | discriminate]].
  setoid_replace (pow2 0) with 1 by reflexivity. ring.
Qed.

Lemma pow2_53_lt_emax : inject_Z (2 ^ 53) < pow2 emax.
Proof. rewrite <- (pow2_Z 53) by lia. apply pow2_lt. reflexivity. Qed.

Lemma Qabs_inject_Z (n : Z) : Qabs (inject_Z n) == inject_Z (Z.abs n).
Proof. reflexivity. Qed.

Lemma round_small_int (n : Z) :
  (Z.abs n < 2 ^ 53)%Z -> round (inject_Z n) = Finite (Qred (inject_Z n)).
Proof.
  intro H. apply round_dyadic; [now apply dyadic_small_int|].
  rewrite Qabs_inject_Z. eapply Qlt_trans; [|apply pow2_53_lt_emax].
  now rewrite <- Zlt_Qlt.
Qed.

Lemma of_int_small (n : Z) :
  (Z.abs n < 2 ^ 53)%Z -> of_int n = Ok (Finite (Qred (inject_Z n))).
Proof. intro H. unfold of_int. now rewrite (round_small_int n H). Qed.

End DoubleRounding.

(** ** Bitrate allocator over doubles *)

Section DoubleAllocator.

Import Double.
Local Open Scope Q_scope.

Lemma dyadic_scale (q : Q) (k : Z) :
  dyadic q -> (0 <= k)%Z -> dyadic (q * inject_Z (2 ^ k)).
Proof.
  intros (m & e & H & Hm & He) Hk. exists m, (e + k)%Z.
  split; [|split; [exact Hm | lia]].
  rewrite H, pow2_add, (pow2_Z k Hk). ring.
Qed.

(** Scaling a double by a power of two is exact, so two scalings in a
    row are one. *)
Lemma mul_pow2_round (q : Q) (k : Z) :
  dyadic q -> (0 <= k)%Z ->
  mul (round q) (Finite (inject_Z (2 ^ k))) = round (q * inject_Z (2 ^ k)).
Proof.
  intros D Hk.
  assert (P : 0 < inject_Z (2 ^ k)) by (apply inject_Z_pos; lia).
  rewrite (round_exact q D).
  destruct (Qle_bool (pow2 emax) (Qabs q)) eqn:O.
  - cbn [mul].
    assert (Z : Qeq_bool (inject_Z (2 ^ k)) 0 = false).
    { destruct (Qeq_bool (inject_Z (2 ^ k)) 0) eqn:E; [|reflexivity].
      apply Qeq_bool_eq in E. lra. }
    assert (S : is_negative (inject_Z (2 ^ k)) = false)
      by (apply is_negative_false; lra).
    rewrite Z, S, xorb_false_r.
    rewrite (round_exact _ (dyadic_scale q k D Hk)).
    apply Qle_bool_iff in O.
    assert (O' : Qle_bool (pow2 emax) (Qabs (q * inject_Z (2 ^ k))) = true).
    { apply Qle_bool_iff. rewrite Qabs_Qmult, (Qabs_pos (inject_Z (2 ^ k))) by lra.
      assert (1 <= inject_Z (2 ^ k)).
      { change 1 with (inject_Z 1). rewrite <- Zle_Qle. lia. }
      assert (0 <= Qabs q) by apply Qabs_nonneg. nra. }
    rewrite O'. f_equal.
    destruct (is_negative q) eqn:Sq.
    + apply is_negative_true in Sq. symmetry. apply is_negative_true. nra.
    + apply is_negative_false in Sq. symmetry. apply is_negative_false. nra.
  - cbn [mul]. apply round_comp. now rewrite Qred_correct.
Qed.

Lemma target_bits_fold (mb : Q) :
  representable mb = true ->
  mul (mul (mul (Finite mb) (Finite 1024)) (Finite 1024)) (Finite 8)
  = mul (Finite mb) (Finite 8388608).
Proof.
  intro R. apply representable_spec in R. destruct R as [D _].
  change (mul (Finite mb) (Finite 1024)) with (round (mb * inject_Z (2 ^ 10))).
  change (Finite 1024) with (Finite (inject_Z (2 ^ 10))).
  change (Finite 8) with (Finite (inject_Z (2 ^ 3))).
  rewrite (mul_pow2_round _ 10) by (try apply dyadic_scale; (exact D || lia)).
  rewrite (mul_pow2_round _ 3) by (repeat apply dyadic_scale; (exact D || lia)).
  cbn [mul]. apply round_comp.
  change (inject_Z (2 ^ 10)) with 1024. change (inject_Z (2 ^ 3)) with 8. ring.
Qed.

Lemma of_int_cases (z : Z) :
  of_int z = Raise OverflowError
  \/ exists v, of_int z = Ok (Finite v) /\ round (inject_Z z) = Finite v.
Proof.
  unfold of_int. destruct (round (inject_Z z)) as [v|s|] eqn:E.
  - right. now exists v.
  - now left.
  - exfalso. unfold round in E.
    destruct (Qeq_bool _ _); [discriminate|].
    destruct (Qle_bool _ _); discriminate.
Qed.

(** The two-sided clamp is [max] after [min] when the bounds are in
    order. *)
Ltac split_compare :=
  repeat first
    [ progress cbn [negb andb orb xorb]
    | match goal with
      | |- context [Qle_bool ?a ?b] =>
          let E := fresh "E" in
          destruct (Qle_bool a b) eqn:E;
          [apply Qle_bool_iff in E | apply Qle_bool_false in E]
      end ].

Lemma clamp_max_min (x lower upper : float) :
  le lower upper = true -> max (min x upper) lower = clamp x lower upper.
Proof.
  intro H. unfold max, min, clamp.
  destruct x as [x|sx|], lower as [l|sl|], upper as [u|su|]; cbn [le lt] in *;
    try discriminate H;
    repeat match goal with
           | s : bool |- _ => destruct s
           end; cbn [negb andb orb] in *; try discriminate H; try reflexivity;
    try apply Qle_bool_iff in H;
    split_compare; cbn [lt]; split_compare; try reflexivity; exfalso; lra.
Qed.

Lemma bounds_in_order (mn mx : Z) (clip lo hi : Q) :
  0 < clip -> (mn <= mx)%Z ->
  round (inject_Z (mn * 1000)) = Finite lo ->
  round (inject_Z (mx * 1000)) = Finite hi ->
  le (mul (Finite lo) (Finite clip)) (mul (Finite hi) (Finite clip)) = true.
Proof.
  intros Hc Hb Rl Rh.
  assert (L : le (round (inject_Z (mn * 1000))) (round (inject_Z (mx * 1000))) = true).
  { apply round_le. rewrite <- Zle_Qle. lia. }
  rewrite Rl, Rh in L. cbn [le] in L. apply Qle_bool_iff in L.
  cbn [mul]. apply round_le. nra.
Qed.

(** C1, as amended: for every [clip_seconds > 0] and every double
    [target_size_mb > 0] (and a floor not above the ceiling),
    [compute_target_bitrates] is the allocation of the specification
    with [int] truncation in the place of [round], every step a double
    operation: target bits [mb * 8388608 * overhead], the audio guess
    clamped to the floor and ceiling totals, [audio_kbps] the truncated
    quotient clamped to the bounds, the video bits floored at 1000000,
    [video_kbps] the truncated quotient floored at 100; a quotient that
    is infinite or NaN raises on either side. *)
Theorem compute_target_bitrates_truncates
    (clip mb : Q) (mn mx : Z) (ov : float) :
  0 < clip -> 0 < mb -> representable mb = true -> (mn <= mx)%Z ->
  compute_target_bitrates (Finite clip) (Finite mb) mn mx ov
  = allocate_spec to_int (Finite clip) (Finite mb) mn mx ov.
Proof.
  intros Hc _ Hr Hb. unfold compute_target_bitrates, allocate_spec.
  rewrite (target_bits_fold mb Hr).
  set (target_bits := mul (mul (Finite mb) (Finite 8388608)) ov).
  assert (El : literal (10 # 100) = literal (1 # 10)) by (apply round_comp; reflexivity).
  rewrite El.
  destruct (of_int_cases (mx * 1000)) as [Eh | (hi & Eh & Rh)];
    destruct (of_int_cases (mn * 1000)) as [Elo | (lo & Elo & Rl)];
    rewrite Eh, Elo; cbn [bind]; try reflexivity.
  rewrite (clamp_max_min _ _ _ (bounds_in_order mn mx clip lo hi Hc Hb Rl Rh)).
  destruct (div _ (Finite 1000)) as [q1|e1]; cbn [bind]; [|reflexivity].
  destruct (div q1 (Finite clip)) as [q2|e2]; cbn [bind]; [|reflexivity].
  destruct (to_int q2) as [a|e3]; cbn [bind]; [|reflexivity].
  now rewrite (clampZ_max_min a mn mx Hb).
Qed.

Lemma compute_target_bitrates_truncates_witness :
  compute_target_bitrates
    (Finite (8286623314361713 # 36028797018963968)) (Finite 1) 48 160
    (literal (98 # 100))
  = allocate_spec to_int
      (Finite (8286623314361713 # 36028797018963968)) (Finite 1) 48 160
      (literal (98 # 100)).
Proof.
  apply compute_target_bitrates_truncates;
    [reflexivity | reflexivity | vm_compute; reflexivity | lia].
Defined.

(** C1 as stated fails: with arithmetic rounding in the last step a
    one-second clip of one megabyte would get 8061 kbit/s of video; the
    code truncates the quotient, a double near 8060.83584, to 8060. *)
Lemma compute_target_bitrates_not_rounding :
  compute_target_bitrates (Finite 1) (Finite 1) 48 160 (literal (98 # 100))
    = Ok (8060, 160)%Z
  /\ allocate_spec nearest_int (Finite 1) (Finite 1) 48 160 (literal (98 # 100))
       = Ok (8061, 160)%Z
  /\ compute_target_bitrates (Finite 1) (Finite 1) 48 160 (literal (98 # 100))
       <> allocate_spec nearest_int (Finite 1) (Finite 1) 48 160 (literal (98 # 100)).
Proof.
  split; [vm_compute; reflexivity|]. split; [vm_compute; reflexivity|].
  vm_compute. intro H. discriminate H.
Qed.

Lemma div_nonzero (x y : float) :
  is_zero y = false -> exists q, div x y = Ok q.
Proof. intro Z. unfold div. rewrite Z. eauto. Qed.

Lemma to_int_error (x : float) (e : exn) :
  to_int x = Raise e -> e <> ZeroDivisionError.
Proof. destruct x; cbn [to_int]; intro H; inversion H; discriminate. Qed.

(** The allocator raises [ZeroDivisionError] exactly when the clip
    length is zero (with audio bounds that convert exactly): no other
    input divides by zero, whatever else it may raise, and a negative
    length is not refused. *)
Theorem compute_target_bitrates_raises_iff_zero
    (clip mb : float) (mn mx : Z) (ov : float) :
  (is_zero clip = true ->
   (Z.abs (mn * 1000) < 2 ^ 53)%Z -> (Z.abs (mx * 1000) < 2 ^ 53)%Z ->
   compute_target_bitrates clip mb mn mx ov = Raise ZeroDivisionError)
  /\ (compute_target_bitrates clip mb mn mx ov = Raise ZeroDivisionError ->
      is_zero clip = true).
Proof.
  split.
  - intros Z Hn Hx. unfold compute_target_bitrates.
    rewrite (of_int_small (mx * 1000) Hx), (of_int_small (mn * 1000) Hn).
    cbn [bind].
    match goal with
    | |- context [div ?x (Finite 1000)] =>
        destruct (div_nonzero x (Finite 1000) eq_refl) as (q & ->)
    end.
    cbn [bind]. unfold div. now rewrite Z.
  - intro H. destruct (is_zero clip) eqn:Z; [reflexivity|]. exfalso.
    unfold compute_target_bitrates in H.
    destruct (of_int_cases (mx * 1000)) as [E | (hi & E & _)]; rewrite E in H;
      cbn [bind] in H; [discriminate H|].
    destruct (of_int_cases (mn * 1000)) as [E' | (lo & E' & _)]; rewrite E' in H;
      cbn [bind] in H; [discriminate H|].
    match type of H with
    | context [div ?x (Finite 1000)] =>
        destruct (div_nonzero x (Finite 1000) eq_refl) as (q1 & E1);
        rewrite E1 in H; cbn [bind] in H
    end.
    destruct (div_nonzero q1 clip Z) as (q2 & E2). rewrite E2 in H. cbn [bind] in H.
    destruct (to_int q2) as [a|e] eqn:Ea; cbn [bind] in H;
      [|injection H as ->; exact (to_int_error _ _ Ea eq_refl)].
    destruct (of_int_cases (Z.max (Z.min a mx) mn * 1000)) as [E3 | (sp & E3 & _)];
      rewrite E3 in H; cbn [bind] in H; [discriminate H|].
    match type of H with
    | context [div ?x (Finite 1000)] =>
        destruct (div_nonzero x (Finite 1000) eq_refl) as (q3 & E4);
        rewrite E4 in H; cbn [bind] in H
    end.
    destruct (div_nonzero q3 clip Z) as (q4 & E5). rewrite E5 in H. cbn [bind] in H.
    destruct (to_int q4) as [v|e] eqn:Ev; cbn [bind] in H;
      [discriminate H | injection H as ->; exact (to_int_error _ _ Ev eq_refl)].
Qed.

Lemma compute_target_bitrates_raises_iff_zero_witness :
  compute_target_bitrates (Finite 0) (Finite 10) 48 160 (literal (98 # 100))
    = Raise ZeroDivisionError
  /\ is_zero (Finite 0) = true.
Proof.
  split.
  - apply (proj1 (compute_target_bitrates_raises_iff_zero
                    (Finite 0) (Finite 10) 48 160 (literal (98 # 100))));
      [reflexivity | reflexivity | reflexivity].
  - apply (proj2 (compute_target_bitrates_raises_iff_zero
                    (Finite 0) (Finite 10) 48 160 (literal (98 # 100)))).
    vm_compute. reflexivity.
Defined.

End DoubleAllocator.

(** ** Downscale advisor over doubles *)

Section DoubleAdvisor.

Import Double.
Local Open Scope Q_scope.

(** The halves of a double that is not negative: the whole part of its
    half, twice that, and the rest are doubles again. *)
Lemma half_parts (x : Q) :
  0 <= x -> dyadic x ->
  dyadic (inject_Z (Qfloor (x / 2)))
  /\ dyadic (inject_Z (2 * Qfloor (x / 2)))
  /\ dyadic (x - inject_Z (2 * Qfloor (x / 2))).
Proof.
  intros Hx (m & e & E & Hm & He).
  assert (P2 : 0 < pow2 e) by apply pow2_pos.
  assert (Hm0 : (0 <= m)%Z).
  { destruct (Z_lt_le_dec m 0) as [N|N]; [|exact N]. exfalso.
    assert (inject_Z m < 0) by (change 0 with (inject_Z 0); now rewrite <- Zlt_Qlt).
    assert (0 < (- inject_Z m) * pow2 e).
    { apply Qmult_lt_0_compat; [clear - H; lra | exact P2]. }
    rewrite E in Hx. clear - Hx H0. lra. }
  pose proof (Qfloor_le (x / 2)) as F1. pose proof (Qlt_floor (x / 2)) as F2.
  rewrite inject_Z_plus in F2. change (inject_Z 1) with 1 in F2.
  remember (Qfloor (x / 2)) as t eqn:Dt.
  change (x / 2) with (x * (1 # 2)) in F1, F2.
  assert (Ht0 : (0 <= t)%Z).
  { rewrite Dt. change 0%Z with (Qfloor 0). apply Qfloor_resp_le.
    apply Qle_shift_div_l; [reflexivity | now rewrite Qmult_0_l]. }
  destruct (Z_lt_le_dec 0 e) as [Pe|Ne].
  - assert (Et : t = (m * 2 ^ (e - 1))%Z).
    { rewrite Dt. rewrite <- (Qfloor_Z (m * 2 ^ (e - 1))). apply Qfloor_comp.
      rewrite E. replace e with (1 + (e - 1))%Z at 1 by lia.
      rewrite pow2_add, inject_Z_mult, (pow2_Z (e - 1)) by lia.
      setoid_replace (pow2 1) with 2 by reflexivity. field. }
    assert (E2 : x == inject_Z (2 * t)).
    { rewrite Et, E. replace e with (1 + (e - 1))%Z at 1 by lia.
      rewrite pow2_add, !inject_Z_mult, (pow2_Z (e - 1)) by lia.
      setoid_replace (pow2 1) with 2 by reflexivity. change (inject_Z 2) with 2. ring. }
    split; [|split].
    + exists m, (e - 1)%Z. split; [|split; [exact Hm | unfold emin; lia]].
      rewrite Et, inject_Z_mult, (pow2_Z (e - 1)) by lia. reflexivity.
    + exists m, e. split; [|split; assumption]. now rewrite <- E2.
    + exists 0%Z, 0%Z. split; [|split; [reflexivity | discriminate]].
      rewrite E2. ring.
  - assert (Hp : pow2 e <= 1).
    { setoid_replace 1 with (pow2 0) by reflexivity. apply pow2_le. lia. }
    assert (Hx53 : x < inject_Z (2 ^ 53)).
    { assert (M0 : 0 <= inject_Z m)
        by (change 0 with (inject_Z 0); now rewrite <- Zle_Qle).
      assert (M1 : inject_Z m < inject_Z (2 ^ 53)) by (rewrite <- Zlt_Qlt; lia).
      assert (M2 : 0 <= inject_Z m * (1 - pow2 e))
        by (apply Qmult_le_0_compat; [exact M0 | clear - Hp; lra]).
      rewrite E. clear - M1 M2. lra. }
    assert (Ht : (2 * t < 2 ^ 53)%Z).
    { rewrite Zlt_Qlt, inject_Z_mult. change (inject_Z 2) with 2. lra. }
    split; [|split].
    + apply dyadic_small_int. lia.
    + apply dyadic_small_int. lia.
    + set (c := (2 * t * 2 ^ (- e))%Z).
      assert (Ec : inject_Z (2 * t) == inject_Z c * pow2 e).
      { unfold c. rewrite (inject_Z_mult (2 * t)), <- (pow2_Z (- e)) by lia.
        rewrite <- Qmult_assoc, <- pow2_add. replace (- e + e)%Z with 0%Z by lia.
        setoid_replace (pow2 0) with 1 by reflexivity. ring. }
      exists (m - c)%Z, e. split; [|split; [|exact He]].
      * rewrite Ec, E. unfold Zminus. rewrite inject_Z_plus, inject_Z_opp. ring.
      * assert (D0 : 0 <= x - inject_Z (2 * t)).
        { rewrite inject_Z_mult. change (inject_Z 2) with 2. lra. }
        assert (D1 : x - inject_Z (2 * t) <= x).
        { assert (0 <= inject_Z (2 * t)); [|lra].
          change 0 with (inject_Z 0). rewrite <- Zle_Qle. lia. }
        rewrite Ec, E in D0, D1.
        assert (C0 : (0 <= c)%Z) by (unfold c; apply Z.mul_nonneg_nonneg; lia).
        assert (C1 : (c <= m)%Z).
        { rewrite Zle_Qle. apply Qmult_le_r with (pow2 e); [exact P2 | lra]. }
        lia.
Qed.


Lemma below_emax (a b : Q) : 0 <= a -> a <= b -> Qabs b < pow2 emax -> Qabs a < pow2 emax.
Proof.
  intros H0 H1 H2. rewrite Qabs_pos by exact H0.
  rewrite Qabs_pos in H2 by lra. lra.
Qed.

(** Floor division by two of a double that is not negative: every
    step of the interpreter's algorithm is exact, and the result is
    the whole part of the half. *)
Lemma floordiv_two (x : Q) :
  0 <= x -> dyadic x -> Qabs x < pow2 emax ->
  exists y, floordiv (Finite x) two = Ok (Finite y)
            /\ y == inject_Z (Qfloor (x / 2)).
Proof.
  intros Hx D B.
  destruct (half_parts x Hx D) as (Dt & D2 & Dd).
  pose proof (Qfloor_le (x / 2)) as F1. pose proof (Qlt_floor (x / 2)) as F2.
  rewrite inject_Z_plus in F2. change (inject_Z 1) with 1 in F2.
  remember (Qfloor (x / 2)) as t eqn:Et.
  change (x / 2) with (x * (1 # 2)) in F1, F2.
  assert (Ht0 : (0 <= t)%Z).
  { rewrite Et. change 0%Z with (Qfloor 0). apply Qfloor_resp_le.
    apply Qle_shift_div_l; [reflexivity | now rewrite Qmult_0_l]. }
  assert (T0 : 0 <= inject_Z t) by (change 0 with (inject_Z 0); now rewrite <- Zle_Qle).
  assert (E2 : inject_Z (2 * t) == 2 * inject_Z t) by (now rewrite inject_Z_mult).
  set (d := x - 2 * inject_Z (Float.to_int (x / 2))).
  assert (Ei : Float.to_int (x / 2) = t).
  { unfold Float.to_int.
    assert (P : Qle_bool 0 (x / 2) = true).
    { apply Qle_bool_iff. apply Qle_shift_div_l; [reflexivity | now rewrite Qmult_0_l]. }
    rewrite P. now symmetry. }
  assert (Ed : d == x - inject_Z (2 * t)) by (unfold d; rewrite Ei, E2; reflexivity).
  assert (Hd0 : 0 <= d) by (rewrite Ed, E2; lra).
  assert (Hd1 : d <= x) by (rewrite Ed, E2; lra).
  assert (Erem : fmod (Finite x) two = Finite (Qred d)).
  { cbn [fmod two]. fold d. apply round_dyadic.
    - exact (dyadic_comp _ _ (Qeq_sym _ _ Ed) Dd).
    - exact (below_emax d x Hd0 Hd1 B). }
  assert (Esub : sub (Finite x) (Finite (Qred d)) = Finite (Qred (inject_Z (2 * t)))).
  { unfold sub. cbn [opp add].
    rewrite (round_comp (x + - Qred d) (inject_Z (2 * t))).
    - apply round_dyadic; [exact D2|].
      apply (below_emax _ x); [rewrite E2; lra | rewrite E2; lra | exact B].
    - rewrite Qred_correct, Ed. ring. }
  assert (Ediv : div (Finite (Qred (inject_Z (2 * t)))) two
                 = Ok (Finite (Qred (inject_Z t)))).
  { unfold div. change (is_zero two) with false. cbv iota. cbn [two]. f_equal.
    rewrite (round_comp (Qred (inject_Z (2 * t)) / 2) (inject_Z t)).
    - apply round_dyadic; [exact Dt|].
      apply (below_emax _ x); [exact T0 | lra | exact B].
    - rewrite Qred_correct, E2. field. }
  assert (Elt : lt (Finite (Qred d)) zero = false).
  { cbn [lt zero]. apply negb_false_iff, Qle_bool_iff. now rewrite Qred_correct. }
  unfold floordiv. change (is_zero two) with false. cbv iota.
  rewrite Erem, Esub, Ediv. cbn [bind]. rewrite Elt.
  change (lt two zero) with false. cbn [Bool.eqb negb]. rewrite andb_false_r.
  unfold truthy at 1. cbn [is_zero].
  destruct (Qeq_bool (Qred (inject_Z t)) 0) eqn:Z; cbn [negb].
  - exists 0. split; [reflexivity|].
    apply Qeq_bool_eq in Z. rewrite Qred_correct in Z. now symmetry.
  - assert (Ef : floor (Finite (Qred (inject_Z t))) = Finite (Qred (inject_Z t))).
    { cbn [floor].
      rewrite (Qfloor_comp _ _ (Qred_correct (inject_Z t))), Qfloor_Z.
      apply round_dyadic; [exact Dt|].
      apply (below_emax _ x); [exact T0 | lra | exact B]. }
    rewrite Ef.
    assert (Es : sub (Finite (Qred (inject_Z t))) (Finite (Qred (inject_Z t))) = Finite 0).
    { unfold sub. cbn [opp add]. apply round_zero. ring. }
    rewrite Es.
    assert (Eh : lt (literal (1 # 2)) (Finite 0) = false) by (vm_compute; reflexivity).
    rewrite Eh.
    exists (Qred (inject_Z t)). split; [reflexivity | apply Qred_correct].
Qed.

(** Doubling the whole part of the half and reading it as an integer. *)
Lemma floor_to_even (x y : Q) :
  0 <= x -> dyadic x -> Qabs x < pow2 emax ->
  y == inject_Z (Qfloor (x / 2)) ->
  to_int (mul (Finite y) two) = Ok (Qfloor (x / 2) * 2)%Z.
Proof.
  intros Hx D B Ey.
  destruct (half_parts x Hx D) as (_ & D2 & _).
  pose proof (Qfloor_le (x / 2)) as F1.
  change (x / 2) with (x * (1 # 2)) in F1 at 2.
  assert (Ht0 : (0 <= Qfloor (x / 2))%Z).
  { change 0%Z with (Qfloor 0). apply Qfloor_resp_le.
    apply Qle_shift_div_l; [reflexivity | now rewrite Qmult_0_l]. }
  set (t := Qfloor (x / 2)) in *.
  assert (T0 : 0 <= inject_Z t) by (change 0 with (inject_Z 0); now rewrite <- Zle_Qle).
  assert (E2 : inject_Z (2 * t) == 2 * inject_Z t) by (now rewrite inject_Z_mult).
  cbn [mul two].
  rewrite (round_comp (y * 2) (inject_Z (2 * t))) by (rewrite Ey, E2; ring).
  rewrite round_dyadic; [|exact D2|].
  - cbn [to_int]. f_equal.
    rewrite (to_int_comp _ _ (Qred_correct _)), to_int_inject. lia.
  - apply (below_emax _ x); [rewrite E2; lra | rewrite E2; lra | exact B].
Qed.


(** The root of a value up to one is a finite double, not negative. *)
Lemma round_sqrt_unit (v : Q) :
  0 <= v -> v <= 1 -> exists u, round_sqrt v = Finite u /\ 0 <= u /\ u <= 2.
Proof.
  intros H0 H1. unfold round_sqrt.
  destruct (Qeq_bool v 0) eqn:Z.
  { exists 0. split; [reflexivity|]. split; [apply Qle_refl | discriminate]. }
  apply Qeq_bool_neq in Z.
  assert (Hv : 0 < v).
  { apply Qle_lteq in H0. destruct H0 as [H0|H0]; [exact H0|].
    exfalso. apply Z. now symmetry. }
  assert (Hl : (floor_log2 v <= 0)%Z).
  { assert (floor_log2 v < 1)%Z; [|lia]. apply floor_log2_lt_pow2; [exact Hv|].
    apply Qle_lt_trans with 1; [exact H1 | reflexivity]. }
  set (e := Z.max (floor_log2 v / 2 - 52) emin).
  assert (He : (emin <= e <= -52)%Z).
  { assert (floor_log2 v / 2 <= 0)%Z by (apply Z.div_le_upper_bound; lia).
    unfold e, emin in *. lia. }
  set (y := v / pow2 (2 * e)).
  assert (P : 0 < pow2 (2 * e)) by apply pow2_pos.
  assert (Hy0 : 0 <= y).
  { unfold y. apply Qle_shift_div_l; [exact P|]. rewrite Qmult_0_l. exact H0. }
  assert (Hy1 : y <= inject_Z ((2 ^ (- e)) * (2 ^ (- e)))).
  { unfold y. apply Qle_shift_div_r; [exact P|].
    rewrite inject_Z_mult, <- (pow2_Z (- e)) by lia.
    rewrite <- (pow2_add (- e) (- e)), <- pow2_add.
    replace (- e + - e + 2 * e)%Z with 0%Z by lia. exact H1. }
  set (s := Z.sqrt (Qfloor y)).
  assert (Hf0 : (0 <= Qfloor y)%Z).
  { change 0%Z with (Qfloor 0). now apply Qfloor_resp_le. }
  assert (Hs0 : (0 <= s)%Z) by apply Z.sqrt_nonneg.
  assert (Hs1 : (s <= 2 ^ (- e))%Z).
  { unfold s. rewrite <- (Z.sqrt_square (2 ^ (- e))) by lia.
    apply Z.sqrt_le_mono.
    rewrite <- (Qfloor_Z (2 ^ (- e) * 2 ^ (- e))). now apply Qfloor_resp_le. }
  set (half := inject_Z s + (1 # 2)).
  set (m := match y ?= half * half with
            | Eq => if Z.even s then s else (s + 1)%Z
            | Lt => s
            | Gt => (s + 1)%Z
            end).
  assert (Hm : (0 <= m <= 2 ^ (- e) + 1)%Z).
  { unfold m. destruct (y ?= half * half); [destruct (Z.even s)| |]; lia. }
  assert (Pe : 0 < pow2 e) by apply pow2_pos.
  assert (Pe1 : pow2 e <= 1).
  { setoid_replace 1 with (pow2 0) by reflexivity. apply pow2_le. lia. }
  assert (Hr0 : 0 <= inject_Z m * pow2 e).
  { apply Qmult_le_0_compat; [|now apply Qlt_le_weak].
    change 0 with (inject_Z 0). rewrite <- Zle_Qle. lia. }
  assert (Hr1 : inject_Z m * pow2 e <= 2).
  { apply Qle_trans with (inject_Z (2 ^ (- e) + 1) * pow2 e).
    - apply Qmult_le_compat_r; [|now apply Qlt_le_weak]. rewrite <- Zle_Qle. lia.
    - rewrite inject_Z_plus, <- (pow2_Z (- e)) by lia.
      rewrite Qmult_plus_distr_l, <- pow2_add.
      replace (- e + e)%Z with 0%Z by lia.
      setoid_replace (pow2 0) with 1 by reflexivity.
      change (inject_Z 1) with 1. rewrite Qmult_1_l.
      clear - Pe1. lra. }
  assert (O : Qle_bool (pow2 emax) (inject_Z m * pow2 e) = false).
  { apply Qle_bool_false. apply Qle_lt_trans with 2; [exact Hr1|].
    setoid_replace 2 with (pow2 1) by reflexivity. apply pow2_lt. reflexivity. }
  rewrite O. eexists. split; [reflexivity|].
  rewrite Qred_correct. split; assumption.
Qed.


(** What rounding makes of an integer is an integer, and even when the
    integer is. *)
Lemma round_int (n : Z) (z : Q) :
  round (inject_Z n) = Finite z ->
  exists n', z == inject_Z n' /\ (Z.even n = true -> Z.even n' = true).
Proof.
  intro R. destruct (Z.eq_dec n 0) as [Zn|Nn].
  { subst n. injection R as <-. exists 0%Z. split; reflexivity. }
  assert (N : ~ inject_Z n == 0).
  { intro E. apply Nn. unfold Qeq in E. simpl in E. lia. }
  rewrite (round_nonzero _ N) in R.
  destruct (Qle_bool _ _); [discriminate R|]. injection R as <-.
  change (Z.abs n # 1) with (inject_Z (Z.abs n)).
  set (a := inject_Z (Z.abs n)).
  assert (Ha : 0 < a) by (apply inject_Z_pos; lia).
  assert (Hs : signed (is_negative (inject_Z n)) a == inject_Z n).
  { exact (signed_abs (inject_Z n)). }
  unfold nearest. set (e := ulp_exponent a).
  destruct (Z_lt_le_dec 0 e) as [Pe|Ne].
  - set (m := Float.round_half_even (a / pow2 e)).
    assert (Em : inject_Z m * pow2 e == inject_Z (m * 2 ^ e))
      by (rewrite inject_Z_mult, (pow2_Z e) by lia; reflexivity).
    destruct (is_negative (inject_Z n)); unfold signed.
    + exists (- (m * 2 ^ e))%Z. split.
      * rewrite Qred_correct, Em, inject_Z_opp. reflexivity.
      * intros _. rewrite Z.even_opp, Z.even_mul, (Z.even_pow 2 e) by lia.
        apply orb_true_r.
    + exists (m * 2 ^ e)%Z. split.
      * now rewrite Qred_correct, Em.
      * intros _. rewrite Z.even_mul, (Z.even_pow 2 e) by lia. apply orb_true_r.
  - assert (Ex : a / pow2 e == inject_Z (Z.abs n * 2 ^ (- e))).
    { unfold a. rewrite inject_Z_mult, <- (pow2_Z (- e)) by lia.
      unfold Qdiv. apply Qmult_comp; [reflexivity|].
      unfold pow2. rewrite Qpower_opp. reflexivity. }
    rewrite (round_half_even_comp _ _ Ex), round_half_even_inject.
    exists n. split; [|tauto].
    rewrite Qred_correct.
    assert (Ea : inject_Z (Z.abs n * 2 ^ (- e)) * pow2 e == a).
    { rewrite <- Ex. field. apply Qnot_eq_sym, Qlt_not_eq, pow2_pos. }
    transitivity (signed (is_negative (inject_Z n)) a); [|exact Hs].
    destruct (is_negative (inject_Z n)); unfold signed; now rewrite Ea.
Qed.

Lemma round_integral (n : Z) : integral (round (inject_Z n)).
Proof.
  destruct (round (inject_Z n)) as [z|s|] eqn:R; cbn [integral]; [|exact I..].
  destruct (round_int n z R) as (n' & E & _). now exists n'.
Qed.

Lemma floor_integral (x : float) : integral (floor x).
Proof.
  destruct x as [v|s|]; cbn [floor]; [apply round_integral | exact I..].
Qed.

Lemma add_one_integral (x : float) : integral x -> integral (add x one).
Proof.
  destruct x as [v|s|]; cbn [add one integral]; [|intros _; exact I..].
  intros [n E].
  rewrite (round_comp (v + 1) (inject_Z (n + 1))).
  - apply round_integral.
  - rewrite E, inject_Z_plus. reflexivity.
Qed.

(** Floor division gives whole numbers. *)
Lemma floordiv_integral (x y q : float) : floordiv x y = Ok q -> integral q.
Proof.
  unfold floordiv. destruct (is_zero y); [discriminate|].
  destruct (div (sub x (fmod x y)) y) as [quot|err]; cbn [bind]; [|discriminate].
  set (quot' := if _ && _ then sub quot one else quot).
  destruct (truthy quot').
  - intro H. injection H as <-.
    match goal with
    | |- integral (if ?c then _ else _) => destruct c
    end; [apply add_one_integral|]; apply floor_integral.
  - intro H. injection H as <-. exists 0%Z. reflexivity.
Qed.

(** Twice a whole number, read back as an integer, is even. *)
Lemma doubled_even (q : float) (i : Z) :
  integral q -> to_int (mul q two) = Ok i -> Z.even i = true.
Proof.
  destruct q as [v|s|]; cbn [integral mul two to_int].
  - intros [n E].
    rewrite (round_comp (v * 2) (inject_Z (2 * n)))
      by (rewrite E, inject_Z_mult; ring).
    destruct (round (inject_Z (2 * n))) as [z|s|] eqn:R; cbn [to_int]; try discriminate.
    intro H. injection H as <-.
    destruct (round_int _ z R) as (n' & Ez & Ev).
    rewrite (to_int_comp _ _ Ez), to_int_inject. apply Ev.
    rewrite Z.even_mul. reflexivity.
  - intros _. destruct (Qeq_bool 2 0); discriminate.
  - discriminate.
Qed.


(** A positive double is at least the least positive double. *)
Lemma positive_double_ge (f : Q) :
  representable f = true -> 0 < f -> pow2 emin <= f.
Proof.
  intros R Hf. apply representable_spec in R. destruct R as [(m & e & E & Hm & He) _].
  assert (P : 0 < pow2 e) by apply pow2_pos.
  assert (Hm1 : (1 <= m)%Z).
  { destruct (Z_lt_le_dec m 1) as [N|N]; [|exact N]. exfalso.
    assert (M : inject_Z m <= 0) by (change 0 with (inject_Z 0); rewrite <- Zle_Qle; lia).
    assert (0 <= (- inject_Z m) * pow2 e)
      by (apply Qmult_le_0_compat; [clear - M; lra | now apply Qlt_le_weak]).
    rewrite E in Hf. clear - Hf H. lra. }
  apply Qle_trans with (pow2 e); [now apply pow2_le|].
  rewrite E.
  assert (M : 1 <= inject_Z m) by (change 1 with (inject_Z 1); now rewrite <- Zle_Qle).
  assert (0 <= (inject_Z m - 1) * pow2 e)
    by (apply Qmult_le_0_compat; [clear - M; lra | now apply Qlt_le_weak]).
  clear - H. lra.
Qed.

Lemma round_pow2_emin : round (pow2 emin) = Finite (Qred (pow2 emin)).
Proof.
  apply round_dyadic.
  - exists 1%Z, emin. split; [ring|]. split; [reflexivity | apply Z.le_refl].
  - rewrite Qabs_pos by apply Qlt_le_weak, pow2_pos. apply pow2_lt. reflexivity.
Qed.

(** Rounding a value that is at least the least positive double gives
    a positive double or the positive infinity. *)
Lemma round_positive (q : Q) :
  pow2 emin <= q ->
  round q = Inf false \/ exists v, round q = Finite v /\ 0 < v.
Proof.
  intro H. pose proof (round_le _ _ H) as L. rewrite round_pow2_emin in L.
  assert (P : 0 < pow2 emin) by apply pow2_pos.
  destruct (round q) as [v|[|]|]; cbn [le] in L; try discriminate.
  - right. exists v. split; [reflexivity|].
    apply Qle_bool_iff in L. rewrite Qred_correct in L. lra.
  - now left.
Qed.

Lemma round_le_one (q : Q) :
  0 <= q -> q <= 1 -> exists r, round q = Finite r /\ 0 <= r /\ r <= 1.
Proof.
  intros H0 H1. pose proof (round_le _ _ H1) as L.
  change (round 1) with (Finite 1) in L.
  destruct (round_nonneg q H0) as [E | (r & E & Hr)]; rewrite E in L; cbn [le] in L.
  - discriminate L.
  - exists r. split; [exact E|]. split; [exact Hr | now apply Qle_bool_iff].
Qed.

Lemma round_le_bound (q : Q) (n : Z) :
  0 <= q -> q <= inject_Z (2 ^ n) -> (0 <= n < emax)%Z ->
  exists x, round q = Finite x /\ 0 <= x.
Proof.
  intros H0 H1 Hn. pose proof (round_le _ _ H1) as L.
  assert (R : round (inject_Z (2 ^ n)) = Finite (Qred (inject_Z (2 ^ n)))).
  { apply round_dyadic.
    - exists 1%Z, n. split; [rewrite pow2_Z by lia; ring|].
      split; [reflexivity | unfold emin; lia].
    - rewrite Qabs_pos by (apply Qlt_le_weak, inject_Z_pos; lia).
      rewrite <- pow2_Z by lia. apply pow2_lt. lia. }
  rewrite R in L.
  destruct (round_nonneg q H0) as [E | (x & E & Hx)]; rewrite E in L; cbn [le] in L.
  - discriminate L.
  - now exists x.
Qed.

Lemma Qred_nonneg (q : Q) : 0 <= q -> 0 <= Qred q.
Proof. intro H. now rewrite Qred_correct. Qed.

Section Domain.

Variables (w h k : Z) (f : Q).
Hypothesis Hw : (0 < w)%Z.
Hypothesis Hh : (0 < h)%Z.
Hypothesis Hp : (w * h < 2 ^ 53)%Z.
Hypothesis Hk : (0 <= k)%Z.
Hypothesis Hb : (k * 1000 < 2 ^ 53)%Z.
Hypothesis Hf : 0 < f.
Hypothesis Rf : representable f = true.

(** The density is formed without an exception and is not negative. *)
Lemma bits_per_pixel_cases :
  exists bpp,
    bits_per_pixel w h (Finite f) k = Ok bpp
    /\ (bpp = Inf false \/ exists b, bpp = Finite b /\ 0 <= b).
Proof.
  unfold bits_per_pixel.
  rewrite (of_int_small (k * 1000)) by lia.
  rewrite (of_int_small (w * h)) by nia.
  cbn [bind mul].
  assert (K0 : 0 <= Qred (inject_Z (k * 1000))).
  { apply Qred_nonneg. change 0 with (inject_Z 0). rewrite <- Zle_Qle. lia. }
  assert (P1 : 1 <= Qred (inject_Z (w * h))).
  { rewrite Qred_correct. change 1 with (inject_Z 1). rewrite <- Zle_Qle. nia. }
  pose proof (positive_double_ge f Rf Hf) as F.
  assert (Pm : 0 < pow2 emin) by apply pow2_pos.
  assert (D : pow2 emin <= Qred (inject_Z (w * h)) * f).
  { assert (0 <= (Qred (inject_Z (w * h)) - 1) * f)
      by (apply Qmult_le_0_compat; [clear - P1; lra | clear - Hf; lra]).
    clear - H F. lra. }
  destruct (round_positive _ D) as [E | (v & E & Hv)]; rewrite E.
  - exists (Finite 0). split; [reflexivity|]. right. exists 0. split; [reflexivity | apply Qle_refl].
  - unfold div. cbn [is_zero].
    assert (Z : Qeq_bool v 0 = false).
    { destruct (Qeq_bool v 0) eqn:Z; [|reflexivity]. apply Qeq_bool_eq in Z.
      clear - Z Hv. lra. }
    rewrite Z.
    assert (Q0 : 0 <= Qred (inject_Z (k * 1000)) / v).
    { apply Qle_shift_div_l; [exact Hv|]. now rewrite Qmult_0_l. }
    destruct (round_nonneg _ Q0) as [E' | (b & E' & Hb')]; rewrite E'.
    + exists (Inf false). split; [reflexivity | now left].
    + exists (Finite b). split; [reflexivity|]. right. now exists b.
Qed.

End Domain.

(** One dimension of the plan: the product with the scale factor is a
    finite double, and flooring its half, doubling and truncating give
    twice the whole part of the half. *)
Lemma dimension_step (n : Z) (u : Q) :
  (0 < n < 2 ^ 53)%Z -> 0 <= u -> u <= 2 ->
  exists x,
    scaled n (Finite u) = Ok (Finite x)
    /\ scaled_dimension n (Finite u) = Ok (new_dimension x).
Proof.
  intros Hn H0 H2. unfold scaled, scaled_dimension.
  rewrite (of_int_small n) by lia. cbn [bind mul].
  assert (N0 : 0 <= Qred (inject_Z n)).
  { apply Qred_nonneg. change 0 with (inject_Z 0). rewrite <- Zle_Qle. lia. }
  assert (N1 : Qred (inject_Z n) <= inject_Z (2 ^ 53)).
  { rewrite Qred_correct. rewrite <- Zle_Qle. lia. }
  assert (P0 : 0 <= Qred (inject_Z n) * u) by now apply Qmult_le_0_compat.
  assert (P1 : Qred (inject_Z n) * u <= inject_Z (2 ^ 54)).
  { change (inject_Z (2 ^ 54)) with (inject_Z (2 ^ 53) * 2).
    apply Qle_trans with (inject_Z (2 ^ 53) * u).
    - now apply Qmult_le_compat_r.
    - apply Qmult_le_l; [reflexivity | exact H2]. }
  destruct (round_le_bound _ 54 P0 P1) as (x & R & Hx); [unfold emax; lia|].
  rewrite R. exists x. split; [reflexivity|].
  destruct (round_finite _ _ R) as [D B].
  destruct (floordiv_two x Hx D B) as (y & Ey & Hy).
  rewrite Ey. cbn [bind].
  now rewrite (floor_to_even x y Hx D B Hy).
Qed.

(** Whatever the inputs, a dimension the advisor computes is even and
    at least 160. *)
Lemma scaled_dimension_even (n : Z) (factor : float) (a : Z) :
  scaled_dimension n factor = Ok a -> Z.even a = true /\ (160 <= a)%Z.
Proof.
  unfold scaled_dimension.
  destruct (of_int n) as [fn|]; cbn [bind]; [|discriminate].
  destruct (floordiv (mul fn factor) two) as [q|] eqn:Eq; cbn [bind]; [|discriminate].
  destruct (to_int (mul q two)) as [i|] eqn:Ei; cbn [bind]; [|discriminate].
  intro H. injection H as <-.
  pose proof (doubled_even q i (floordiv_integral _ _ _ Eq) Ei) as Ev.
  split; [|lia].
  destruct (Z.max_spec 160 i) as [[_ ->] | [_ ->]]; [exact Ev | reflexivity].
Qed.

Lemma min_bpp_value : exists c, min_bpp = Finite c /\ 0 < c.
Proof. eexists. split; [vm_compute; reflexivity | reflexivity]. Qed.

(** C4: the advisor returns absent when an input is absent or the
    frame rate is not positive; for a positive width and height, a
    bitrate that is not negative (pixel and bit counts that convert
    exactly) and a positive frame rate it forms the density without an
    exception, returns absent when the density is at least 0.06, and
    otherwise computes [new_w = max(160, floor(width * scale_factor / 2) * 2)]
    and [new_h] likewise, with [scale_factor = sqrt(density / 0.06)],
    and returns them exactly when both are smaller than the originals,
    absent otherwise; dimensions it returns are even and at least 160,
    whatever the inputs.  Every step is the double operation of the
    source. *)
Theorem scale_plan_spec (width height : option Z) (fps : option float) (k : Z) :
  (width = None \/ height = None \/ fps = None
   \/ (exists f, fps = Some f /\ le f zero = true) ->
   scale_plan width height fps k = Ok None)
  /\ (forall w h f,
        width = Some w -> height = Some h -> fps = Some (Finite f) ->
        (0 < w)%Z -> (0 < h)%Z -> (w * h < 2 ^ 53)%Z ->
        (0 <= k)%Z -> (k * 1000 < 2 ^ 53)%Z ->
        0 < f -> representable f = true ->
        exists bpp,
          bits_per_pixel w h (Finite f) k = Ok bpp
          /\ (le min_bpp bpp = true -> scale_plan width height fps k = Ok None)
          /\ (le min_bpp bpp = false ->
              exists factor xw xh,
                scale_factor bpp = Ok factor
                /\ scaled w factor = Ok (Finite xw)
                /\ scaled h factor = Ok (Finite xh)
                /\ scale_plan width height fps k
                   = Ok (if ((new_dimension xw <? w) && (new_dimension xh <? h))%Z
                         then Some (new_dimension xw, new_dimension xh)
                         else None)))
  /\ (forall a b,
        scale_plan width height fps k = Ok (Some (a, b)) ->
        Z.even a = true /\ Z.even b = true /\ (160 <= a)%Z /\ (160 <= b)%Z).
Proof.
  split; [|split].
  - intros [-> | [-> | [-> | (f & -> & Hf)]]].
    + reflexivity.
    + now destruct width.
    + now destruct width, height.
    + destruct width as [w|], height as [h|]; try reflexivity.
      cbn [scale_plan]. rewrite Hf. now rewrite !orb_true_r.
  - intros w h f -> -> -> Hw Hh Hp Hk Hb Hf Rf.
    destruct (bits_per_pixel_cases w h k f Hw Hh Hp Hk Hb Hf Rf) as (bpp & Eb & Cases).
    exists bpp. split; [exact Eb|].
    assert (G : (w =? 0)%Z || (h =? 0)%Z || is_zero (Finite f) || le (Finite f) zero = false).
    { assert (E1 : (w =? 0)%Z = false) by (apply Z.eqb_neq; lia).
      assert (E2 : (h =? 0)%Z = false) by (apply Z.eqb_neq; lia).
      assert (E3 : Qle_bool f 0 = false) by (now apply Qle_bool_false).
      assert (E4 : Qeq_bool f 0 = false).
      { destruct (Qeq_bool f 0) eqn:Z; [|reflexivity]. apply Qeq_bool_eq in Z.
        clear - Z Hf. lra. }
      cbn [is_zero le zero]. now rewrite E1, E2, E3, E4. }
    unfold bits_per_pixel in Eb.
    rewrite (of_int_small (k * 1000)), (of_int_small (w * h)) in Eb by nia.
    cbn [bind] in Eb.
    cbn [scale_plan]. rewrite G.
    rewrite (of_int_small (k * 1000)), (of_int_small (w * h)) by nia.
    cbn [bind]. rewrite Eb. cbn [bind].
    split.
    + intros ->. reflexivity.
    + intros L. rewrite L.
      destruct min_bpp_value as (c & Ec & Hc).
      destruct Cases as [-> | (b & -> & Hb0)].
      { rewrite Ec in L. discriminate L. }
      assert (Hbc : b < c).
      { rewrite Ec in L. cbn [le] in L. now apply Qle_bool_false. }
      assert (Zc : Qeq_bool c 0 = false).
      { destruct (Qeq_bool c 0) eqn:Z; [|reflexivity]. apply Qeq_bool_eq in Z.
        clear - Z Hc. lra. }
      assert (Er : exists r, div (Finite b) min_bpp = Ok (Finite r) /\ 0 <= r /\ r <= 1).
      { rewrite Ec. unfold div. cbn [is_zero]. rewrite Zc.
        destruct (round_le_one (b / c)) as (r & R & Hr).
        - apply Qle_shift_div_l; [exact Hc | now rewrite Qmult_0_l].
        - apply Qle_shift_div_r; [exact Hc|]. rewrite Qmult_1_l. now apply Qlt_le_weak.
        - exists r. rewrite R. split; [reflexivity | exact Hr]. }
      destruct Er as (r & Er & Hr0 & Hr1).
      destruct (round_sqrt_unit r Hr0 Hr1) as (u & Eu & Hu0 & Hu2).
      assert (Es : sqrt (Finite r) = Ok (Finite u)).
      { cbn [sqrt]. assert (S : is_negative r = false) by now apply is_negative_false.
        now rewrite S, Eu. }
      destruct (dimension_step w u) as (xw & Sw & Dw); [nia | exact Hu0 | exact Hu2 |].
      destruct (dimension_step h u) as (xh & Sh & Dh); [nia | exact Hu0 | exact Hu2 |].
      exists (Finite u), xw, xh.
      split; [unfold scale_factor; rewrite Er; cbn [bind]; exact Es|].
      split; [exact Sw|]. split; [exact Sh|].
      rewrite Er. cbn [bind]. rewrite Es. cbn [bind]. rewrite Dw, Dh. cbn [bind].
      now destruct (_ && _).
  - intros a b H.
    destruct width as [w|]; [|discriminate H].
    destruct height as [h|]; [|discriminate H].
    destruct fps as [f|]; [|discriminate H].
    cbn [scale_plan] in H.
    destruct (_ || _); [discriminate H|].
    destruct (of_int (k * 1000)) as [bits|]; cbn [bind] in H; [|discriminate H].
    destruct (of_int (w * h)) as [pixels|]; cbn [bind] in H; [|discriminate H].
    destruct (div bits (mul pixels f)) as [bpp|]; cbn [bind] in H; [|discriminate H].
    destruct (le min_bpp bpp); [discriminate H|].
    destruct (div bpp min_bpp) as [ratio|]; cbn [bind] in H; [|discriminate H].
    destruct (sqrt ratio) as [factor|]; cbn [bind] in H; [|discriminate H].
    destruct (scaled_dimension w factor) as [a'|] eqn:Ea; cbn [bind] in H; [|discriminate H].
    destruct (scaled_dimension h factor) as [b'|] eqn:Ebb; cbn [bind] in H; [|discriminate H].
    destruct (_ && _); [|discriminate H].
    injection H as <- <-.
    destruct (scaled_dimension_even _ _ _ Ea), (scaled_dimension_even _ _ _ Ebb).
    tauto.
Qed.

Lemma scale_plan_spec_witness :
  scale_plan (Some 1920%Z) (Some 1080%Z) None 2312 = Ok None
  /\ (exists bpp,
        bits_per_pixel 1920 1080 (Finite 30) 2312 = Ok bpp
        /\ (le min_bpp bpp = true ->
            scale_plan (Some 1920%Z) (Some 1080%Z) (Some (Finite 30)) 2312 = Ok None)
        /\ (le min_bpp bpp = false ->
            exists factor xw xh,
              scale_factor bpp = Ok factor
              /\ scaled 1920 factor = Ok (Finite xw)
              /\ scaled 1080 factor = Ok (Finite xh)
              /\ scale_plan (Some 1920%Z) (Some 1080%Z) (Some (Finite 30)) 2312
                 = Ok (if ((new_dimension xw <? 1920) && (new_dimension xh <? 1080))%Z
                       then Some (new_dimension xw, new_dimension xh)
                       else None)))
  /\ (Z.even 1510 = true /\ Z.even 848 = true /\ (160 <= 1510)%Z /\ (160 <= 848)%Z).
Proof.
  split; [|split].
  - apply (proj1 (scale_plan_spec (Some 1920%Z) (Some 1080%Z) None 2312)). tauto.
  - apply (proj1 (proj2 (scale_plan_spec (Some 1920%Z) (Some 1080%Z)
                           (Some (Finite 30)) 2312))
             1920%Z 1080%Z 30 eq_refl eq_refl eq_refl);
      try reflexivity; try discriminate.
  - apply (proj2 (proj2 (scale_plan_spec (Some 1920%Z) (Some 1080%Z)
                           (Some (Finite 30)) 2312)) 1510%Z 848%Z).
    vm_compute. reflexivity.
Defined.

End DoubleAdvisor.

(** ** What the doubles cannot break *)

Section DoubleSafety.

Import Double.
Local Open Scope Q_scope.

(** Whatever the inputs, a plan the allocator returns keeps its
    bounds: the two final [max] and [min] are on integers. *)
Theorem double_plan_within_bounds
    (clip mb : float) (mn mx : Z) (ov : float) (video_kbps audio_kbps : Z) :
  compute_target_bitrates clip mb mn mx ov = Ok (video_kbps, audio_kbps) ->
  (100 <= video_kbps)%Z
  /\ (mn <= audio_kbps)%Z
  /\ ((mn <= mx)%Z -> (audio_kbps <= mx)%Z).
Proof.
  unfold compute_target_bitrates.
  destruct (of_int (mx * 1000)) as [hi|]; cbn [bind]; [|discriminate].
  destruct (of_int (mn * 1000)) as [lo|]; cbn [bind]; [|discriminate].
  destruct (div _ (Finite 1000)) as [q1|]; cbn [bind]; [|discriminate].
  destruct (div q1 clip) as [q2|]; cbn [bind]; [|discriminate].
  destruct (to_int q2) as [a|]; cbn [bind]; [|discriminate].
  destruct (of_int _) as [sp|]; cbn [bind]; [|discriminate].
  destruct (div _ (Finite 1000)) as [q3|]; cbn [bind]; [|discriminate].
  destruct (div q3 clip) as [q4|]; cbn [bind]; [|discriminate].
  destruct (to_int q4) as [v|]; cbn [bind]; [|discriminate].
  intro H. injection H as <- <-. lia.
Qed.

Lemma double_plan_within_bounds_witness :
  (100 <= 35583)%Z /\ (48 <= 159)%Z /\ ((48 <= 160)%Z -> (159 <= 160)%Z).
Proof.
  apply (double_plan_within_bounds
           (literal (23 # 100)) (Finite 1) 48 160 (literal (98 # 100))).
  vm_compute. reflexivity.
Defined.

Lemma round_neg_pow2_emin : round (- pow2 emin) = Finite (Qred (- pow2 emin)).
Proof.
  apply round_dyadic.
  - exists (-1)%Z, emin. split; [ring|]. split; [reflexivity | apply Z.le_refl].
  - rewrite Qabs_opp, Qabs_pos by apply Qlt_le_weak, pow2_pos.
    apply pow2_lt. reflexivity.
Qed.

Lemma round_negative (q : Q) :
  q <= - pow2 emin ->
  round q = Inf true \/ exists v, round q = Finite v /\ v < 0.
Proof.
  intro H. pose proof (round_le _ _ H) as L. rewrite round_neg_pow2_emin in L.
  assert (P : 0 < pow2 emin) by apply pow2_pos.
  destruct (round q) as [v|[|]|]; cbn [le] in L; try discriminate.
  - right. exists v. split; [reflexivity|].
    apply Qle_bool_iff in L. rewrite Qred_correct in L. lra.
  - now left.
Qed.

(** The conversion of an integer that is not zero is not zero. *)
Lemma of_int_nonzero (n : Z) (p : float) :
  n <> 0%Z -> of_int n = Ok p ->
  exists v, p = Finite v /\ (1 <= v \/ v <= - (1)).
Proof.
  intros Hn. unfold of_int.
  destruct (Z_lt_le_dec 0 n) as [Pn|Nn].
  - assert (L : le (round 1) (round (inject_Z n)) = true).
    { apply round_le. change 1 with (inject_Z 1). rewrite <- Zle_Qle. lia. }
    change (round 1) with (Finite 1) in L.
    destruct (round (inject_Z n)) as [v|s|]; [|discriminate..].
    intro H. injection H as <-. exists v. split; [reflexivity|].
    left. now apply Qle_bool_iff.
  - assert (L : le (round (inject_Z n)) (round (- (1))) = true).
    { apply round_le. change (- (1)) with (inject_Z (-1)). rewrite <- Zle_Qle. lia. }
    change (round (- (1))) with (Finite (- (1))) in L.
    destruct (round (inject_Z n)) as [v|s|]; [|discriminate..].
    intro H. injection H as <-. exists v. split; [reflexivity|].
    right. now apply Qle_bool_iff.
Qed.

(** The divisor of the density is never zero. *)
Lemma pixel_rate_not_zero (p : float) (f : float) (n : Z) :
  n <> 0%Z -> of_int n = Ok p ->
  is_zero f = false -> le f zero = false ->
  match f with Finite v => representable v = true | _ => True end ->
  is_zero (mul p f) = false.
Proof.
  intros Hn Hp Zf Lf Rf.
  destruct (of_int_nonzero n p Hn Hp) as (v & -> & Hv).
  assert (Nv : Qeq_bool v 0 = false).
  { destruct (Qeq_bool v 0) eqn:E; [|reflexivity]. apply Qeq_bool_eq in E.
    destruct Hv as [Hv|Hv]; clear - E Hv; lra. }
  destruct f as [x|s|]; cbn [mul is_zero].
  - cbn [le zero] in Lf. apply Qle_bool_false in Lf.
    pose proof (positive_double_ge x Rf Lf) as F.
    assert (P : 0 < pow2 emin) by apply pow2_pos.
    destruct Hv as [Hv|Hv].
    + assert (D : pow2 emin <= v * x).
      { assert (0 <= (v - 1) * x)
          by (apply Qmult_le_0_compat; [clear - Hv; lra | clear - Lf; lra]).
        clear - H F. lra. }
      destruct (round_positive _ D) as [-> | (u & -> & Hu)]; [reflexivity|].
      cbn [is_zero]. destruct (Qeq_bool u 0) eqn:E; [|reflexivity]. apply Qeq_bool_eq in E.
      clear - E Hu. lra.
    + assert (D : v * x <= - pow2 emin).
      { assert (0 <= (- v - 1) * x)
          by (apply Qmult_le_0_compat; [clear - Hv; lra | clear - Lf; lra]).
        clear - H F. lra. }
      destruct (round_negative _ D) as [-> | (u & -> & Hu)]; [reflexivity|].
      cbn [is_zero]. destruct (Qeq_bool u 0) eqn:E; [|reflexivity]. apply Qeq_bool_eq in E.
      clear - E Hu. lra.
  - rewrite Nv. reflexivity.
  - reflexivity.
Qed.

Lemma of_int_error (n : Z) (e : exn) : of_int n = Raise e -> e = OverflowError.
Proof.
  unfold of_int. destruct (round (inject_Z n)); intro H; inversion H. reflexivity.
Qed.

Lemma sqrt_error (x : float) (e : exn) : sqrt x = Raise e -> e = ValueError.
Proof.
  destruct x as [v|[|]|]; cbn [sqrt]; try destruct (is_negative v);
    intro H; inversion H; reflexivity.
Qed.

Lemma floordiv_two_returns (x : float) : exists q, floordiv x two = Ok q.
Proof.
  unfold floordiv. change (is_zero two) with false. cbv iota.
  destruct (div_nonzero (sub x (fmod x two)) two eq_refl) as (q & ->).
  cbn [bind]. destruct (truthy _); eauto.
Qed.

Lemma scaled_dimension_error (n : Z) (factor : float) (e : exn) :
  scaled_dimension n factor = Raise e -> e <> ZeroDivisionError.
Proof.
  unfold scaled_dimension.
  destruct (of_int n) as [fn|e1] eqn:E1; cbn [bind].
  - destruct (floordiv_two_returns (mul fn factor)) as (q & ->). cbn [bind].
    destruct (to_int (mul q two)) as [i|e2] eqn:E2; cbn [bind]; [discriminate|].
    intro H. injection H as <-. exact (to_int_error _ _ E2).
  - intro H. injection H as <-. rewrite (of_int_error _ _ E1). discriminate.
Qed.

(** The advisor never divides by zero: past the guard the pixel count
    is a whole number that is not zero and the frame rate a positive
    double, so their product does not vanish, in doubles either. *)
Theorem double_scale_plan_no_zero_division
    (width height : option Z) (fps : option float) (k : Z) :
  (forall v, fps = Some (Finite v) -> representable v = true) ->
  scale_plan width height fps k <> Raise ZeroDivisionError.
Proof.
  intros Rf.
  destruct width as [w|]; [|discriminate].
  destruct height as [h|]; [|discriminate].
  destruct fps as [f|]; [|discriminate].
  cbn [scale_plan].
  destruct ((w =? 0)%Z || (h =? 0)%Z || is_zero f || le f zero) eqn:G; [discriminate|].
  apply orb_false_iff in G. destruct G as [G Lf].
  apply orb_false_iff in G. destruct G as [G Zf].
  apply orb_false_iff in G. destruct G as [Zw Zh].
  apply Z.eqb_neq in Zw, Zh.
  destruct (of_int (k * 1000)) as [bits|e1] eqn:E1; cbn [bind];
    [|rewrite (of_int_error _ _ E1); discriminate].
  destruct (of_int (w * h)) as [pixels|e2] eqn:E2; cbn [bind];
    [|rewrite (of_int_error _ _ E2); discriminate].
  assert (Nz : is_zero (mul pixels f) = false).
  { apply (pixel_rate_not_zero pixels f (w * h)); try assumption; [nia|].
    destruct f as [v| |]; [now apply Rf | exact I | exact I]. }
  destruct (div_nonzero bits (mul pixels f) Nz) as (bpp & ->). cbn [bind].
  destruct (le min_bpp bpp); [discriminate|].
  destruct (div_nonzero bpp min_bpp eq_refl) as (ratio & ->). cbn [bind].
  destruct (sqrt ratio) as [factor|e3] eqn:E3; cbn [bind];
    [|rewrite (sqrt_error _ _ E3); discriminate].
  destruct (scaled_dimension w factor) as [a|e4] eqn:E4; cbn [bind];
    [|intro H; injection H as ->; exact (scaled_dimension_error _ _ _ E4 eq_refl)].
  destruct (scaled_dimension h factor) as [b|e5] eqn:E5; cbn [bind];
    [|intro H; injection H as ->; exact (scaled_dimension_error _ _ _ E5 eq_refl)].
  destruct (_ && _); discriminate.
Qed.

Lemma double_scale_plan_no_zero_division_witness :
  scale_plan (Some 1920%Z) (Some 1080%Z) (Some (Finite 30)) 2312
  <> Raise ZeroDivisionError.
Proof.
  apply double_scale_plan_no_zero_division.
  intros v H. injection H as <-. vm_compute. reflexivity.
Defined.

End DoubleSafety.

(** ** The range of the handler *)

Section DoubleRange.

Import Double.
Local Open Scope Q_scope.

Lemma round_pow2 (n : Z) (s : bool) :
  (0 <= n < emax)%Z -> round (signed s (pow2 n)) = Finite (Qred (signed s (pow2 n))).
Proof.
  intro Hn. apply round_dyadic.
  - exists (if s then -1 else 1)%Z, n. split; [|split].
    + destruct s; unfold signed; ring.
    + now destruct s.
    + unfold emin. lia.
  - rewrite abs_signed by apply Qlt_le_weak, pow2_pos. apply pow2_lt. lia.
Qed.

Lemma round_within (q : Q) (n : Z) :
  (0 <= n < emax)%Z -> Qabs q <= pow2 n -> within n (round q).
Proof.
  intros Hn H. apply Qabs_Qle_condition in H. destruct H as [H1 H2].
  pose proof (round_le _ _ H2) as L2.
  pose proof (round_le _ _ H1) as L1.
  change (pow2 n) with (signed false (pow2 n)) in L2.
  rewrite (round_pow2 n false Hn) in L2.
  change (- pow2 n) with (signed true (pow2 n)) in L1.
  rewrite (round_pow2 n true Hn) in L1.
  destruct (round q) as [v|[|]|]; cbn [le] in L1, L2; try discriminate.
  exists v. split; [reflexivity|].
  apply Qle_bool_iff in L1, L2. rewrite Qred_correct in L1, L2.
  unfold signed in L1, L2. apply Qabs_Qle_condition. split; assumption.
Qed.

Lemma within_le (n m : Z) (x : float) : (n <= m)%Z -> within n x -> within m x.
Proof.
  intros H (v & -> & B). exists v. split; [reflexivity|].
  eapply Qle_trans; [exact B | now apply pow2_le].
Qed.

Lemma mul_within (a b : Z) (x y : float) :
  within a x -> within b y -> (0 <= a + b < emax)%Z -> within (a + b) (mul x y).
Proof.
  intros (u & -> & Bu) (v & -> & Bv) H. cbn [mul].
  apply round_within; [exact H|].
  rewrite Qabs_Qmult, pow2_add.
  pose proof (Qabs_nonneg u). pose proof (Qabs_nonneg v).
  apply Qle_trans with (pow2 a * Qabs v).
  - now apply Qmult_le_compat_r.
  - apply Qmult_le_l; [apply pow2_pos | exact Bv].
Qed.

Lemma sub_within (a : Z) (x y : float) :
  within a x -> within a y -> (0 <= a + 1 < emax)%Z -> within (a + 1) (sub x y).
Proof.
  intros (u & -> & Bu) (v & -> & Bv) H. unfold sub. cbn [opp add].
  apply round_within; [exact H|].
  eapply Qle_trans; [apply Qabs_triangle|].
  rewrite Qabs_opp, pow2_add. setoid_replace (pow2 1) with 2 by reflexivity.
  generalize dependent (pow2 a). intros p Bu Bv. lra.
Qed.

Lemma max_within (a : Z) (x y : float) : within a x -> within a y -> within a (max x y).
Proof. intros Hx Hy. unfold max. now destruct (lt x y). Qed.

Lemma min_within (a : Z) (x y : float) : within a x -> within a y -> within a (min x y).
Proof. intros Hx Hy. unfold min. now destruct (lt y x). Qed.

(** A quotient by a divisor of magnitude at least [2^(-b)]. *)
Lemma div_within (a b : Z) (x : float) (w : Q) :
  within a x -> pow2 (- b) <= Qabs w -> (0 <= a + b < emax)%Z ->
  exists q, div x (Finite w) = Ok q /\ within (a + b) q.
Proof.
  intros (u & -> & Bu) Hw H.
  assert (P : 0 < pow2 (- b)) by apply pow2_pos.
  assert (Pw : 0 < Qabs w) by lra.
  assert (Nw : ~ w == 0).
  { intro E. rewrite (Qabs_wd _ _ E) in Pw. discriminate Pw. }
  unfold div. cbn [is_zero].
  destruct (Qeq_bool w 0) eqn:Z; [apply Qeq_bool_eq in Z; contradiction|].
  eexists. split; [reflexivity|].
  apply round_within; [exact H|].
  unfold Qdiv. rewrite Qabs_Qmult, Qabs_Qinv.
  apply Qle_shift_div_r; [exact Pw|].
  apply Qle_trans with (pow2 a); [exact Bu|].
  rewrite pow2_add, <- Qmult_assoc.
  rewrite <- (Qmult_1_r (pow2 a)) at 1.
  apply Qmult_le_l; [apply pow2_pos|].
  apply Qle_trans with (pow2 b * pow2 (- b)).
  - rewrite <- pow2_add. replace (b + - b)%Z with 0%Z by lia. apply Qle_refl.
  - apply Qmult_le_l; [apply pow2_pos | exact Hw].
Qed.

Lemma finite_within (v : Q) (n : Z) : Qabs v <= pow2 n -> within n (Finite v).
Proof. intro H. now exists v. Qed.

Lemma to_int_within (n : Z) (x : float) : within n x -> exists i, to_int x = Ok i.
Proof. intros (v & -> & _). cbn [to_int]. eauto. Qed.

(** In the range of the handler, a clip of at least a tenth of a
    second, and for sizes and lengths up to [2^40], no step of the
    allocator leaves the finite doubles: the call returns. *)
Theorem double_plan_returns (clip mb : Q) :
  1 # 10 <= clip -> clip <= inject_Z (2 ^ 40) ->
  0 < mb -> mb <= inject_Z (2 ^ 40) ->
  exists video_kbps audio_kbps,
    compute_target_bitrates (Finite clip) (Finite mb) 48 160 (literal (98 # 100))
    = Ok (video_kbps, audio_kbps).
Proof.
  intros Hc0 Hc1 Hm0 Hm1.
  assert (Wc : within 40 (Finite clip)).
  { apply finite_within. rewrite Qabs_pos by lra. now rewrite pow2_Z by lia. }
  assert (Wm : within 40 (Finite mb)).
  { apply finite_within. rewrite Qabs_pos by lra. now rewrite pow2_Z by lia. }
  assert (Dc : pow2 (- 4) <= Qabs clip).
  { rewrite Qabs_pos by lra. apply Qle_trans with (1 # 10); [discriminate | exact Hc0]. }
  assert (D1000 : pow2 0 <= Qabs 1000) by discriminate.
  assert (W10 : within 10 (Finite 1024)) by (apply finite_within; discriminate).
  assert (W3 : within 3 (Finite 8)) by (apply finite_within; discriminate).
  assert (Wov : within 0 (literal (98 # 100))).
  { eexists. split; [vm_compute; reflexivity | discriminate]. }
  assert (Wl : within 0 (literal (1 # 10))).
  { eexists. split; [vm_compute; reflexivity | discriminate]. }
  assert (Wmega : within 20 (Finite 1000000)) by (apply finite_within; discriminate).
  unfold compute_target_bitrates.
  set (target_bits := mul (mul (mul (mul (Finite mb) (Finite 1024)) (Finite 1024))
                             (Finite 8)) (literal (98 # 100))).
  assert (Wt : within 63 target_bits).
  { unfold target_bits.
    apply (mul_within 63 0); [|exact Wov | unfold emax; lia].
    apply (mul_within 60 3); [|exact W3 | unfold emax; lia].
    apply (mul_within 50 10); [|exact W10 | unfold emax; lia].
    apply (mul_within 40 10); [exact Wm | exact W10 | unfold emax; lia]. }
  rewrite (of_int_small (160 * 1000)), (of_int_small (48 * 1000)) by (cbn; lia).
  cbn [bind].
  assert (Wh : within 20 (Finite (Qred (inject_Z (160 * 1000)))))
    by (apply finite_within; discriminate).
  assert (Wlo : within 20 (Finite (Qred (inject_Z (48 * 1000)))))
    by (apply finite_within; discriminate).
  set (guess := max (min _ _) _).
  assert (Wg : within 63 guess).
  { unfold guess. apply max_within; [apply min_within|].
    - apply (mul_within 63 0); [exact Wt | exact Wl | unfold emax; lia].
    - apply (within_le 60); [lia|].
      apply (mul_within 20 40); [exact Wh | exact Wc | unfold emax; lia].
    - apply (within_le 60); [lia|].
      apply (mul_within 20 40); [exact Wlo | exact Wc | unfold emax; lia]. }
  destruct (div_within 63 0 guess 1000 Wg D1000) as (q1 & -> & W1); [unfold emax; lia|].
  cbn [bind].
  destruct (div_within (63 + 0) 4 q1 clip W1 Dc) as (q2 & -> & W2); [unfold emax; lia|].
  cbn [bind].
  destruct (to_int_within _ q2 W2) as (a & ->). cbn [bind].
  set (audio := Z.max (Z.min a 160) 48).
  assert (Ha : (48 <= audio <= 160)%Z) by (unfold audio; lia).
  rewrite (of_int_small (audio * 1000)) by lia. cbn [bind].
  assert (Ws : within 20 (Finite (Qred (inject_Z (audio * 1000))))).
  { apply finite_within. rewrite (Qabs_wd _ _ (Qred_correct _)).
    rewrite Qabs_pos by (change 0 with (inject_Z 0); rewrite <- Zle_Qle; lia).
    rewrite pow2_Z by lia. rewrite <- Zle_Qle. lia. }
  set (video := max (sub target_bits _) (Finite 1000000)).
  assert (Wv : within 64 video).
  { unfold video. apply max_within; [|apply (within_le 20); [lia | exact Wmega]].
    apply (sub_within 63); [exact Wt | | unfold emax; lia].
    apply (within_le 60); [lia|].
    apply (mul_within 20 40); [exact Ws | exact Wc | unfold emax; lia]. }
  destruct (div_within 64 0 video 1000 Wv D1000) as (q3 & -> & W3'); [unfold emax; lia|].
  cbn [bind].
  destruct (div_within (64 + 0) 4 q3 clip W3' Dc) as (q4 & -> & W4); [unfold emax; lia|].
  cbn [bind].
  destruct (to_int_within _ q4 W4) as (v & ->). cbn [bind].
  eauto.
Qed.

End DoubleRange.

Lemma double_plan_returns_witness :
  exists video_kbps audio_kbps,
    Double.compute_target_bitrates (Double.Finite 30) (Double.Finite 25) 48 160
      (Double.literal (98 # 100))
    = Ok (video_kbps, audio_kbps).
Proof.
  apply (double_plan_returns 30 25); vm_compute; congruence.
Defined.

(** The rounding of each step shows in the results.  For a clip of 0.23
    seconds and one megabyte the doubles give 35583 and 159 kbit/s where
    exact arithmetic gives 35582 and 160; for 1920x1080 at 30 frames
    per second and 2312 kbit/s they give a plan of 1510x848 where the
    exact root gives 1510x850. *)
Lemma double_rounding_matters :
  Double.compute_target_bitrates
    (Double.literal (23 # 100)) (Double.Finite 1) 48 160 (Double.literal (98 # 100))
    = Ok (35583, 159)
  /\ compute_target_bitrates (23 # 100) 1 48 160 (98 # 100) = Ok (35582, 160)
  /\ Double.scale_plan (Some 1920) (Some 1080) (Some (Double.Finite 30)) 2312
     = Ok (Some (1510, 848))
  /\ scale_plan (Some 1920) (Some 1080) (Some 30%Q) 2312 = Ok (Some (1510, 850)).
Proof. repeat split; vm_compute; reflexivity. Qed.
